(** * go-resvg: the wrapper's numeric routines and entry points

    A shallow embedding of [resvg.go]: the Go [image] values the wrapper
    allocates, the premultiplied-to-straight alpha pass
    [convertFromPremultiplied], the parse and render methods with their
    calls into the native engine, the three convenience entry points
    [Render], [RenderWithSize] and [RenderScaledToSize], and the example
    program [examples/svg2png.go] that calls them.

    Conventions.
    - A Go [uint8] is a [byte]; a Go [uint32] is an [N] whose arithmetic
      wraps modulo 2^32; a Go [int] (64 bits on linux/amd64, the only
      supported platform) is a [Z].
    - A Go run-time panic (index out of range, a slice length [make]
      refuses) is an explicit outcome, never a silent default, and so is
      the fatal error that ends the process at once (the runtime out of
      memory, the engine handed a nil pointer).
    - The native engine is a record of functions, a [Section] variable:
      every theorem holds for every engine.  Each call of a [resvg_]
      function is appended to a log, so that "before any foreign call" is
      a statement about that log.
    - Whether the Go runtime finds the memory for a pixel buffer is the
      machine's business, a [Section] variable as well.
    - [float64] and [float32] are IEEE 754 binary64 and binary32, computed
      with the Standard Library's [SpecFloat] (round to nearest even). *)

From Stdlib Require Import ZArith NArith Lia Strings.Ascii Strings.String Strings.Byte.
From Stdlib Require Import QArith Qpower Qabs Lqa.
From Stdlib Require Import Floats.SpecFloat.
From stdpp Require Import base option list.

Local Open Scope Z_scope.

(** ** Machine integers *)

Definition uint8 := byte.
Definition uint32 := N.

(** [uint32(b)] for a byte [b]. *)
Definition uint32_of_uint8 (b : uint8) : uint32 := Byte.to_N b.

(** [uint8(n)]: the low eight bits. *)
Definition uint8_of_uint32 (n : uint32) : uint8 :=
  match Byte.of_N (n mod 256)%N with
  | Some b => b
  | None => x00
  end.

Definition u32_wrap (n : N) : uint32 := (n mod 2 ^ 32)%N.
Definition u32_mul (a b : uint32) : uint32 := u32_wrap (a * b).

(** Unsigned division; the only use in the source is guarded by [a != 0]. *)
Definition u32_div (a b : uint32) : uint32 := (a / b)%N.

(** ** The Go [image] package, as far as the wrapper uses it *)

Module image.

Record Point := mkPoint { X : Z; Y : Z }.
Record Rectangle := mkRectangle { Min : Point; Max : Point }.

(** [image.Rect(x0, y0, x1, y1)]: a well-formed rectangle, corners swapped
    where needed. *)
Definition Rect (x0 y0 x1 y1 : Z) : Rectangle :=
  let '(x0, x1) := if x1 <? x0 then (x1, x0) else (x0, x1) in
  let '(y0, y1) := if y1 <? y0 then (y1, y0) else (y0, y1) in
  mkRectangle (mkPoint x0 y0) (mkPoint x1 y1).

Definition Dx (r : Rectangle) : Z := X (Max r) - X (Min r).
Definition Dy (r : Rectangle) : Z := Y (Max r) - Y (Min r).

(** [Bounds] is the field Go calls [Rect], the value [img.Bounds()]
    returns. *)
Record RGBA := mkRGBA { Pix : list uint8; Stride : Z; Bounds : Rectangle }.

Definition maxInt : Z := 2 ^ 63 - 1.

(** [maxAlloc] of the Go runtime on linux/amd64, where the heap has 48
    address bits: [make] panics with "len out of range" when asked for a
    slice of more bytes. *)
Definition maxAlloc : Z := 2 ^ 48.

(** [image.NewRGBA(r)].  The buffer has [4 * Dx * Dy] zero bytes.  The
    library panics when that length is negative or does not fit an
    [int], and [make] panics when it exceeds [maxAlloc] ([None]). *)
Definition NewRGBA (r : Rectangle) : option RGBA :=
  let w := Dx r in
  let h := Dy r in
  if (w <? 0) || (h <? 0) || (maxInt <? 4 * w * h) || (maxAlloc <? 4 * w * h)
  then None
  else Some (mkRGBA (replicate (Z.to_nat (4 * w * h)) x00) (4 * w) r).

(** [p.PixOffset(x, y)]. *)
Definition PixOffset (p : RGBA) (x y : Z) : Z :=
  (y - Y (Min (Bounds p))) * Stride p + (x - X (Min (Bounds p))) * 4.

End image.

(** ** Slices with Go's bounds checks *)

(** [s[i]]: [None] is the index-out-of-range panic. *)
Definition index {A} (s : list A) (i : Z) : option A :=
  if i <? 0 then None else s !! Z.to_nat i.

(** [s[i] = v]: [None] is the index-out-of-range panic. *)
Definition assign {A} (s : list A) (i : Z) (v : A) : option (list A) :=
  if (0 <=? i) && (i <? Z.of_nat (length s))
  then Some (<[Z.to_nat i := v]> s)
  else None.

(** [for i := lo; i < hi; i++ { body }] over a state that the body may
    abandon with a panic. *)
Fixpoint for_each {S} (idxs : list Z) (body : Z → S → option S) (s : S)
  : option S :=
  match idxs with
  | [] => Some s
  | i :: rest =>
      match body i s with
      | Some s' => for_each rest body s'
      | None => None
      end
  end.

Definition for_range {S} (lo hi : Z) (body : Z → S → option S) (s : S)
  : option S :=
  for_each (seqZ lo (hi - lo)) body s.

(** ** [convertFromPremultiplied] *)

(** [if c > 255 { c = 255 }] *)
Definition clamp255 (c : uint32) : uint32 :=
  if (255 <? c)%N then 255%N else c.

(** One channel of the source's inner block: [c = (c * 255) / a], then the
    clamp. *)
Definition unpremultiply (c a : uint32) : uint32 :=
  clamp255 (u32_div (u32_mul c 255%N) a).

(** The body of the two loops, at pixel [(x, y)], on the contents of
    [img.Pix].  The image header ([Stride], [Bounds]) is never written. *)
Definition convert_pixel (img : image.RGBA) (x y : Z) (pix : list uint8)
  : option (list uint8) :=
  let i := image.PixOffset img x y in
  r ← uint32_of_uint8 <$> index pix (i + 0);
  g ← uint32_of_uint8 <$> index pix (i + 1);
  b ← uint32_of_uint8 <$> index pix (i + 2);
  a ← uint32_of_uint8 <$> index pix (i + 3);
  if negb (a =? 0)%N && negb (a =? 255)%N then
    let r := unpremultiply r a in
    let g := unpremultiply g a in
    let b := unpremultiply b a in
    pix ← assign pix (i + 0) (uint8_of_uint32 r);
    pix ← assign pix (i + 1) (uint8_of_uint32 g);
    assign pix (i + 2) (uint8_of_uint32 b)
  else Some pix.

Definition convert_row (img : image.RGBA) (y : Z) (pix : list uint8)
  : option (list uint8) :=
  let bounds := image.Bounds img in
  for_range (image.X (image.Min bounds)) (image.X (image.Max bounds))
    (fun x => convert_pixel img x y) pix.

(** [convertFromPremultiplied(img)]: the image after the in-place pass, or
    [None] when the pass panics. *)
Definition convertFromPremultiplied (img : image.RGBA) : option image.RGBA :=
  let bounds := image.Bounds img in
  pix ← for_range (image.Y (image.Min bounds)) (image.Y (image.Max bounds))
         (convert_row img) (image.Pix img);
  Some (image.mkRGBA pix (image.Stride img) (image.Bounds img)).

(** ** Floating point: binary64 and binary32 *)

Definition float64 := spec_float.
Definition float32 := spec_float.

Module f64.
Definition prec : Z := 53.
Definition emax : Z := 1024.
Definition div : float64 → float64 → float64 := SFdiv prec emax.
Definition mul : float64 → float64 → float64 := SFmul prec emax.
Definition sub : float64 → float64 → float64 := SFsub prec emax.
Definition ltb : float64 → float64 → bool := SFltb.
Definition leb : float64 → float64 → bool := SFleb.
Definition eqb : float64 → float64 → bool := SFeqb.
Definition of_Z (z : Z) : float64 := binary_normalize prec emax z 0 false.
Definition zero : float64 := S754_zero false.
End f64.

Module f32.
Definition prec : Z := 24.
Definition emax : Z := 128.
Definition leb : float32 → float32 → bool := SFleb.
Definition of_Z (z : Z) : float32 := binary_normalize prec emax z 0 false.
Definition zero : float32 := S754_zero false.
End f32.

(** [float64(x)] for a [float32]: exact, the value re-expressed with a
    53-bit mantissa. *)
Definition float64_of_float32 (x : float32) : float64 :=
  match x with
  | S754_finite s m e => binary_round f64.prec f64.emax s m e
  | _ => x
  end.

(** [float32(x)] for a [float64]: rounded to the nearest binary32 value. *)
Definition float32_of_float64 (x : float64) : float32 :=
  match x with
  | S754_finite s m e => binary_round f32.prec f32.emax s m e
  | _ => x
  end.

(** [float64(n)] for a [uint32]: exact. *)
Definition float64_of_uint32 (n : uint32) : float64 := f64.of_Z (Z.of_N n).

(** The integer part of a finite float, rounded toward zero. *)
Definition float_trunc (x : spec_float) : option Z :=
  match x with
  | S754_zero _ => Some 0
  | S754_finite s m e =>
      let mag := if 0 <=? e then Z.pos m * 2 ^ e else Z.pos m / 2 ^ (- e) in
      Some (if s then - mag else mag)
  | _ => None
  end.

(** [math.Min(x, y)], with the special cases of the Go library:
    [Min(x, -Inf) = -Inf], [Min(x, NaN) = NaN], [Min(-0, +-0) = -0]. *)
Definition math_Min (x y : float64) : float64 :=
  match x, y with
  | S754_infinity true, _ | _, S754_infinity true => S754_infinity true
  | S754_nan, _ | _, S754_nan => S754_nan
  | S754_zero sx, S754_zero _ => if sx then x else y
  | _, _ => if f64.ltb x y then x else y
  end.

(** The arithmetic the letterbox block of [RenderScaledToSize] is written
    in, with the equality and order its results are compared by.  The
    program runs it at [binary64_arith]; [exact_arith] reads the same
    formulas over the rationals, without rounding. *)
Class Float64Arith (F : Type) := {
  fdiv : F → F → F;
  fmul : F → F → F;
  fsub : F → F → F;
  fmin : F → F → F;
  fconst : Z → F;
  of_uint32 : uint32 → F;
  feq : F → F → Prop;
  flt : F → F → Prop
}.

#[export] Instance binary64_arith : Float64Arith float64 := {
  fdiv := f64.div;
  fmul := f64.mul;
  fsub := f64.sub;
  fmin := math_Min;
  fconst := f64.of_Z;
  of_uint32 := float64_of_uint32;
  feq := fun x y => f64.eqb x y = true;
  flt := fun x y => f64.ltb x y = true
}.

Definition Q_min (x y : Q) : Q := if Qlt_le_dec x y then x else y.

#[export] Instance exact_arith : Float64Arith Q := {
  fdiv := Qdiv;
  fmul := Qmult;
  fsub := Qminus;
  fmin := Q_min;
  fconst := inject_Z;
  of_uint32 := fun n => inject_Z (Z.of_N n);
  feq := Qeq;
  flt := Qlt
}.

(** ** The wrapper's value types *)

Record Transform := mkTransform {
  A : float32; B : float32; C : float32; D : float32; E : float32; F : float32
}.

Record Size := mkSize { Width : float32; Height : float32 }.

(** The values computed between "Compute uniform scale to fit" and
    "Center offsets" in [RenderScaledToSize]. *)
Record Letterbox (F : Type) := mkLetterbox {
  scale : F; scaledW : F; scaledH : F; tx : F; ty : F
}.
Arguments mkLetterbox {F}.
Arguments scale {F}.
Arguments scaledW {F}.
Arguments scaledH {F}.
Arguments tx {F}.
Arguments ty {F}.

Definition letterbox {F} `{Float64Arith F} (naturalW naturalH : F)
    (width height : uint32) : Letterbox F :=
  let targetW := of_uint32 width in
  let targetH := of_uint32 height in
  let scaleX := fdiv targetW naturalW in
  let scaleY := fdiv targetH naturalH in
  let scale := fmin scaleX scaleY in
  let scaledW := fmul naturalW scale in
  let scaledH := fmul naturalH scale in
  let tx := fdiv (fsub targetW scaledW) (fconst 2) in
  let ty := fdiv (fsub targetH scaledH) (fconst 2) in
  mkLetterbox scale scaledW scaledH tx ty.

(** The fit-and-letterbox property of the spec, in the arithmetic at hand:
    one scaled side equals its target, the other is strictly smaller and
    sits between two equal positive margins. *)
Definition fills_one_axis {F} `{Float64Arith F} (naturalW naturalH : F)
    (width height : uint32) : Prop :=
  let l := letterbox naturalW naturalH width height in
  let targetW := of_uint32 width in
  let targetH := of_uint32 height in
  (feq (scaledW l) targetW ∧ flt (scaledH l) targetH ∧
   flt (fconst 0) (ty l) ∧
   feq (fsub (fsub targetH (scaledH l)) (ty l)) (ty l))
  ∨
  (feq (scaledH l) targetH ∧ flt (scaledW l) targetW ∧
   flt (fconst 0) (tx l) ∧
   feq (fsub (fsub targetW (scaledW l)) (tx l)) (tx l)).

(** The hypotheses of that property: all four sizes positive, the two
    ratios different. *)
Definition letterbox_inputs {F} `{Float64Arith F} (naturalW naturalH : F)
    (width height : uint32) : Prop :=
  flt (fconst 0) naturalW ∧ flt (fconst 0) naturalH ∧
  flt (fconst 0) (of_uint32 width) ∧ flt (fconst 0) (of_uint32 height) ∧
  ¬ feq (fdiv (of_uint32 width) naturalW) (fdiv (of_uint32 height) naturalH).

(** "Build the transform": the [Transform] literal of [RenderScaledToSize]. *)
Definition letterbox_transform (l : Letterbox float64) : Transform :=
  {| A := float32_of_float64 (scale l);
     D := float32_of_float64 (scale l);
     E := float32_of_float64 (tx l);
     F := float32_of_float64 (ty l);
     B := f32.zero;
     C := f32.zero |}.

(** Modelled from the spec: [resvg_transform_identity] is declared in
    [resvg.h], which is not part of the sources; the spec fixes the
    identity transform as [{1,0,0,1,0,0}]. *)
Definition resvg_transform_identity : Transform :=
  {| A := f32.of_Z 1; B := f32.zero; C := f32.zero;
     D := f32.of_Z 1; E := f32.zero; F := f32.zero |}.

(** ** Errors *)

(** The result codes of the engine's C interface; [RESVG_OTHER] stands for
    every code outside the enumeration of [resvg.h]. *)
Inductive resvg_error :=
| RESVG_OK
| RESVG_ERROR_NOT_AN_UTF8_STR
| RESVG_ERROR_FILE_OPEN_FAILED
| RESVG_ERROR_MALFORMED_GZIP
| RESVG_ERROR_ELEMENTS_LIMIT_REACHED
| RESVG_ERROR_INVALID_SIZE
| RESVG_ERROR_PARSING_FAILED
| RESVG_OTHER (code : Z).

(** Go [error] values of the package: the six sentinels, [errors.New] with
    its text, and the two [fmt.Errorf] formats with their argument. *)
Inductive error :=
| ErrNotUTF8
| ErrFileOpenFailed
| ErrMalformedGzip
| ErrElementsLimit
| ErrInvalidSize
| ErrParsingFailed
| errors_New (text : string)
| Errorf_unknown_resvg_error (code : Z)
| Errorf_failed_to_render_node (id : string).

Definition cErrorToGoError (result : resvg_error) : option error :=
  match result with
  | RESVG_OK => None
  | RESVG_ERROR_NOT_AN_UTF8_STR => Some ErrNotUTF8
  | RESVG_ERROR_FILE_OPEN_FAILED => Some ErrFileOpenFailed
  | RESVG_ERROR_MALFORMED_GZIP => Some ErrMalformedGzip
  | RESVG_ERROR_ELEMENTS_LIMIT_REACHED => Some ErrElementsLimit
  | RESVG_ERROR_INVALID_SIZE => Some ErrInvalidSize
  | RESVG_ERROR_PARSING_FAILED => Some ErrParsingFailed
  | RESVG_OTHER code => Some (Errorf_unknown_resvg_error code)
  end.

Definition err_empty_data : error := errors_New "empty data".
Definition err_no_renderable : error :=
  errors_New "SVG contains no renderable elements".
Definition err_invalid_dimensions : error :=
  errors_New "SVG has invalid dimensions".
Definition err_invalid_natural_dimensions : error :=
  errors_New "SVG has invalid natural dimensions".

(** ** The native engine and the calls that reach it *)

(** [C.CString(s)] copies the bytes of [s] and appends a NUL.  C reads the
    copy as a string, which ends at its first NUL byte: what the callee is
    handed is the part of [s] before that byte. *)
Fixpoint C_CString (s : string) : string :=
  match s with
  | EmptyString => EmptyString
  | String c rest =>
      if Ascii.eqb c Ascii.zero then EmptyString
      else String c (C_CString rest)
  end.

(** Outcome of a Go computation: it returns; or the goroutine panics, and
    the deferred calls run while the panic unwinds; or the process ends at
    once with a fatal error, and nothing runs after it. *)
Inductive outcome (T : Type) :=
| Return (v : T)
| Panic
| Fatal.
Arguments Return {T}.
Arguments Panic {T}.
Arguments Fatal {T}.

Section Wrapper.

(** [*C.resvg_options] and [*C.resvg_render_tree]: what the handles stand
    for is the engine's business. *)
Context {c_options c_tree : Type}.

(** The engine behind the C interface.  [resvg_render] and
    [resvg_render_node] give the byte they store at each offset of the
    caller's buffer of [width * height * 4] bytes; the node id
    [resvg_render_node] takes is the C string it reads. *)
Record Engine := mkEngine {
  resvg_options_create : c_options;
  resvg_options_load_system_fonts : c_options → c_options;
  resvg_parse_tree_from_data : list uint8 → c_options → resvg_error * c_tree;
  resvg_is_image_empty : c_tree → bool;
  resvg_get_image_size : c_tree → Size;
  resvg_render : c_tree → Transform → uint32 → uint32 → nat → uint8;
  resvg_render_node :
    c_tree → string → Transform → uint32 → uint32 → bool * (nat → uint8)
}.

Variable engine : Engine.

(** What [uint32(f)] yields for a [float32] whose integer part does not fit
    a [uint32]: Go leaves it to the implementation. *)
Variable uint32_overflow : float32 → uint32.

(** Whether the Go runtime finds [n] bytes for a new slice.  When it does
    not, the process ends with the fatal error "out of memory". *)
Variable heap_grants : Z → bool.

(** One entry per call of the engine. *)
Inductive ccall :=
| call_options_create
| call_options_load_system_fonts (o : c_options)
| call_options_destroy (o : c_options)
| call_parse_tree_from_data (data : list uint8) (o : c_options)
| call_is_image_empty (t : c_tree)
| call_get_image_size (t : c_tree)
| call_transform_identity
| call_render (t : c_tree) (tr : Transform) (width height : uint32)
| call_render_node (t : c_tree) (id : string) (tr : Transform)
    (width height : uint32)
| call_tree_destroy (t : c_tree).

Definition is_render_call (c : ccall) : bool :=
  match c with
  | call_render _ _ _ _ | call_render_node _ _ _ _ _ => true
  | _ => false
  end.

(** A Go computation: the foreign calls it made, in order, and how it
    ended. *)
Definition go (T : Type) : Type := list ccall * outcome T.

Definition go_ret {T} (v : T) : go T := ([], Return v).

Definition go_bind {T U} (m : go T) (k : T → go U) : go U :=
  match m with
  | (l, Return v) => let '(l', r) := k v in (l ++ l', r)
  | (l, Panic) => (l, Panic)
  | (l, Fatal) => (l, Fatal)
  end.

Definition go_panic {T} : go T := ([], Panic).
Definition go_fatal {T} : go T := ([], Fatal).

(** Deferred calls run unless the process has ended. *)
Definition unwinds {T} (r : outcome T) : bool :=
  match r with
  | Fatal => false
  | _ => true
  end.

(** A foreign call with its result. *)
Definition foreign {T} (c : ccall) (v : T) : go T := ([c], Return v).

(** A Go operation that either yields a value or panics. *)
Definition checked {T} (o : option T) : go T :=
  match o with
  | Some v => go_ret v
  | None => go_panic
  end.

(** [defer d; body]: [d] runs when [body] is left, by return or by panic;
    it does not run when the process has ended. *)
Definition defer {T} (d : go unit) (body : go T) : go T :=
  match body, d with
  | (l, Fatal), _ => (l, Fatal)
  | (l, r), (ld, Return _) => (l ++ ld, r)
  | (l, _), (ld, Panic) => (l ++ ld, Panic)
  | (l, _), (ld, Fatal) => (l ++ ld, Fatal)
  end.

#[export] Instance go_mret : MRet go := @go_ret.
#[export] Instance go_mbind : MBind go := fun T U k m => go_bind m k.

(** A handle passed to the engine.  On a nil handle the engine aborts the
    process before it does anything else. *)
Definition handle {H} (h : option H) : go H :=
  match h with
  | Some v => go_ret v
  | None => go_fatal
  end.

(** ** Options *)

Record Options := mkOptions { cOpts : option c_options }.

(** [NewOptions()].  The finalizers the wrapper registers run at the
    garbage collector's discretion and are not part of any call's log. *)
Definition NewOptions : go Options :=
  o ← foreign call_options_create (resvg_options_create engine);
  go_ret (mkOptions (Some o)).

(** [o.LoadSystemFonts()]: the engine updates the object behind [o.cOpts]. *)
Definition LoadSystemFonts (o : Options) : go Options :=
  h ← handle (cOpts o);
  h' ← foreign (call_options_load_system_fonts h)
          (resvg_options_load_system_fonts engine h);
  go_ret (mkOptions (Some h')).

Definition Options_destroy (o : Options) : go unit :=
  match cOpts o with
  | Some h => foreign (call_options_destroy h) tt
  | None => go_ret tt
  end.

(** ** RenderTree *)

Record RenderTree := mkRenderTree { cTree : option c_tree }.

(** [ParseFromData(data, opts)]; [opts] is a pointer and may be nil. *)
Definition ParseFromData (data : list uint8) (opts : option Options)
  : go (option RenderTree * option error) :=
  if (length data =? 0)%nat then go_ret (None, Some err_empty_data)
  else
    o ← checked opts;
    h ← handle (cOpts o);
    '(result, cTree) ← foreign (call_parse_tree_from_data data h)
                          (resvg_parse_tree_from_data engine data h);
    match cErrorToGoError result with
    | Some err => go_ret (None, Some err)
    | None => go_ret (Some (mkRenderTree (Some cTree)), None)
    end.

Definition IsEmpty (t : RenderTree) : go bool :=
  h ← handle (cTree t);
  foreign (call_is_image_empty h) (resvg_is_image_empty engine h).

Definition GetImageSize (t : RenderTree) : go Size :=
  h ← handle (cTree t);
  foreign (call_get_image_size h) (resvg_get_image_size engine h).

(** [image.NewRGBA(image.Rect(0, 0, int(width), int(height)))] *)
Definition new_canvas (width height : uint32) : option image.RGBA :=
  image.NewRGBA (image.Rect 0 0 (Z.of_N width) (Z.of_N height)).

(** The runtime finds the memory for the buffer of [img]; an empty slice
    needs none. *)
Definition granted (img : image.RGBA) : bool :=
  let n := Z.of_nat (length (image.Pix img)) in
  (n =? 0) || heap_grants n.

(** The allocation inside [image.NewRGBA]: the panics of [new_canvas]
    come first, then the runtime looks for the memory. *)
Definition allocate (canvas : option image.RGBA) : go image.RGBA :=
  match canvas with
  | None => go_panic
  | Some img => if granted img then go_ret img else go_fatal
  end.

(** The buffer [img.Pix] after the engine has stored its bytes in it. *)
Definition store (bytes : nat → uint8) (img : image.RGBA) : image.RGBA :=
  image.mkRGBA (map bytes (seq 0 (length (image.Pix img))))
    (image.Stride img) (image.Bounds img).

(** [t.Render(transform, width, height)].  [&img.Pix[0]] is evaluated
    before the call and panics on an empty buffer. *)
Definition RenderTree_Render (t : RenderTree) (transform : Transform)
    (width height : uint32) : go image.RGBA :=
  img ← allocate (new_canvas width height);
  _ ← checked (index (image.Pix img) 0);
  h ← handle (cTree t);
  bytes ← foreign (call_render h transform width height)
             (resvg_render engine h transform width height);
  checked (convertFromPremultiplied (store bytes img)).

(** [t.RenderNode(id, transform, width, height)].  The engine is handed
    [cID], the C string made of [id]; the error names [id] itself.
    [C.CString] and the deferred [C.free] are calls of the C library, not
    of the engine, and leave no entry in the log. *)
Definition RenderTree_RenderNode (t : RenderTree) (id : string)
    (transform : Transform) (width height : uint32)
  : go (option image.RGBA * option error) :=
  let cID := C_CString id in
  img ← allocate (new_canvas width height);
  _ ← checked (index (image.Pix img) 0);
  h ← handle (cTree t);
  '(success, bytes) ← foreign (call_render_node h cID transform width height)
                         (resvg_render_node engine h cID transform width height);
  if negb (success : bool) then go_ret (None, Some (Errorf_failed_to_render_node id))
  else
    img ← checked (convertFromPremultiplied (store bytes img));
    go_ret (Some img, None).

Definition RenderTree_destroy (t : RenderTree) : go unit :=
  match cTree t with
  | Some h => foreign (call_tree_destroy h) tt
  | None => go_ret tt
  end.

Definition IdentityTransform : go Transform :=
  foreign call_transform_identity resvg_transform_identity.

(** [uint32(f)] for a [float32]: the integer part when it fits. *)
Definition uint32_of_float32 (f : float32) : uint32 :=
  match float_trunc f with
  | Some z =>
      if (0 <=? z) && (z <? 2 ^ 32) then Z.to_N z else uint32_overflow f
  | None => uint32_overflow f
  end.

(** ** The convenience entry points *)

(** [Render(data)] *)
Definition Render (data : list uint8)
  : go (option image.RGBA * option error) :=
  opts ← NewOptions;
  opts ← LoadSystemFonts opts;
  defer (Options_destroy opts) (
    '(tree, err) ← ParseFromData data (Some opts);
    match err, tree with
    | Some err, _ => go_ret (None, Some err)
    | None, None => go_panic
    | None, Some tree =>
      defer (RenderTree_destroy tree) (
        empty ← IsEmpty tree;
        if (empty : bool) then go_ret (None, Some err_no_renderable)
        else
          size ← GetImageSize tree;
          if f32.leb (Width size) f32.zero || f32.leb (Height size) f32.zero
          then go_ret (None, Some err_invalid_dimensions)
          else
            identity ← IdentityTransform;
            img ← RenderTree_Render tree identity
                     (uint32_of_float32 (Width size))
                     (uint32_of_float32 (Height size));
            go_ret (Some img, None))
    end).

(** [RenderWithSize(data, width, height)] *)
Definition RenderWithSize (data : list uint8) (width height : uint32)
  : go (option image.RGBA * option error) :=
  opts ← NewOptions;
  opts ← LoadSystemFonts opts;
  defer (Options_destroy opts) (
    '(tree, err) ← ParseFromData data (Some opts);
    match err, tree with
    | Some err, _ => go_ret (None, Some err)
    | None, None => go_panic
    | None, Some tree =>
      defer (RenderTree_destroy tree) (
        empty ← IsEmpty tree;
        if (empty : bool) then go_ret (None, Some err_no_renderable)
        else
          identity ← IdentityTransform;
          img ← RenderTree_Render tree identity width height;
          go_ret (Some img, None))
    end).

(** [RenderScaledToSize(data, width, height)] *)
Definition RenderScaledToSize (data : list uint8) (width height : uint32)
  : go (option image.RGBA * option error) :=
  opts ← NewOptions;
  opts ← LoadSystemFonts opts;
  defer (Options_destroy opts) (
    '(tree, err) ← ParseFromData data (Some opts);
    match err, tree with
    | Some err, _ => go_ret (None, Some err)
    | None, None => go_panic
    | None, Some tree =>
      defer (RenderTree_destroy tree) (
        empty ← IsEmpty tree;
        if (empty : bool) then go_ret (None, Some err_no_renderable)
        else
          naturalSize ← GetImageSize tree;
          let naturalW := float64_of_float32 (Width naturalSize) in
          let naturalH := float64_of_float32 (Height naturalSize) in
          if f64.leb naturalW f64.zero || f64.leb naturalH f64.zero
          then go_ret (None, Some err_invalid_natural_dimensions)
          else
            let transform :=
              letterbox_transform (letterbox naturalW naturalH width height) in
            img ← RenderTree_Render tree transform width height;
            go_ret (Some img, None))
    end).

(** ** Render calls, for statements about all of them *)

(** The render calls of the package: the two methods and the three
    convenience entry points. *)
Inductive render_entry :=
| entry_Render_method (t : RenderTree) (tr : Transform) (width height : uint32)
| entry_RenderNode (t : RenderTree) (id : string) (tr : Transform)
    (width height : uint32)
| entry_Render (data : list uint8)
| entry_RenderWithSize (data : list uint8) (width height : uint32)
| entry_RenderScaledToSize (data : list uint8) (width height : uint32).

(** The image a render call hands back, [None] for Go's nil. *)
Definition run_entry (e : render_entry) : go (option image.RGBA) :=
  match e with
  | entry_Render_method t tr w h =>
      img ← RenderTree_Render t tr w h; go_ret (Some img)
  | entry_RenderNode t id tr w h =>
      r ← RenderTree_RenderNode t id tr w h; go_ret (fst r)
  | entry_Render data => r ← Render data; go_ret (fst r)
  | entry_RenderWithSize data w h =>
      r ← RenderWithSize data w h; go_ret (fst r)
  | entry_RenderScaledToSize data w h =>
      r ← RenderScaledToSize data w h; go_ret (fst r)
  end.

(** The buffer as the engine left it, for a logged render call. *)
Definition raw_buffer (c : ccall) : option image.RGBA :=
  match c with
  | call_render h tr w h' =>
      store (resvg_render engine h tr w h') <$> new_canvas w h'
  | call_render_node h id tr w h' =>
      store (snd (resvg_render_node engine h id tr w h')) <$> new_canvas w h'
  | _ => None
  end.

(** ** Vocabulary for the statements *)

(** The opening the three entry points share, with what follows
    [tree.IsEmpty()] left open: each entry point is [with_tree] at its own
    tail, by computation. *)
Definition with_tree {R} (data : list uint8)
    (body : RenderTree → go (option R * option error))
  : go (option R * option error) :=
  opts ← NewOptions;
  opts ← LoadSystemFonts opts;
  defer (Options_destroy opts) (
    '(tree, err) ← ParseFromData data (Some opts);
    match err, tree with
    | Some err, _ => go_ret (None, Some err)
    | None, None => go_panic
    | None, Some tree =>
      defer (RenderTree_destroy tree) (
        empty ← IsEmpty tree;
        if (empty : bool) then go_ret (None, Some err_no_renderable)
        else body tree)
    end).

(** The options the entry points parse with. *)
Definition loaded_options : c_options :=
  resvg_options_load_system_fonts engine (resvg_options_create engine).

(** The engine accepts [data] and hands back the tree [t]. *)
Definition parses (data : list uint8) (t : c_tree) : Prop :=
  data ≠ [] ∧
  resvg_parse_tree_from_data engine data loaded_options = (RESVG_OK, t).

(** The calls every entry point makes up to the parse, and the deferred
    ones it ends with. *)
Definition opening (data : list uint8) : list ccall :=
  [call_options_create;
   call_options_load_system_fonts (resvg_options_create engine);
   call_parse_tree_from_data data loaded_options].

Definition closing (t : c_tree) : list ccall :=
  [call_tree_destroy t; call_options_destroy loaded_options].

End Wrapper.

Arguments Engine : clear implicits.
Arguments mkEngine {c_options c_tree}.
Arguments ccall : clear implicits.
Arguments call_options_create {c_options c_tree}.
Arguments call_transform_identity {c_options c_tree}.
Arguments call_options_load_system_fonts {c_options c_tree}.
Arguments call_options_destroy {c_options c_tree}.
Arguments call_parse_tree_from_data {c_options c_tree}.
Arguments call_is_image_empty {c_options c_tree}.
Arguments call_get_image_size {c_options c_tree}.
Arguments call_render {c_options c_tree}.
Arguments call_render_node {c_options c_tree}.
Arguments call_tree_destroy {c_options c_tree}.
Arguments mkOptions {c_options}.
Arguments cOpts {c_options}.
Arguments mkRenderTree {c_tree}.
Arguments cTree {c_tree}.

(** A canvas the wrapper gets and whose first byte has an address: both
    sides positive, [4 * width * height] bytes within what [make] accepts
    and found by the runtime. *)
Definition canvas_ok (heap_grants : Z → bool) (width height : uint32) : bool :=
  (0 <? Z.of_N width) && (0 <? Z.of_N height)
  && (4 * Z.of_N width * Z.of_N height <=? image.maxAlloc)
  && heap_grants (4 * Z.of_N width * Z.of_N height).

(** The shape of every image the wrapper allocates. *)
Definition canvas_shaped (w h : Z) (img : image.RGBA) : Prop :=
  0 ≤ w ∧ 0 ≤ h ∧
  image.Stride img = 4 * w ∧
  image.Bounds img = image.Rect 0 0 w h ∧
  length (image.Pix img) = Z.to_nat (4 * w * h).

(** What the pass leaves at offset [j] of a buffer that held [pix]: the
    byte itself in the alpha slot and under alpha 0 or 255, and the
    truncated quotient, capped at 255, elsewhere. *)
Definition straight_byte (k : nat) (c a : uint8) : uint8 :=
  let a' := uint32_of_uint8 a in
  if (k =? 3)%nat || (a' =? 0)%N || (a' =? 255)%N then c
  else uint8_of_uint32 (unpremultiply (uint32_of_uint8 c) a').

Definition straight_at (pix : list uint8) (j : nat) : option uint8 :=
  c ← pix !! j;
  a ← pix !! (4 * (j / 4) + 3)%nat;
  Some (straight_byte (j mod 4) c a).

(** ** The numbers behind the floats, for the statements on rounding *)

(** [m * 2^e], the magnitude of a finite float. *)
Definition mag (m : positive) (e : Z) : Q := (inject_Z (Z.pos m) * 2 ^ e)%Q.

(** The number a finite float stands for; [0] for the zeros (and, by
    convention, for the other values, which the statements exclude). *)
Definition float_value (x : spec_float) : Q :=
  match x with
  | S754_finite s m e => if s then (- mag m e)%Q else mag m e
  | _ => 0%Q
  end.

(** A normal binary64 number of sign [s]: a 53-bit mantissa, the exponent
    between [lo] and [hi]. *)
Definition normal64 (s : bool) (lo hi : Z) (x : float64) : Prop :=
  ∃ m e, x = S754_finite s m e ∧ 2 ^ 52 ≤ Z.pos m < 2 ^ 53 ∧ lo ≤ e ≤ hi.

(** Where a number sits between two neighbouring integers, as the round
    and sticky bits of a shifted mantissa record it. *)
Definition located (y : Q) (mrs : shr_record) : Prop :=
  let m := inject_Z (shr_m mrs) in
  match shr_r mrs, shr_s mrs with
  | false, false => (y == m)%Q
  | false, true => (m < y ∧ y < m + (1 # 2))%Q
  | true, false => (y == m + (1 # 2))%Q
  | true, true => (m + (1 # 2) < y ∧ y < m + 1)%Q
  end.

(** The unit roundoff of binary64, [2^-53]. *)
Definition u64 : Q := 1 # 9007199254740992.

(** [+0], a positive finite number or [+Inf]. *)
Definition nonneg (x : spec_float) : bool :=
  match x with
  | S754_zero false | S754_finite false _ _ | S754_infinity false => true
  | _ => false
  end.

(** [+0] or a positive finite number. *)
Definition finite_nonneg (x : spec_float) : bool :=
  match x with
  | S754_zero false | S754_finite false _ _ => true
  | _ => false
  end.

(** A positive finite binary32 number, well formed. *)
Definition positive_binary32 (x : float32) : bool :=
  match x with
  | S754_finite false m e => bounded f32.prec f32.emax m e
  | _ => false
  end.

Definition is_finite (x : spec_float) : bool :=
  match x with
  | S754_zero _ | S754_finite _ _ _ => true
  | _ => false
  end.

(** What rounding may cost the letterbox, as a fraction of the target: a
    scaled side comes out of a quotient and a product, [2^-51] covers the
    two roundings; [2^-52] covers an offset that should be zero. *)
Definition tol_side : Q := 1 # 2251799813685248.
Definition tol_offset : Q := 1 # 4503599627370496.

(** The scaled side meets its target [T] and its offset is zero, up to
    rounding. *)
Definition axis_filled (T : Q) (scaled t : float64) : Prop :=
  (Qabs (float_value scaled - T) <= T * tol_side ∧
   Qabs (float_value t) <= T * tol_offset)%Q.

(** The scaled side does not exceed its target [T] and its offset is not
    negative, up to rounding. *)
Definition axis_padded (T : Q) (scaled t : float64) : Prop :=
  (float_value scaled <= T * (1 + tol_side) ∧
   - (T * tol_offset) <= float_value t)%Q.

(** The margins on the two sides of the content, [t] and
    [T - scaled - t], are equal up to rounding. *)
Definition axis_centred (T : Q) (scaled t : float64) : Prop :=
  (Qabs ((T - float_value scaled - float_value t) - float_value t)
   <= Qabs (T - float_value scaled) * tol_side)%Q.

(** How the two computed ratios compare: exactly one of [Lt], [Eq] and
    [Gt] fits. *)
Definition ratio_order (sx sy : float64) (c : comparison) : Prop :=
  f64.ltb sx sy = match c with Lt => true | _ => false end ∧
  f64.ltb sy sx = match c with Gt => true | _ => false end ∧
  f64.eqb sx sy = match c with Eq => true | _ => false end.

(** ** The spec's words, for comparison *)

(** [n / d] rounded to the nearest integer, halves upward. *)
Definition round_div (n d : N) : N := ((2 * n + d) / (2 * d))%N.

(** "channel = round(channel * 255 / alpha), clamped to [0,255]" *)
Definition spec_unpremultiply (c a : N) : N :=
  N.min 255 (round_div (c * 255) a).

(** "re-premultiplying (channel × alpha / 255, rounded)" *)
Definition spec_premultiply (c a : N) : N := round_div (c * a) 255.

(** ** The entry points as one family *)

(** A canvas on which the wrapper panics: a side of length zero leaves no
    first byte to take the address of, and [make] refuses more than
    [maxAlloc] bytes. *)
Definition canvas_panics (width height : uint32) : bool :=
  (Z.of_N width =? 0) || (Z.of_N height =? 0)
  || (image.maxAlloc <? 4 * Z.of_N width * Z.of_N height).

(** The pair an entry point makes of the method's image. *)
Definition wrap_image (r : outcome image.RGBA)
  : outcome (option image.RGBA * option error) :=
  match r with
  | Return img => Return (Some img, None)
  | Panic => Panic
  | Fatal => Fatal
  end.

Section Convenience.
Context {c_options c_tree : Type}.
Variable engine : Engine c_options c_tree.
Variable uint32_overflow : float32 → uint32.
Variable heap_grants : Z → bool.

(** The three convenience entry points and their arguments. *)
Inductive convenience :=
| conv_Render (data : list uint8)
| conv_RenderWithSize (data : list uint8) (width height : uint32)
| conv_RenderScaledToSize (data : list uint8) (width height : uint32).

Definition run_convenience (c : convenience)
  : go (c_options:=c_options) (c_tree:=c_tree) (option image.RGBA * option error) :=
  match c with
  | conv_Render data => Render engine uint32_overflow heap_grants data
  | conv_RenderWithSize data w h => RenderWithSize engine heap_grants data w h
  | conv_RenderScaledToSize data w h =>
      RenderScaledToSize engine heap_grants data w h
  end.

Definition convenience_data (c : convenience) : list uint8 :=
  match c with
  | conv_Render data | conv_RenderWithSize data _ _
  | conv_RenderScaledToSize data _ _ => data
  end.

(** The tree the entry points obtain for [data], if the engine grants one. *)
Definition parsed_tree (data : list uint8) : option c_tree :=
  match data with
  | [] => None
  | _ =>
      match resvg_parse_tree_from_data engine data (loaded_options engine) with
      | (RESVG_OK, t) => Some t
      | _ => None
      end
  end.

Definition is_create_call (c : ccall c_options c_tree) : bool :=
  match c with
  | call_options_create => true
  | _ => false
  end.

Definition is_destroy_call (c : ccall c_options c_tree) : bool :=
  match c with
  | call_options_destroy _ | call_tree_destroy _ => true
  | _ => false
  end.

(** The canvas a render call draws on: the sizes it is given, and for
    [Render] the natural size of the parsed document with each component
    cut to its integer part. *)
Definition entry_canvas (e : render_entry (c_tree:=c_tree))
  : option (uint32 * uint32) :=
  match e with
  | entry_Render_method _ _ w h | entry_RenderNode _ _ _ w h
  | entry_RenderWithSize _ w h | entry_RenderScaledToSize _ w h => Some (w, h)
  | entry_Render data =>
      match parsed_tree data with
      | Some t =>
          let size := resvg_get_image_size engine t in
          Some (uint32_of_float32 uint32_overflow (Width size),
                uint32_of_float32 uint32_overflow (Height size))
      | None => None
      end
  end.

(** The tail of an entry point after a successful, non-empty parse. *)
Definition tail_of (c : convenience) (t : c_tree)
  : go (c_options:=c_options) (c_tree:=c_tree)
       (option image.RGBA * option error) :=
  match c with
  | conv_Render _ =>
      let size := resvg_get_image_size engine t in
      if f32.leb (Width size) f32.zero || f32.leb (Height size) f32.zero
      then ([call_get_image_size t], Return (None, Some err_invalid_dimensions))
      else
        let r := RenderTree_Render engine heap_grants (mkRenderTree (Some t))
                   resvg_transform_identity
                   (uint32_of_float32 uint32_overflow (Width size))
                   (uint32_of_float32 uint32_overflow (Height size)) in
        (call_get_image_size t :: call_transform_identity :: r.1,
         wrap_image r.2)
  | conv_RenderWithSize _ width height =>
      let r := RenderTree_Render engine heap_grants (mkRenderTree (Some t))
                 resvg_transform_identity width height in
      (call_transform_identity :: r.1, wrap_image r.2)
  | conv_RenderScaledToSize _ width height =>
      let size := resvg_get_image_size engine t in
      let naturalW := float64_of_float32 (Width size) in
      let naturalH := float64_of_float32 (Height size) in
      if f64.leb naturalW f64.zero || f64.leb naturalH f64.zero
      then ([call_get_image_size t],
            Return (None, Some err_invalid_natural_dimensions))
      else
        let r := RenderTree_Render engine heap_grants (mkRenderTree (Some t))
                   (letterbox_transform
                      (letterbox naturalW naturalH width height))
                   width height in
        (call_get_image_size t :: r.1, wrap_image r.2)
  end.

End Convenience.

(** The binary64 value 1. *)
Definition f64_one : float64 := S754_finite false 4503599627370496 (-52).

(** ** Handles after their release *)

Section Release.
Context {c_options c_tree : Type}.

(** [o.destroy()] with the object it leaves: the handle is released once
    and set to nil. *)
Definition Options_destroy_in_place (o : Options)
  : go (c_options:=c_options) (c_tree:=c_tree) Options :=
  match cOpts o with
  | Some h => foreign (call_options_destroy h) (mkOptions None)
  | None => go_ret o
  end.

(** [t.destroy()] with the object it leaves. *)
Definition RenderTree_destroy_in_place (t : RenderTree)
  : go (c_options:=c_options) (c_tree:=c_tree) RenderTree :=
  match cTree t with
  | Some h => foreign (call_tree_destroy h) (mkRenderTree None)
  | None => go_ret t
  end.

End Release.

(** ** [examples/svg2png.go] *)

(** What the program needs from the Go library and the operating system.
    [ParseUint s] is [strconv.ParseUint(s, 10, 32)], [None] for its error;
    [ReadFile], [Create] and [png_Encode] say whether the call succeeds
    (and, for [ReadFile], with which bytes). *)
Record Platform := mkPlatform {
  ParseUint : string → option N;
  filepath_Ext : string → string;
  strings_TrimSuffix : string → string → string;
  os_ReadFile : string → option (list uint8);
  os_Create : string → bool;
  png_Encode : image.RGBA → bool
}.

(** The lines the program prints; the wording of each is in the source. *)
Inductive message :=
| msg_usage (line : nat)
| msg_error_parsing_width
| msg_error_parsing_height
| msg_height_must_be_specified
| msg_error_reading_file
| msg_rendering (inputFile : string)
| msg_output_size (width height : Z) (natural : bool)
| msg_error_rendering (err : error)
| msg_error_creating_file
| msg_error_encoding
| msg_success (outputFile : string).

(** How the process ends: [main] returns (status 0), [os.Exit(code)], a
    panic that nothing recovers, or a fatal error, on which the runtime
    ends the process at once. *)
Inductive status :=
| Returned
| Exited (code : Z)
| Crashed
| Killed.

Section Svg2png.
Context {c_options c_tree : Type}.
Variable engine : Engine c_options c_tree.
Variable uint32_overflow : float32 → uint32.
Variable heap_grants : Z → bool.
Variable platform : Platform.

(** What the process does, in order. *)
Inductive event :=
| ev_stderr (m : message)
| ev_stdout (m : message)
| ev_init_log
| ev_read_file (path : string)
| ev_engine (c : ccall c_options c_tree)
| ev_create (path : string)
| ev_encode (path : string) (img : image.RGBA)
| ev_close (path : string).

(** From "Create output file" to the end of [main]; [img] is the pointer
    the render call returned after its error was found nil.  The deferred
    [outFile.Close()] runs when [main] returns or panics, not when it
    calls [os.Exit]. *)
Definition save (outputFile : string) (img : option image.RGBA)
  : list event * status :=
  if os_Create platform outputFile then
    match img with
    | None => ([ev_create outputFile; ev_close outputFile], Crashed)
    | Some img =>
        if png_Encode platform img
        then ([ev_create outputFile; ev_encode outputFile img;
               ev_stdout (msg_success outputFile); ev_close outputFile],
              Returned)
        else ([ev_create outputFile; ev_encode outputFile img;
               ev_stderr msg_error_encoding],
              Exited 1)
    end
  else ([ev_create outputFile; ev_stderr msg_error_creating_file], Exited 1).

(** From "Initialize resvg logging" on; [size] is [Some (width, height)]
    when [useCustomSize] is set. *)
Definition convert_file (inputFile outputFile : string)
    (size : option (uint32 * uint32)) : list event * status :=
  match os_ReadFile platform inputFile with
  | None =>
      ([ev_init_log; ev_read_file inputFile;
        ev_stderr msg_error_reading_file], Exited 1)
  | Some svgData =>
      let start :=
        [ev_init_log; ev_read_file inputFile;
         ev_stdout (msg_rendering inputFile)] in
      let '(announce, (calls, result)) :=
        match size with
        | Some (width, height) =>
            ([ev_stdout (msg_output_size (Z.of_N width) (Z.of_N height) false)],
             RenderWithSize engine heap_grants svgData width height)
        | None => ([], Render engine uint32_overflow heap_grants svgData)
        end in
      let rendering := start ++ announce ++ map ev_engine calls in
      match result with
      | Panic => (rendering, Crashed)
      | Fatal => (rendering, Killed)
      | Return (img, err) =>
          let report :=
            match size, img with
            | None, Some img =>
                [ev_stdout (msg_output_size (image.Dx (image.Bounds img))
                              (image.Dy (image.Bounds img)) true)]
            | _, _ => []
            end in
          match err with
          | Some err =>
              (rendering ++ report ++ [ev_stderr (msg_error_rendering err)],
               Exited 1)
          | None =>
              let '(saving, st) := save outputFile img in
              (rendering ++ report ++ saving, st)
          end
      end
  end.

(** [main()], on [os.Args]. *)
Definition svg2png_main (args : list string) : list event * status :=
  match args with
  | [] => ([], Crashed)
  | [_] => (map (fun i => ev_stderr (msg_usage i)) (seq 0 5), Exited 1)
  | _ :: inputFile :: rest =>
      let outputFile :=
        match rest with
        | outputFile :: _ => outputFile
        | [] =>
            let ext := filepath_Ext platform inputFile in
            (strings_TrimSuffix platform inputFile ext ++ ".png")%string
        end in
      match rest with
      | _ :: widthArg :: rest' =>
          match ParseUint platform widthArg with
          | None => ([ev_stderr msg_error_parsing_width], Exited 1)
          | Some w =>
              match rest' with
              | heightArg :: _ =>
                  match ParseUint platform heightArg with
                  | None => ([ev_stderr msg_error_parsing_height], Exited 1)
                  | Some h =>
                      convert_file inputFile outputFile
                        (Some (u32_wrap w, u32_wrap h))
                  end
              | [] => ([ev_stderr msg_height_must_be_specified], Exited 1)
              end
          end
      | _ => convert_file inputFile outputFile None
      end
  end.

(** Events that reach outside the process's own output streams. *)
Definition touches_world (e : event) : bool :=
  match e with
  | ev_stderr _ | ev_stdout _ => false
  | _ => true
  end.

(** The size arguments of a run that got past their validation. *)
Definition size_of_args (args : list string) (size : option (uint32 * uint32))
  : Prop :=
  ((length args ≤ 3)%nat ∧ size = None) ∨
  ∃ wa ha w h,
    args !! 3%nat = Some wa ∧ args !! 4%nat = Some ha ∧
    ParseUint platform wa = Some w ∧ ParseUint platform ha = Some h ∧
    size = Some (u32_wrap w, u32_wrap h).

Definition output_of_args (inputFile : string) (args : list string) : string :=
  match args !! 2%nat with
  | Some outputFile => outputFile
  | None =>
      (strings_TrimSuffix platform inputFile
         (filepath_Ext platform inputFile) ++ ".png")%string
  end.

End Svg2png.

(** ** A small engine to run the wrapper on

    A document is its own bytes: byte 0 is zero for a document without
    visible elements, bytes 1 and 2 are the natural width and height,
    byte 3 is the one element id present.  Parsing accepts every input
    of four bytes or more.  The renderer paints each pixel
    [(2, 4, 6, 7)], the node renderer [(9, 9, 9, 255)]. *)
Definition toy_byte (t : list uint8) (i : nat) : Z :=
  Z.of_N (uint32_of_uint8 (default x00 (t !! i))).

Definition toy_paint (r g b a : uint8) (i : nat) : uint8 :=
  match (i mod 4)%nat with
  | 0%nat => r
  | 1%nat => g
  | 2%nat => b
  | _ => a
  end.

Definition toy_engine : Engine unit (list uint8) :=
  mkEngine tt (fun o => o)
    (fun data _ =>
       if (length data <? 4)%nat then (RESVG_ERROR_PARSING_FAILED, [])
       else (RESVG_OK, data))
    (fun t => (toy_byte t 0 =? 0))
    (fun t => mkSize (f32.of_Z (toy_byte t 1)) (f32.of_Z (toy_byte t 2)))
    (fun _ _ _ _ => toy_paint x02 x04 x06 x07)
    (fun t id _ _ _ =>
       (match id with
        | String c EmptyString => Z.of_N (Ascii.N_of_ascii c) =? toy_byte t 3
        | _ => false
        end, toy_paint x09 x09 x09 xff)).

(** The toy platform converts an out-of-range float to zero. *)
Definition toy_overflow (f : float32) : uint32 := 0%N.

(** The toy machine has a gigabyte for a pixel buffer. *)
Definition toy_heap (n : Z) : bool := n <=? 2 ^ 30.

(** Bytes from their values. *)
Definition px (l : list Z) : list uint8 :=
  map (fun z => uint8_of_uint32 (Z.to_N z)) l.

(** The one identifier a toy document carries. *)
Definition toy_has_id (t : list uint8) (id : string) : Prop :=
  ∃ c, id = String c EmptyString ∧ Z.of_N (Ascii.N_of_ascii c) = toy_byte t 3.

(** Toy documents: 50 by 50 with content, 50 by 50 without, one of
    natural width zero, and one 49 by 1. *)
Definition toy_document : list uint8 := px [1; 50; 50; 97].

Definition toy_identity : Transform :=
  mkTransform (f32.of_Z 1) f32.zero f32.zero (f32.of_Z 1) f32.zero f32.zero.

(** What [RenderWithSize] returns for [toy_document] on a 1 by 1 canvas,
    and the calls it makes. *)
Definition toy_pixel : image.RGBA :=
  image.mkRGBA (px [72; 145; 218; 7]) 4 (image.Rect 0 0 1 1).

Definition toy_log : list (ccall unit (list uint8)) :=
  [call_options_create; call_options_load_system_fonts ();
   call_parse_tree_from_data toy_document ();
   call_is_image_empty toy_document; call_transform_identity;
   call_render toy_document toy_identity 1%N 1%N;
   call_tree_destroy toy_document; call_options_destroy ()].

(** Go strings with a NUL byte inside: ["a\x00b"] and ["b\x00a"]. *)
Definition toy_id_a_NUL_b : string :=
  String "a" (String Ascii.zero (String "b" EmptyString)).
Definition toy_id_b_NUL_a : string :=
  String "b" (String Ascii.zero (String "a" EmptyString)).

(** What [RenderNode] returns for the element ["a"] of [toy_document] on a
    1 by 1 canvas. *)
Definition toy_node_pixel : image.RGBA :=
  image.mkRGBA (px [9; 9; 9; 255]) 4 (image.Rect 0 0 1 1).

Definition toy_empty_document : list uint8 := px [0; 50; 50; 97].
Definition toy_flat_document : list uint8 := px [1; 0; 50; 97].
Definition toy_wide_document : list uint8 := px [1; 49; 1; 97].

(** A 2 by 1 buffer: one translucent pixel, one opaque. *)
Definition toy_buffer : image.RGBA :=
  image.mkRGBA (px [2; 4; 6; 7; 9; 9; 9; 255]) 8 (image.Rect 0 0 2 1).

(** ** More toys *)

(** The toy engine with every document half a unit wide and high. *)
Definition toy_half_engine : Engine unit (list uint8) :=
  mkEngine tt (fun o => o)
    (resvg_parse_tree_from_data toy_engine)
    (resvg_is_image_empty toy_engine)
    (fun _ => mkSize (S754_finite false 8388608 (-24))
                (S754_finite false 8388608 (-24)))
    (resvg_render toy_engine)
    (resvg_render_node toy_engine).

(** A 2 by 1 document, a rejected input, the translucent pixel alone,
    and two opaque or clear pixels. *)
Definition toy_small_document : list uint8 := px [1; 2; 1; 97].
Definition toy_rejected_input : list uint8 := px [60].
Definition toy_raw_pixel : image.RGBA :=
  image.mkRGBA (px [2; 4; 6; 7]) 4 (image.Rect 0 0 1 1).
Definition toy_opaque_buffer : image.RGBA :=
  image.mkRGBA (px [10; 20; 30; 255; 5; 6; 7; 0]) 8 (image.Rect 0 0 2 1).

(** A platform that reads one-digit numbers, finds [toy_small_document]
    in every file, and whose file system and encoder never fail. *)
Definition toy_digit (s : string) : option N :=
  match s with
  | String c EmptyString =>
      let n := Ascii.N_of_ascii c in
      if (48 <=? n)%N && (n <=? 57)%N then Some (n - 48)%N else None
  | _ => None
  end.

Definition toy_platform : Platform :=
  mkPlatform toy_digit (fun _ => ".svg"%string) (fun s _ => s)
    (fun _ => Some toy_small_document) (fun _ => true) (fun _ => true).

(** A machine with no memory left for a pixel buffer. *)
Definition toy_full_heap (n : Z) : bool := false.

Definition toy_args : list string :=
  ["svg2png"; "in.svg"; "out.png"; "2"; "1"]%string.

(** * Properties *)

(** ** Bytes and slices *)

Lemma uint8_of_uint32_of_uint8 (b : uint8) :
  uint8_of_uint32 (uint32_of_uint8 b) = b.
Proof.
  unfold uint8_of_uint32, uint32_of_uint8.
  pose proof (Byte.to_N_bounded b) as Hb.
  rewrite N.mod_small by lia.
  by rewrite Byte.of_to_N.
Qed.

Lemma uint32_of_uint8_of_uint32 (n : uint32) :
  (n ≤ 255)%N → uint32_of_uint8 (uint8_of_uint32 n) = n.
Proof.
  intros Hn. unfold uint8_of_uint32, uint32_of_uint8.
  rewrite N.mod_small by lia.
  destruct (Byte.of_N n) as [b|] eqn:Hb.
  - by apply Byte.to_of_N.
  - apply Byte.of_N_None_iff in Hb. lia.
Qed.

Lemma index_lookup {T} (s : list T) (i : nat) :
  index s (Z.of_nat i) = s !! i.
Proof.
  unfold index. destruct (Z.ltb_spec (Z.of_nat i) 0); [lia|].
  by rewrite Nat2Z.id.
Qed.

Lemma assign_insert {T} (s : list T) (i : nat) (v : T) :
  (i < length s)%nat → assign s (Z.of_nat i) v = Some (<[i := v]> s).
Proof.
  intros Hi. unfold assign.
  destruct (Z.leb_spec 0 (Z.of_nat i)); [|lia].
  destruct (Z.ltb_spec (Z.of_nat i) (Z.of_nat (length s))); [|lia].
  by rewrite Nat2Z.id.
Qed.

Lemma straight_at_agree (pix pix' : list uint8) (j : nat) :
  pix' !! j = pix !! j →
  pix' !! (4 * (j / 4) + 3)%nat = pix !! (4 * (j / 4) + 3)%nat →
  straight_at pix' j = straight_at pix j.
Proof. intros H1 H2. unfold straight_at. by rewrite H1, H2. Qed.

(** Pixel [q] of a buffer occupies the offsets [4q .. 4q+3]. *)
Lemma pixel_offsets (j q : nat) :
  (j / 4 = q)%nat ↔ (4 * q ≤ j < 4 * q + 4)%nat.
Proof.
  pose proof (Nat.div_mod_eq j 4). pose proof (Nat.mod_upper_bound j 4).
  lia.
Qed.

Lemma straight_at_Some (pix : list uint8) (j : nat) (c a : uint8) :
  pix !! j = Some c → pix !! (4 * (j / 4) + 3)%nat = Some a →
  straight_at pix j = Some (straight_byte (j mod 4) c a).
Proof. intros H1 H2. unfold straight_at. by rewrite H1, H2. Qed.

Lemma straight_byte_alpha (c a : uint8) : straight_byte 3 c a = c.
Proof. done. Qed.

Lemma straight_byte_keep (k : nat) (c a : uint8) :
  uint32_of_uint8 a = 0%N ∨ uint32_of_uint8 a = 255%N →
  straight_byte k c a = c.
Proof.
  intros [H | H]; unfold straight_byte; rewrite H; simpl;
    by rewrite ?orb_true_r.
Qed.

Lemma straight_byte_convert (k : nat) (c a : uint8) :
  (k < 3)%nat → uint32_of_uint8 a ≠ 0%N → uint32_of_uint8 a ≠ 255%N →
  straight_byte k c a =
  uint8_of_uint32 (unpremultiply (uint32_of_uint8 c) (uint32_of_uint8 a)).
Proof.
  intros Hk H0 H255. unfold straight_byte.
  apply N.eqb_neq in H0, H255. rewrite H0, H255.
  destruct (Nat.eqb_spec k 3); [lia|done].
Qed.

Lemma offset_mod (q k : nat) : (k < 4)%nat → ((4 * q + k) mod 4 = k)%nat.
Proof.
  intros Hk. rewrite Nat.add_comm, Nat.mul_comm, Nat.Div0.mod_add.
  by apply Nat.mod_small.
Qed.

Lemma offset_div (q k : nat) : (k < 4)%nat → ((4 * q + k) / 4 = q)%nat.
Proof.
  intros Hk. rewrite Nat.add_comm, Nat.mul_comm, Nat.div_add by lia.
  rewrite Nat.div_small; lia.
Qed.

Lemma convert_pixel_spec (img : image.RGBA) (w h x y : Z) (pix : list uint8) :
  image.Stride img = 4 * w →
  image.Bounds img = image.Rect 0 0 w h →
  0 ≤ w → 0 ≤ h →
  length pix = Z.to_nat (4 * w * h) →
  0 ≤ x < w → 0 ≤ y < h →
  ∃ pix', convert_pixel img x y pix = Some pix' ∧
    length pix' = length pix ∧
    ∀ j : nat, pix' !! j =
      if decide ((j / 4)%nat = Z.to_nat (y * w + x)) then straight_at pix j
      else pix !! j.
Proof.
  intros HS HB Hw Hh Hlen Hx Hy.
  set (q := Z.to_nat (y * w + x)).
  assert (Hq : (4 * q + 3 < length pix)%nat).
  { rewrite Hlen. subst q. nia. }
  assert (Hoff : image.PixOffset img x y = Z.of_nat (4 * q)).
  { unfold image.PixOffset. rewrite HS, HB. unfold image.Rect.
    destruct (Z.ltb_spec w 0); [lia|]. destruct (Z.ltb_spec h 0); [lia|].
    simpl. subst q. nia. }
  unfold convert_pixel. rewrite Hoff.
  replace (Z.of_nat (4 * q) + 0) with (Z.of_nat (4 * q + 0)) by lia.
  replace (Z.of_nat (4 * q) + 1) with (Z.of_nat (4 * q + 1)) by lia.
  replace (Z.of_nat (4 * q) + 2) with (Z.of_nat (4 * q + 2)) by lia.
  replace (Z.of_nat (4 * q) + 3) with (Z.of_nat (4 * q + 3)) by lia.
  rewrite !index_lookup.
  destruct (lookup_lt_is_Some_2 pix (4 * q + 0)) as [r Hr]; [lia|].
  destruct (lookup_lt_is_Some_2 pix (4 * q + 1)) as [g Hg]; [lia|].
  destruct (lookup_lt_is_Some_2 pix (4 * q + 2)) as [b Hb]; [lia|].
  destruct (lookup_lt_is_Some_2 pix (4 * q + 3)) as [a Ha]; [lia|].
  rewrite Hr, Hg, Hb, Ha. cbn [fmap option_fmap option_map mbind option_bind].
  assert (Hin : ∀ (k : nat) (c : uint8), (k < 4)%nat →
            pix !! (4 * q + k)%nat = Some c →
            straight_at pix (4 * q + k) =
            Some (straight_byte k c a)).
  { intros k c Hk Hc.
    rewrite (straight_at_Some pix _ c a), offset_mod; try done.
    by rewrite offset_div. }
  destruct (negb (uint32_of_uint8 a =? 0)%N && negb (uint32_of_uint8 a =? 255)%N)
    eqn:Hconv.
  - apply andb_prop in Hconv as [H0 H255].
    apply negb_true_iff in H0, H255. apply N.eqb_neq in H0, H255.
    rewrite assign_insert by lia. cbn [mbind option_bind].
    rewrite assign_insert by (rewrite length_insert; lia).
    cbn [mbind option_bind].
    rewrite assign_insert by (rewrite !length_insert; lia).
    eexists; split; [done|]. split; [by rewrite !length_insert|].
    intros j. case_decide as Hj.
    + apply pixel_offsets in Hj.
      assert (Hcases : ∃ k, (k < 4)%nat ∧ j = (4 * q + k)%nat)
        by (exists (j - 4 * q)%nat; lia).
      destruct Hcases as (k & Hk & ->).
      destruct k as [|[|[|k]]].
      * rewrite list_lookup_insert_ne by lia.
        rewrite list_lookup_insert_ne by lia.
        rewrite list_lookup_insert_eq by lia.
        rewrite (Hin 0%nat r) by done.
        by rewrite straight_byte_convert by (done || lia).
      * rewrite list_lookup_insert_ne by lia.
        rewrite list_lookup_insert_eq by (rewrite length_insert; lia).
        rewrite (Hin 1%nat g) by (done || lia).
        by rewrite straight_byte_convert by (done || lia).
      * rewrite list_lookup_insert_eq by (rewrite !length_insert; lia).
        rewrite (Hin 2%nat b) by (done || lia).
        by rewrite straight_byte_convert by (done || lia).
      * assert (k = 0%nat) as -> by lia.
        rewrite !list_lookup_insert_ne by lia.
        by rewrite (Hin 3%nat a), Ha by (done || lia).
    + assert (¬ (4 * q ≤ j < 4 * q + 4)%nat) by (by rewrite <- pixel_offsets).
      rewrite !list_lookup_insert_ne by lia. done.
  - eexists; split; [done|]. split; [done|].
    intros j. case_decide as Hj; [|done].
    apply pixel_offsets in Hj.
    assert (Hcases : ∃ k, (k < 4)%nat ∧ j = (4 * q + k)%nat)
      by (exists (j - 4 * q)%nat; lia).
    destruct Hcases as (k & Hk & ->).
    destruct (lookup_lt_is_Some_2 pix (4 * q + k)) as [c Hc]; [lia|].
    rewrite (Hin k c), Hc by done. f_equal. symmetry.
    apply straight_byte_keep.
    apply andb_false_iff in Hconv as [Hc0 | Hc0];
      apply negb_false_iff, N.eqb_eq in Hc0; auto.
Qed.

Section Pass.
Variables (img : image.RGBA) (w h : Z).
Hypothesis HS : image.Stride img = 4 * w.
Hypothesis HB : image.Bounds img = image.Rect 0 0 w h.
Hypothesis Hw : 0 ≤ w.
Hypothesis Hh : 0 ≤ h.

Lemma bounds_corners :
  image.Min (image.Bounds img) = image.mkPoint 0 0 ∧
  image.Max (image.Bounds img) = image.mkPoint w h.
Proof.
  rewrite HB. unfold image.Rect.
  destruct (Z.ltb_spec w 0); [lia|]. by destruct (Z.ltb_spec h 0); [lia|].
Qed.

Lemma convert_columns_spec (y : Z) (n : nat) : ∀ (x0 : Z) (pix : list uint8),
  length pix = Z.to_nat (4 * w * h) →
  0 ≤ y < h → 0 ≤ x0 → x0 + Z.of_nat n ≤ w →
  ∃ pix',
    for_each (seqZ x0 (Z.of_nat n)) (fun x => convert_pixel img x y) pix
      = Some pix' ∧
    length pix' = length pix ∧
    ∀ j : nat, pix' !! j =
      if decide (Z.to_nat (y * w + x0) ≤ j / 4
                 < Z.to_nat (y * w + x0) + n)%nat
      then straight_at pix j else pix !! j.
Proof.
  induction n as [|n IH]; intros x0 pix Hlen Hy Hx0 Hn.
  - exists pix. simpl. split; [done|]. split; [done|].
    intros j. case_decide; [lia|done].
  - rewrite seqZ_cons by lia. cbn [for_each].
    destruct (convert_pixel_spec img w h x0 y pix) as (pix1 & -> & Hl1 & H1);
      try done; [lia|].
    replace (Z.pred (Z.of_nat (S n))) with (Z.of_nat n) by lia.
    destruct (IH (Z.succ x0) pix1) as (pix2 & -> & Hl2 & H2);
      try done; [congruence|lia|lia|].
    exists pix2. split; [done|]. split; [congruence|].
    intros j. rewrite H2.
    replace (Z.to_nat (y * w + Z.succ x0))
      with (S (Z.to_nat (y * w + x0))) by nia.
    set (q := Z.to_nat (y * w + x0)) in *.
    repeat case_decide; try lia.
    + apply straight_at_agree.
      * rewrite H1. case_decide; [lia|done].
      * rewrite H1. rewrite offset_div by lia. case_decide; [lia|done].
    + by rewrite H1, decide_True by lia.
    + by rewrite H1, decide_False by lia.
Qed.

Lemma convert_row_spec (y : Z) (pix : list uint8) :
  length pix = Z.to_nat (4 * w * h) →
  0 ≤ y < h →
  ∃ pix',
    convert_row img y pix = Some pix' ∧
    length pix' = length pix ∧
    ∀ j : nat, pix' !! j =
      if decide (Z.to_nat (y * w) ≤ j / 4 < Z.to_nat (y * w) + Z.to_nat w)%nat
      then straight_at pix j else pix !! j.
Proof.
  intros Hlen Hy. unfold convert_row, for_range.
  destruct bounds_corners as [-> ->]. simpl.
  destruct (convert_columns_spec y (Z.to_nat w) 0 pix) as (pix' & Hrun & Hl & Hp);
    try done; [lia|].
  rewrite Z2Nat.id in Hrun by lia. rewrite Z.sub_0_r.
  exists pix'. split; [done|]. split; [done|].
  intros j. rewrite Hp. by rewrite Z.add_0_r.
Qed.

Lemma convert_rows_spec (n : nat) : ∀ (y0 : Z) (pix : list uint8),
  length pix = Z.to_nat (4 * w * h) →
  0 ≤ y0 → y0 + Z.of_nat n ≤ h →
  ∃ pix',
    for_each (seqZ y0 (Z.of_nat n)) (convert_row img) pix = Some pix' ∧
    length pix' = length pix ∧
    ∀ j : nat, pix' !! j =
      if decide (Z.to_nat (y0 * w) ≤ j / 4
                 < Z.to_nat ((y0 + Z.of_nat n) * w))%nat
      then straight_at pix j else pix !! j.
Proof.
  induction n as [|n IH]; intros y0 pix Hlen Hy0 Hn.
  - exists pix. simpl. split; [done|]. split; [done|].
    intros j. rewrite Z.add_0_r. case_decide; [lia|done].
  - rewrite seqZ_cons by lia. cbn [for_each].
    destruct (convert_row_spec y0 pix) as (pix1 & -> & Hl1 & H1);
      try done; [lia|].
    replace (Z.pred (Z.of_nat (S n))) with (Z.of_nat n) by lia.
    destruct (IH (Z.succ y0) pix1) as (pix2 & -> & Hl2 & H2);
      try done; [congruence|lia|lia|].
    exists pix2. split; [done|]. split; [congruence|].
    intros j. rewrite H2.
    replace (Z.to_nat (Z.succ y0 * w))
      with (Z.to_nat (y0 * w) + Z.to_nat w)%nat by nia.
    replace (Z.to_nat ((Z.succ y0 + Z.of_nat n) * w))
      with (Z.to_nat ((y0 + Z.of_nat (S n)) * w)) by (f_equal; lia).
    assert (Hle : (Z.to_nat (y0 * w) + Z.to_nat w
                   ≤ Z.to_nat ((y0 + Z.of_nat (S n)) * w))%nat) by nia.
    set (q := Z.to_nat (y0 * w)) in *.
    set (q' := Z.to_nat ((y0 + Z.of_nat (S n)) * w)) in *.
    repeat case_decide; try lia.
    + apply straight_at_agree.
      * rewrite H1. case_decide; [lia|done].
      * rewrite H1. rewrite offset_div by lia. case_decide; [lia|done].
    + by rewrite H1, decide_True by lia.
    + by rewrite H1, decide_False by lia.
Qed.

Lemma convert_canvas (pix : list uint8) :
  image.Pix img = pix →
  length pix = Z.to_nat (4 * w * h) →
  ∃ out,
    convertFromPremultiplied img = Some out ∧
    image.Stride out = image.Stride img ∧
    image.Bounds out = image.Bounds img ∧
    length (image.Pix out) = length pix ∧
    ∀ j : nat, image.Pix out !! j = straight_at pix j.
Proof.
  intros Hpix Hlen. unfold convertFromPremultiplied, for_range.
  destruct bounds_corners as [-> ->]. simpl. rewrite Hpix.
  destruct (convert_rows_spec (Z.to_nat h) 0 pix) as (pix' & Hrun & Hl & Hp);
    try done; [lia|].
  rewrite Z2Nat.id in Hrun by lia. rewrite Z.sub_0_r, Hrun. simpl.
  eexists; split; [done|]. repeat split; try done.
  intros j. simpl. rewrite Hp. case_decide as Hj; [done|].
  assert (length pix ≤ j)%nat.
  { pose proof (Nat.div_mod_eq j 4). pose proof (Nat.mod_upper_bound j 4).
    rewrite Hlen. nia. }
  unfold straight_at. by rewrite (lookup_ge_None_2 pix j).
Qed.

End Pass.

(** ** Arithmetic of one channel *)

Lemma unpremultiply_floor (c a : uint32) :
  (c ≤ 255)%N → unpremultiply c a = N.min 255 (c * 255 / a)%N.
Proof.
  intros Hc. unfold unpremultiply, u32_div, u32_mul, u32_wrap, clamp255.
  rewrite N.mod_small by (change (2 ^ 32)%N with 4294967296%N; lia).
  destruct (N.ltb_spec 255 (c * 255 / a)); lia.
Qed.

Lemma unpremultiply_le_255 (c a : uint32) : (unpremultiply c a ≤ 255)%N.
Proof.
  unfold unpremultiply, clamp255.
  destruct (N.ltb_spec 255 (u32_div (u32_mul c 255%N) a)); lia.
Qed.

Lemma unpremultiply_below_alpha (c a : uint32) :
  (0 < a < 255)%N → (c ≤ a)%N →
  unpremultiply c a = (c * 255 / a)%N ∧ (c * 255 / a ≤ 255)%N.
Proof.
  intros Ha Hc.
  assert (Hq : (c * 255 / a ≤ 255)%N).
  { apply N.Div0.div_le_upper_bound. nia. }
  rewrite unpremultiply_floor by lia. split; [lia|done].
Qed.

Lemma round_trip_arith (c a : N) :
  (0 < a < 255)%N → (c ≤ a)%N →
  (c ≤ spec_premultiply (c * 255 / a) a + 1 ∧
   spec_premultiply (c * 255 / a) a ≤ c)%N.
Proof.
  intros Ha Hc. unfold spec_premultiply, round_div.
  set (r := (c * 255 / a)%N).
  assert (Hr1 : (r * a ≤ c * 255)%N).
  { subst r. rewrite N.mul_comm. apply N.Div0.mul_div_le. }
  assert (Hr2 : (c * 255 < r * a + a)%N).
  { subst r. pose proof (N.mul_succ_div_gt (c * 255) a). lia. }
  set (n := (2 * (r * a) + 255)%N).
  assert (Hq1 : (2 * 255 * (n / (2 * 255)) ≤ n)%N)
    by apply N.Div0.mul_div_le.
  assert (Hq2 : (n < 2 * 255 * (n / (2 * 255)) + 2 * 255)%N).
  { pose proof (N.mul_succ_div_gt n (2 * 255)). lia. }
  subst n. lia.
Qed.

(** ** The render methods *)

Lemma new_canvas_eq (width height : uint32) :
  new_canvas width height =
  if image.maxAlloc <? 4 * Z.of_N width * Z.of_N height then None
  else Some (image.mkRGBA
               (replicate (Z.to_nat (4 * Z.of_N width * Z.of_N height)) x00)
               (4 * Z.of_N width)
               (image.Rect 0 0 (Z.of_N width) (Z.of_N height))).
Proof.
  unfold new_canvas, image.NewRGBA, image.Rect, image.Dx, image.Dy.
  destruct (Z.ltb_spec (Z.of_N width) 0); [lia|].
  destruct (Z.ltb_spec (Z.of_N height) 0); [lia|].
  cbn [image.Min image.Max image.X image.Y]. rewrite !Z.sub_0_r.
  destruct (Z.ltb_spec (Z.of_N width) 0); [lia|].
  destruct (Z.ltb_spec (Z.of_N height) 0); [lia|].
  cbn [orb].
  destruct (Z.ltb_spec image.maxAlloc (4 * Z.of_N width * Z.of_N height));
    [by rewrite orb_true_r|].
  destruct (Z.ltb_spec image.maxInt (4 * Z.of_N width * Z.of_N height));
    [|done].
  unfold image.maxInt, image.maxAlloc in *. lia.
Qed.

Lemma new_canvas_shaped (width height : uint32) (img : image.RGBA) :
  new_canvas width height = Some img →
  canvas_shaped (Z.of_N width) (Z.of_N height) img ∧
  4 * Z.of_N width * Z.of_N height ≤ image.maxAlloc.
Proof.
  rewrite new_canvas_eq.
  destruct (Z.ltb_spec image.maxAlloc (4 * Z.of_N width * Z.of_N height));
    [done|].
  intros [= <-]. split; [|done].
  unfold canvas_shaped. cbn [image.Stride image.Bounds image.Pix].
  rewrite length_replicate. repeat split; lia.
Qed.

Lemma new_canvas_ok (heap_grants : Z → bool) (width height : uint32) :
  canvas_ok heap_grants width height = true →
  ∃ img, new_canvas width height = Some img ∧
    canvas_shaped (Z.of_N width) (Z.of_N height) img ∧
    index (image.Pix img) 0 = Some x00 ∧
    heap_grants (Z.of_nat (length (image.Pix img))) = true.
Proof.
  unfold canvas_ok. intros H.
  apply andb_prop in H as [H Hheap]. apply andb_prop in H as [H Hmax].
  apply andb_prop in H as [Hw Hh].
  apply Z.ltb_lt in Hw, Hh. apply Z.leb_le in Hmax.
  rewrite new_canvas_eq.
  destruct (Z.ltb_spec image.maxAlloc (4 * Z.of_N width * Z.of_N height));
    [lia|].
  eexists. split; [done|]. split; [|split].
  - unfold canvas_shaped. cbn [image.Stride image.Bounds image.Pix].
    rewrite length_replicate. repeat split; lia.
  - cbn [image.Pix]. change 0 with (Z.of_nat 0). rewrite index_lookup.
    apply lookup_replicate_2. nia.
  - cbn [image.Pix]. rewrite length_replicate, Z2Nat.id by nia. done.
Qed.

(** A canvas with a side of length zero is allocated, empty, and has no
    first byte to take the address of. *)
Lemma canvas_empty (width height : uint32) :
  width = 0%N ∨ height = 0%N →
  ∃ canvas, new_canvas width height = Some canvas ∧
    length (image.Pix canvas) = 0%nat ∧
    index (image.Pix canvas) 0 = None.
Proof.
  intros Hz. rewrite new_canvas_eq.
  assert (Hlen : 4 * Z.of_N width * Z.of_N height = 0) by (destruct Hz; subst; lia).
  rewrite Hlen. cbn. eexists. split; [done|]. by split.
Qed.

Lemma store_shaped (w h : Z) (bytes : nat → uint8) (img : image.RGBA) :
  canvas_shaped w h img → canvas_shaped w h (store bytes img).
Proof.
  intros (Hw & Hh & HS & HB & Hl). unfold canvas_shaped, store.
  cbn [image.Stride image.Bounds image.Pix].
  by rewrite length_map, length_seq.
Qed.

(** The pass succeeds on every image of the allocated shape, and
    [straight_at] describes its result. *)
Lemma convert_shaped (w h : Z) (img : image.RGBA) :
  canvas_shaped w h img →
  ∃ out, convertFromPremultiplied img = Some out ∧
    canvas_shaped w h out ∧
    ∀ j : nat, image.Pix out !! j = straight_at (image.Pix img) j.
Proof.
  intros (Hw & Hh & HS & HB & Hl).
  destruct (convert_canvas img w h HS HB Hw Hh (image.Pix img))
    as (out & Hrun & HS' & HB' & Hl' & Hp); try done.
  exists out. split; [done|]. split; [|done].
  unfold canvas_shaped. rewrite HS', HB', Hl'. done.
Qed.

(** What [straight_at] says about one pixel. *)
Lemma straight_pixel (pix : list uint8) (p k : nat) (c a : uint8) :
  (k < 4)%nat →
  pix !! (4 * p + k)%nat = Some c → pix !! (4 * p + 3)%nat = Some a →
  straight_at pix (4 * p + k) = Some (straight_byte k c a).
Proof.
  intros Hk Hc Ha.
  rewrite (straight_at_Some pix _ c a), offset_mod; try done.
  by rewrite offset_div.
Qed.

Section Properties.
Context {c_options c_tree : Type}.
Variable engine : Engine c_options c_tree.
Variable uint32_overflow : float32 → uint32.
Variable heap_grants : Z → bool.

(** Laws of the log-and-outcome monad. *)
Lemma bind_checked_Some {T U} (v : T)
    (k : T → go (c_options:=c_options) (c_tree:=c_tree) U) :
  checked (Some v) ≫= k = k v.
Proof. cbn. by destruct (k v). Qed.

Lemma bind_checked_None {T U}
    (k : T → go (c_options:=c_options) (c_tree:=c_tree) U) :
  checked None ≫= k = ([], Panic).
Proof. done. Qed.

Lemma bind_ret {T U} (v : T)
    (k : T → go (c_options:=c_options) (c_tree:=c_tree) U) :
  go_ret v ≫= k = k v.
Proof. cbn. by destruct (k v). Qed.

Lemma bind_handle_Some {H U} (v : H)
    (k : H → go (c_options:=c_options) (c_tree:=c_tree) U) :
  handle (Some v) ≫= k = k v.
Proof. apply bind_ret. Qed.

Lemma bind_foreign {T U} (c : ccall c_options c_tree) (v : T)
    (k : T → go U) :
  foreign c v ≫= k = (c :: (k v).1, (k v).2).
Proof. cbn. by destruct (k v). Qed.

Lemma defer_foreign {T} (c : ccall c_options c_tree) (body : go T) :
  defer (foreign c ()) body
  = (body.1 ++ (if unwinds body.2 then [c] else []), body.2).
Proof. destruct body as [l [v| |]]; cbn; by rewrite ?app_nil_r. Qed.

Lemma store_lookup (bytes : nat → uint8) (img : image.RGBA) (j : nat) :
  (j < length (image.Pix img))%nat →
  image.Pix (store bytes img) !! j = Some (bytes j).
Proof.
  intros Hj. unfold store. cbn [image.Pix].
  rewrite list_lookup_fmap, lookup_seq_lt by done. done.
Qed.

(** The two methods, written out by cases. *)
Lemma Render_method_eq (t : RenderTree) (tr : Transform)
    (width height : uint32) :
  RenderTree_Render engine heap_grants t tr width height =
  match new_canvas width height with
  | None => ([], Panic)
  | Some canvas =>
      if negb (granted heap_grants canvas) then ([], Fatal)
      else
        match index (image.Pix canvas) 0 with
        | None => ([], Panic)
        | Some _ =>
            match cTree t with
            | None => ([], Fatal)
            | Some hd =>
                ([call_render hd tr width height],
                 match convertFromPremultiplied
                         (store (resvg_render engine hd tr width height) canvas)
                 with
                 | Some out => Return out
                 | None => Panic
                 end)
            end
        end
  end.
Proof.
  unfold RenderTree_Render, allocate.
  destruct (new_canvas width height) as [canvas|]; [|done].
  destruct (granted heap_grants canvas); [|done]. cbn [negb].
  rewrite bind_ret.
  destruct (index (image.Pix canvas) 0); [|done].
  rewrite bind_checked_Some.
  destruct (cTree t) as [hd|]; [|done].
  rewrite bind_handle_Some, bind_foreign.
  by destruct (convertFromPremultiplied _).
Qed.

Lemma RenderNode_eq (t : RenderTree) (id : string) (tr : Transform)
    (width height : uint32) :
  RenderTree_RenderNode engine heap_grants t id tr width height =
  match new_canvas width height with
  | None => ([], Panic)
  | Some canvas =>
      if negb (granted heap_grants canvas) then ([], Fatal)
      else
        match index (image.Pix canvas) 0 with
        | None => ([], Panic)
        | Some _ =>
            match cTree t with
            | None => ([], Fatal)
            | Some hd =>
                let r := resvg_render_node engine hd (C_CString id) tr
                           width height in
                ([call_render_node hd (C_CString id) tr width height],
                 if fst r then
                   match convertFromPremultiplied (store (snd r) canvas) with
                   | Some out => Return (Some out, None)
                   | None => Panic
                   end
                 else Return (None, Some (Errorf_failed_to_render_node id)))
            end
        end
  end.
Proof.
  unfold RenderTree_RenderNode, allocate. cbv zeta.
  destruct (new_canvas width height) as [canvas|]; [|done].
  destruct (granted heap_grants canvas); [|done]. cbn [negb].
  rewrite bind_ret.
  destruct (index (image.Pix canvas) 0); [|done].
  rewrite bind_checked_Some.
  destruct (cTree t) as [hd|]; [|done].
  rewrite bind_handle_Some, bind_foreign.
  destruct (resvg_render_node engine hd (C_CString id) tr width height)
    as [[|] bytes]; cbn [fst snd negb]; [|done].
  by destruct (convertFromPremultiplied _).
Qed.

Lemma Render_method_inv (t : RenderTree) (tr : Transform)
    (width height : uint32) (log : list (ccall c_options c_tree))
    (img : image.RGBA) :
  RenderTree_Render engine heap_grants t tr width height = (log, Return img) →
  ∃ hd raw,
    cTree t = Some hd ∧
    log = [call_render hd tr width height] ∧
    raw_buffer engine (call_render hd tr width height) = Some raw ∧
    canvas_shaped (Z.of_N width) (Z.of_N height) raw ∧
    convertFromPremultiplied raw = Some img.
Proof.
  rewrite Render_method_eq. unfold raw_buffer.
  destruct (new_canvas width height) as [canvas|] eqn:Hc; [|done].
  destruct (granted heap_grants canvas); [|done]. cbn [negb].
  destruct (index (image.Pix canvas) 0); [|done].
  destruct (cTree t) as [hd|]; [|done].
  destruct (convertFromPremultiplied _) as [out|] eqn:Hout; [|done].
  intros [= <- <-].
  eexists hd, _. do 3 (split; [done|]). split; [|done].
  by apply store_shaped, new_canvas_shaped.
Qed.

(** On a canvas the wrapper gets, the method makes its one engine call and
    returns the engine's buffer with the pass applied, in the allocated
    shape. *)
Lemma Render_method_ok (hd : c_tree) (tr : Transform) (width height : uint32) :
  canvas_ok heap_grants width height = true →
  ∃ raw img,
    raw_buffer engine (call_render hd tr width height) = Some raw ∧
    canvas_shaped (Z.of_N width) (Z.of_N height) raw ∧
    (∀ j : nat, (j < length (image.Pix raw))%nat →
       image.Pix raw !! j = Some (resvg_render engine hd tr width height j)) ∧
    convertFromPremultiplied raw = Some img ∧
    canvas_shaped (Z.of_N width) (Z.of_N height) img ∧
    (∀ j : nat, image.Pix img !! j = straight_at (image.Pix raw) j) ∧
    RenderTree_Render engine heap_grants (mkRenderTree (Some hd)) tr width height
    = ([call_render hd tr width height], Return img).
Proof.
  intros Hok.
  destruct (new_canvas_ok _ _ _ Hok) as (canvas & Hc & Hs & Hi & Hg).
  set (raw := store (resvg_render engine hd tr width height) canvas).
  assert (Hraw : canvas_shaped (Z.of_N width) (Z.of_N height) raw)
    by (by apply store_shaped).
  destruct (convert_shaped _ _ raw Hraw) as (out & Hout & Hso & Hpx).
  exists raw, out. split; [by unfold raw_buffer; rewrite Hc|].
  split; [done|]. split.
  { intros j Hj. apply store_lookup.
    unfold raw, store in Hj. cbn [image.Pix] in Hj.
    by rewrite length_map, length_seq in Hj. }
  do 3 (split; [done|]).
  rewrite Render_method_eq, Hc. unfold granted. rewrite Hg, orb_true_r.
  cbn [negb]. rewrite Hi. cbn [cTree]. fold raw. by rewrite Hout.
Qed.

Lemma RenderNode_inv (t : RenderTree) (id : string) (tr : Transform)
    (width height : uint32) (log : list (ccall c_options c_tree))
    (img : image.RGBA) (err : option error) :
  RenderTree_RenderNode engine heap_grants t id tr width height
    = (log, Return (Some img, err)) →
  ∃ hd raw,
    cTree t = Some hd ∧
    log = [call_render_node hd (C_CString id) tr width height] ∧
    (resvg_render_node engine hd (C_CString id) tr width height).1 = true ∧
    raw_buffer engine (call_render_node hd (C_CString id) tr width height)
      = Some raw ∧
    canvas_shaped (Z.of_N width) (Z.of_N height) raw ∧
    convertFromPremultiplied raw = Some img.
Proof.
  rewrite RenderNode_eq. unfold raw_buffer.
  destruct (new_canvas width height) as [canvas|] eqn:Hc; [|done].
  destruct (granted heap_grants canvas); [|done]. cbn [negb].
  destruct (index (image.Pix canvas) 0); [|intros [=]].
  destruct (cTree t) as [hd|]; [|intros [=]].
  cbv zeta.
  destruct (resvg_render_node engine hd (C_CString id) tr width height)
    as [[|] bytes] eqn:Hn; cbn [fst snd]; [|intros [=]].
  destruct (convertFromPremultiplied _) as [out|] eqn:Hout; [|done].
  intros [= <- <- <-].
  eexists hd, _. rewrite Hn. do 4 (split; [done|]). split; [|done].
  by apply store_shaped, new_canvas_shaped.
Qed.

Lemma ParseFromData_eq (data : list uint8) (o : c_options) :
  ParseFromData engine data (Some (mkOptions (Some o))) =
  if (length data =? 0)%nat then ([], Return (None, Some err_empty_data))
  else
    let r := resvg_parse_tree_from_data engine data o in
    ([call_parse_tree_from_data data o],
     Return match cErrorToGoError r.1 with
            | Some err => (None, Some err)
            | None => (Some (mkRenderTree (Some r.2)), None)
            end).
Proof.
  unfold ParseFromData.
  destruct (length data =? 0)%nat; [done|].
  rewrite bind_checked_Some. cbn [cOpts].
  rewrite bind_handle_Some, bind_foreign.
  destruct (resvg_parse_tree_from_data engine data o) as [res t].
  cbn [fst snd]. by destruct (cErrorToGoError res).
Qed.

Lemma with_tree_parsed {R} (data : list uint8) (t : c_tree)
    (body : RenderTree → go (option R * option error)) :
  parses engine data t →
  with_tree engine data body =
  if resvg_is_image_empty engine t
  then (opening engine data ++ [call_is_image_empty t] ++ closing engine t,
        Return (None, Some err_no_renderable))
  else
    let b := body (mkRenderTree (Some t)) in
    (opening engine data ++ [call_is_image_empty t] ++ b.1
       ++ (if unwinds b.2 then closing engine t else []),
     b.2).
Proof.
  intros [Hne Hparse]. unfold with_tree.
  destruct data as [|d data]; [done|].
  cbn. fold (loaded_options engine). rewrite Hparse. cbn.
  destruct (resvg_is_image_empty engine t); cbn; [done|].
  destruct (body {| cTree := Some t |}) as [l [v| |]]; cbn;
    unfold closing; by rewrite <- ?app_assoc, ?app_nil_r.
Qed.

Lemma with_tree_inv {R} (data : list uint8)
    (body : RenderTree → go (option R * option error))
    (log : list (ccall c_options c_tree)) (v : R) (err : option error) :
  with_tree engine data body = (log, Return (Some v, err)) →
  ∃ t l,
    parses engine data t ∧
    resvg_is_image_empty engine t = false ∧
    body (mkRenderTree (Some t)) = (l, Return (Some v, err)) ∧
    log = opening engine data ++ [call_is_image_empty t] ++ l ++ closing engine t.
Proof.
  destruct data as [|d data]; [intros [=]|].
  destruct (resvg_parse_tree_from_data engine (d :: data) (loaded_options engine))
    as [res t] eqn:Hparse.
  destruct (cErrorToGoError res) as [e|] eqn:Hres.
  - unfold with_tree. cbn. fold (loaded_options engine). rewrite Hparse. cbn.
    rewrite Hres. cbn. intros [=].
  - assert (res = RESVG_OK) as -> by (by destruct res).
    rewrite (with_tree_parsed (d :: data) t) by done.
    destruct (resvg_is_image_empty engine t) eqn:He; [intros [=]|].
    cbv zeta. destruct (body (mkRenderTree (Some t))) as [l r] eqn:Hb.
    cbn [fst snd]. intros [= <- ->].
    exists t, l. split; [by split|]. done.
Qed.

(** The three entry points share their opening. *)
Lemma Render_with_tree (data : list uint8) :
  Render engine uint32_overflow heap_grants data =
  with_tree engine data (fun tree =>
    size ← GetImageSize engine tree;
    if f32.leb (Width size) f32.zero || f32.leb (Height size) f32.zero
    then go_ret (None, Some err_invalid_dimensions)
    else
      identity ← IdentityTransform;
      img ← RenderTree_Render engine heap_grants tree identity
               (uint32_of_float32 uint32_overflow (Width size))
               (uint32_of_float32 uint32_overflow (Height size));
      go_ret (Some img, None)).
Proof. reflexivity. Qed.

Lemma RenderWithSize_with_tree (data : list uint8) (width height : uint32) :
  RenderWithSize engine heap_grants data width height =
  with_tree engine data (fun tree =>
    identity ← IdentityTransform;
    img ← RenderTree_Render engine heap_grants tree identity width height;
    go_ret (Some img, None)).
Proof. reflexivity. Qed.

Lemma RenderScaledToSize_with_tree (data : list uint8)
    (width height : uint32) :
  RenderScaledToSize engine heap_grants data width height =
  with_tree engine data (fun tree =>
    naturalSize ← GetImageSize engine tree;
    let naturalW := float64_of_float32 (Width naturalSize) in
    let naturalH := float64_of_float32 (Height naturalSize) in
    if f64.leb naturalW f64.zero || f64.leb naturalH f64.zero
    then go_ret (None, Some err_invalid_natural_dimensions)
    else
      let transform :=
        letterbox_transform (letterbox naturalW naturalH width height) in
      img ← RenderTree_Render engine heap_grants tree transform width height;
      go_ret (Some img, None)).
Proof. reflexivity. Qed.

(** A method call followed by the wrapping of its image. *)
Lemma bind_Render_method (t : c_tree) (tr : Transform)
    (width height : uint32) :
  (img ← RenderTree_Render engine heap_grants (mkRenderTree (Some t)) tr
            width height;
   go_ret (Some img, None (A:=error))) =
  let r := RenderTree_Render engine heap_grants (mkRenderTree (Some t)) tr
             width height in
  (r.1, match r.2 with
        | Return img => Return (Some img, None)
        | Panic => Panic
        | Fatal => Fatal
        end).
Proof.
  cbv zeta. destruct (RenderTree_Render _ _ _ _ _ _) as [l [img| |]]; cbn;
    by rewrite ?app_nil_r.
Qed.

(** What one application of the pass does to a buffer of the allocated
    shape, pixel by pixel. *)
Lemma converted_pixels (w h : Z) (raw img : image.RGBA) :
  canvas_shaped w h raw →
  convertFromPremultiplied raw = Some img →
  length (image.Pix img) = length (image.Pix raw) ∧
  ∀ (p k : nat) (ch a : uint8),
    (k < 4)%nat →
    image.Pix raw !! (4 * p + k)%nat = Some ch →
    image.Pix raw !! (4 * p + 3)%nat = Some a →
    image.Pix img !! (4 * p + k)%nat = Some (straight_byte k ch a).
Proof.
  intros Hs Hrun.
  destruct (convert_shaped w h raw Hs) as (out & Hout & Hs' & Hp).
  assert (out = img) as -> by congruence.
  split.
  - destruct Hs as (_ & _ & _ & _ & ->). by destruct Hs' as (_ & _ & _ & _ & ->).
  - intros p k ch a Hk Hch Ha. rewrite Hp. by apply straight_pixel.
Qed.

Ltac split_method H HR :=
  match type of H with
  | context [RenderTree_Render ?e ?g ?t ?tr ?w ?h] =>
      destruct (RenderTree_Render e g t tr w h) as [? [?| |]] eqn:HR;
      cbn in H; [|discriminate H..]
  end.

(** Every image a render call returns is one logged engine rendering with
    the pass applied to it. *)
Lemma entry_inv (e : render_entry) (log : list (ccall c_options c_tree))
    (img : image.RGBA) :
  run_entry engine uint32_overflow heap_grants e = (log, Return (Some img)) →
  ∃ c raw w h,
    List.filter is_render_call log = [c] ∧
    raw_buffer engine c = Some raw ∧
    canvas_shaped w h raw ∧
    convertFromPremultiplied raw = Some img.
Proof.
  destruct e as [t tr w h | t id tr w h | data | data w h | data w h];
    unfold run_entry; intros H.
  - split_method H HR. injection H as <- <-.
    apply Render_method_inv in HR as (hd & raw & _ & -> & Hraw & Hs & Hc).
    by exists (call_render hd tr w h), raw, (Z.of_N w), (Z.of_N h).
  - destruct (RenderTree_RenderNode engine heap_grants t id tr w h)
      as [l [[oi oe]| |]] eqn:HR; cbn in H; [|discriminate H..].
    injection H as <- ->.
    apply RenderNode_inv in HR as (hd & raw & _ & -> & _ & Hraw & Hs & Hc).
    by exists (call_render_node hd (C_CString id) tr w h), raw,
      (Z.of_N w), (Z.of_N h).
  - destruct (Render engine uint32_overflow heap_grants data)
      as [l [[oi oe]| |]] eqn:HR; cbn in H; [|discriminate H..].
    injection H as <- ->. rewrite Render_with_tree in HR.
    apply with_tree_inv in HR as (t & lb & Hp & He & Hb & ->).
    cbn in Hb. destruct (resvg_get_image_size engine t) as [sw sh].
    cbn in Hb. destruct (f32.leb sw f32.zero || f32.leb sh f32.zero);
      [discriminate Hb|].
    cbn in Hb. split_method Hb HR. injection Hb as <- <-.
    apply Render_method_inv in HR as (hd & raw & [= <-] & -> & Hraw & Hs & Hc).
    by eexists _, raw, _, _.
  - destruct (RenderWithSize engine heap_grants data w h)
      as [l [[oi oe]| |]] eqn:HR; cbn in H; [|discriminate H..].
    injection H as <- ->. rewrite RenderWithSize_with_tree in HR.
    apply with_tree_inv in HR as (t & lb & Hp & He & Hb & ->).
    cbn in Hb. split_method Hb HR. injection Hb as <- <-.
    apply Render_method_inv in HR as (hd & raw & [= <-] & -> & Hraw & Hs & Hc).
    by eexists _, raw, _, _.
  - destruct (RenderScaledToSize engine heap_grants data w h)
      as [l [[oi oe]| |]] eqn:HR; cbn in H; [|discriminate H..].
    injection H as <- ->. rewrite RenderScaledToSize_with_tree in HR.
    apply with_tree_inv in HR as (t & lb & Hp & He & Hb & ->).
    cbn in Hb. destruct (resvg_get_image_size engine t) as [sw sh].
    cbn in Hb.
    destruct (f64.leb (float64_of_float32 sw) f64.zero
              || f64.leb (float64_of_float32 sh) f64.zero);
      [discriminate Hb|].
    split_method Hb HR. injection Hb as <- <-.
    apply Render_method_inv in HR as (hd & raw & [= <-] & -> & Hraw & Hs & Hc).
    by eexists _, raw, _, _.
Qed.

(** C1 (as amended).  Every image returned by a render call, the two
    methods and the three convenience entry points alike, is the buffer of
    exactly one logged engine rendering with [convertFromPremultiplied]
    applied to it once; there, each R, G, B byte [c] of a pixel whose alpha
    [a] lies strictly between 0 and 255 has become the truncated quotient
    [c * 255 / a], capped at 255. *)
Theorem render_converts_once (e : render_entry)
    (log : list (ccall c_options c_tree)) (img : image.RGBA) :
  run_entry engine uint32_overflow heap_grants e = (log, Return (Some img)) →
  ∃ c raw,
    List.filter is_render_call log = [c] ∧
    raw_buffer engine c = Some raw ∧
    convertFromPremultiplied raw = Some img ∧
    length (image.Pix img) = length (image.Pix raw) ∧
    ∀ (p k : nat) (ch a : uint8),
      (k < 3)%nat →
      image.Pix raw !! (4 * p + k)%nat = Some ch →
      image.Pix raw !! (4 * p + 3)%nat = Some a →
      (0 < uint32_of_uint8 a < 255)%N →
      image.Pix img !! (4 * p + k)%nat =
      Some (uint8_of_uint32
              (N.min 255 (uint32_of_uint8 ch * 255 / uint32_of_uint8 a))).
Proof.
  intros H. apply entry_inv in H as (c & raw & w & h & Hf & Hraw & Hs & Hc).
  exists c, raw. do 3 (split; [done|]).
  destruct (converted_pixels w h raw img Hs Hc) as [Hlen Hpx].
  split; [done|]. intros p k ch a Hk Hch Ha Hrange.
  rewrite (Hpx p k ch a) by (done || lia).
  rewrite straight_byte_convert by lia.
  rewrite unpremultiply_floor; [done|]. apply Byte.to_N_bounded.
Qed.

(** C7 (as amended).  The engine is handed the C string of the
    identifier, its bytes before the first NUL.  Under the engine's
    contract for the node renderer, that it reports failure for an
    identifier no element of the document carries, [RenderNode] never hands
    back an image when no element carries that C string; on a canvas the
    wrapper gets it makes the one engine call and returns nil with the
    node-not-found error, which names the identifier as the caller gave
    it. *)
Theorem RenderNode_not_found (has_id : c_tree → string → Prop)
    (hd : c_tree) (id : string) (tr : Transform) (width height : uint32) :
  (∀ t i tr' w h, ¬ has_id t i →
     (resvg_render_node engine t i tr' w h).1 = false) →
  ¬ has_id hd (C_CString id) →
  (∀ log img err,
     RenderTree_RenderNode engine heap_grants (mkRenderTree (Some hd)) id tr
       width height ≠ (log, Return (Some img, err))) ∧
  (canvas_ok heap_grants width height = true →
   RenderTree_RenderNode engine heap_grants (mkRenderTree (Some hd)) id tr
     width height
   = ([call_render_node hd (C_CString id) tr width height],
      Return (None, Some (Errorf_failed_to_render_node id)))).
Proof.
  intros Hcontract Hid. split.
  - intros log img err HR.
    apply RenderNode_inv in HR as (hd' & raw & [= <-] & _ & Hs & _).
    by rewrite (Hcontract hd (C_CString id) tr width height Hid) in Hs.
  - intros Hok. rewrite RenderNode_eq.
    destruct (new_canvas_ok _ _ _ Hok) as (canvas & Hc & _ & Hi & Hg).
    rewrite Hc. unfold granted. rewrite Hg, orb_true_r. cbn [negb].
    rewrite Hi. cbn [cTree]. cbv zeta.
    by rewrite (Hcontract hd (C_CString id) tr width height Hid).
Qed.

(** C5.  On empty input [ParseFromData] returns no tree and the
    empty-data error, and its log of foreign calls is empty; this holds for
    every [opts], nil included. *)
Theorem ParseFromData_empty (opts : option Options) :
  ParseFromData engine [] opts = ([], Return (None, Some err_empty_data)).
Proof. reflexivity. Qed.

(** Parsing never reports the no-renderable-content error. *)
Lemma ParseFromData_never_no_renderable (data : list uint8)
    (opts : option Options) (log : list (ccall c_options c_tree))
    (tree : option RenderTree) (err : option error) :
  ParseFromData engine data opts = (log, Return (tree, err)) →
  err ≠ Some err_no_renderable.
Proof.
  unfold ParseFromData, handle.
  destruct (length data =? 0)%nat; [by intros [= <- <- <-]|].
  destruct opts as [[[o|]]|]; [|done..].
  cbn. destruct (resvg_parse_tree_from_data engine data o) as [res t].
  destruct res; cbn; by intros [= <- <- <-].
Qed.

(** C6.  For a document the engine parsed and reports empty, each of
    [Render], [RenderWithSize] and [RenderScaledToSize] returns no image
    and the no-renderable-content error, without any render call; and no
    run of [ParseFromData] returns that error. *)
Theorem empty_document_not_rendered (data : list uint8) (t : c_tree)
    (width height : uint32) :
  parses engine data t →
  resvg_is_image_empty engine t = true →
  let log := opening engine data ++ [call_is_image_empty t] ++ closing engine t in
  Render engine uint32_overflow heap_grants data
    = (log, Return (None, Some err_no_renderable)) ∧
  RenderWithSize engine heap_grants data width height
    = (log, Return (None, Some err_no_renderable)) ∧
  RenderScaledToSize engine heap_grants data width height
    = (log, Return (None, Some err_no_renderable)) ∧
  (∃ l, ParseFromData engine data (Some (mkOptions (Some (loaded_options engine))))
        = (l, Return (Some (mkRenderTree (Some t)), None))) ∧
  ∀ data' opts l tree err,
    ParseFromData engine data' opts = (l, Return (tree, err)) →
    err ≠ Some err_no_renderable.
Proof.
  intros Hp He log.
  rewrite Render_with_tree, RenderWithSize_with_tree,
    RenderScaledToSize_with_tree.
  rewrite !(with_tree_parsed _ t) by done. rewrite He.
  do 3 (split; [done|]). split.
  - destruct Hp as [Hne Hparse]. rewrite ParseFromData_eq, Hparse.
    destruct data; [done|]. by eexists.
  - intros data' opts l tree err. apply ParseFromData_never_no_renderable.
Qed.

(** What an entry point returns when the method [Render], called after
    the calls [before], returns [img]. *)
Lemma with_tree_rendered (data : list uint8) (t : c_tree)
    (before : list (ccall c_options c_tree))
    (body : RenderTree → go (option image.RGBA * option error))
    (call : ccall c_options c_tree) (img : image.RGBA) :
  parses engine data t →
  resvg_is_image_empty engine t = false →
  body (mkRenderTree (Some t)) = (before ++ [call], Return (Some img, None)) →
  with_tree engine data body
  = (opening engine data ++ (call_is_image_empty t :: before ++ [call])
       ++ closing engine t,
     Return (Some img, None)).
Proof.
  intros Hp He Hb. rewrite (with_tree_parsed _ t), He by done.
  cbv zeta. rewrite Hb. cbn [fst snd unwinds]. done.
Qed.

(** C10.  For a parsed, non-empty document and a canvas the wrapper gets,
    [RenderWithSize] makes one render call, with the identity transform
    [{1,0,0,1,0,0}] and the requested [width] and [height], never asking
    for the natural size; the image it returns has the bounds
    [(0,0)-(width,height)], stride [4 * width] and [4 * width * height]
    bytes, which are the bytes the engine stored for that call with the
    alpha pass applied.  [Render], on the same document, asks for the
    natural size and refuses a non-positive one. *)
Theorem RenderWithSize_identity (data : list uint8) (t : c_tree)
    (width height : uint32) :
  parses engine data t →
  resvg_is_image_empty engine t = false →
  canvas_ok heap_grants width height = true →
  let identity :=
    mkTransform (f32.of_Z 1) f32.zero f32.zero (f32.of_Z 1) f32.zero f32.zero in
  let size := resvg_get_image_size engine t in
  (∃ raw img,
     raw_buffer engine (call_render t identity width height) = Some raw ∧
     (∀ j : nat, (j < length (image.Pix raw))%nat →
        image.Pix raw !! j = Some (resvg_render engine t identity width height j)) ∧
     convertFromPremultiplied raw = Some img ∧
     canvas_shaped (Z.of_N width) (Z.of_N height) img ∧
     (∀ j : nat, image.Pix img !! j = straight_at (image.Pix raw) j) ∧
     RenderWithSize engine heap_grants data width height
       = (opening engine data
            ++ [call_is_image_empty t; call_transform_identity;
                call_render t identity width height]
            ++ closing engine t,
          Return (Some img, None))) ∧
  (f32.leb (Width size) f32.zero || f32.leb (Height size) f32.zero = true →
   Render engine uint32_overflow heap_grants data
     = (opening engine data
          ++ [call_is_image_empty t; call_get_image_size t]
          ++ closing engine t,
        Return (None, Some err_invalid_dimensions))).
Proof.
  intros Hp He Hok identity size. split.
  - destruct (Render_method_ok t identity width height Hok)
      as (raw & img & Hraw & _ & Hbytes & Hout & Hshape & Hpx & HR).
    exists raw, img. do 5 (split; [done|]).
    rewrite RenderWithSize_with_tree.
    apply (with_tree_rendered data t [call_transform_identity]); try done.
    unfold IdentityTransform. rewrite bind_foreign.
    change resvg_transform_identity with identity.
    rewrite bind_Render_method. cbv zeta. by rewrite HR.
  - intros Hsize.
    rewrite Render_with_tree, (with_tree_parsed _ t), He by done.
    cbv zeta. unfold GetImageSize. cbn [cTree].
    rewrite bind_handle_Some, bind_foreign. fold size. rewrite Hsize. done.
Qed.

End Properties.

(** ** The pass on the wrapper's buffers *)

(** C8.  On every buffer of the shape the wrapper allocates the pass runs
    to completion, and a pixel whose alpha byte is 0 or 255 keeps its R, G
    and B bytes. *)
Theorem convert_keeps_opaque_and_clear (w h : Z) (img : image.RGBA) :
  canvas_shaped w h img →
  ∃ out,
    convertFromPremultiplied img = Some out ∧
    ∀ (p k : nat) (a : uint8),
      image.Pix img !! (4 * p + 3)%nat = Some a →
      uint32_of_uint8 a = 0%N ∨ uint32_of_uint8 a = 255%N →
      (k < 3)%nat →
      image.Pix out !! (4 * p + k)%nat = image.Pix img !! (4 * p + k)%nat.
Proof.
  intros Hs. destruct (convert_shaped w h img Hs) as (out & Hout & Hs' & Hp).
  exists out. split; [done|]. intros p k a Ha Hbound Hk.
  destruct (lookup_lt_is_Some_2 (image.Pix img) (4 * p + k)) as [c Hc].
  { apply lookup_lt_Some in Ha. lia. }
  rewrite Hp, (straight_pixel _ p k c a), Hc by (done || lia).
  by rewrite straight_byte_keep.
Qed.

(** C9.  On every buffer of the shape the wrapper allocates the pass runs
    to completion and leaves every alpha byte, the buffer length, the
    stride and the bounds as they were. *)
Theorem convert_keeps_alpha (w h : Z) (img : image.RGBA) :
  canvas_shaped w h img →
  ∃ out,
    convertFromPremultiplied img = Some out ∧
    length (image.Pix out) = length (image.Pix img) ∧
    image.Stride out = image.Stride img ∧
    image.Bounds out = image.Bounds img ∧
    ∀ p : nat,
      image.Pix out !! (4 * p + 3)%nat = image.Pix img !! (4 * p + 3)%nat.
Proof.
  intros Hs. destruct (convert_shaped w h img Hs) as (out & Hout & Hs' & Hp).
  exists out. split; [done|].
  destruct Hs as (_ & _ & HS & HB & Hl), Hs' as (_ & _ & HS' & HB' & Hl').
  split; [congruence|]. split; [congruence|]. split; [congruence|].
  intros p. rewrite Hp.
  destruct (image.Pix img !! (4 * p + 3)%nat) as [a|] eqn:Ha.
  - by rewrite (straight_pixel _ p 3 a a) by (done || lia).
  - unfold straight_at. by rewrite Ha.
Qed.

(** C3.  On every buffer of the shape the wrapper allocates the pass runs
    to completion, and for a pixel whose alpha [a] lies strictly between 0
    and 255 and a premultiplied channel [c] of it not above [a], the byte
    [r] the pass leaves in that R, G or B slot is the quotient
    [c * 255 / a], which lies in [0, 255], and premultiplying it again,
    [r * a / 255] rounded to nearest, lands within one of [c]. *)
Theorem unpremultiply_round_trip (w h : Z) (img : image.RGBA) :
  canvas_shaped w h img →
  ∃ out,
    convertFromPremultiplied img = Some out ∧
    ∀ (p k : nat) (c a : uint8),
      (k < 3)%nat →
      image.Pix img !! (4 * p + k)%nat = Some c →
      image.Pix img !! (4 * p + 3)%nat = Some a →
      (0 < uint32_of_uint8 a < 255)%N →
      (uint32_of_uint8 c ≤ uint32_of_uint8 a)%N →
      ∃ r : uint8,
        image.Pix out !! (4 * p + k)%nat = Some r ∧
        uint32_of_uint8 r = (uint32_of_uint8 c * 255 / uint32_of_uint8 a)%N ∧
        (0 ≤ uint32_of_uint8 r ≤ 255)%N ∧
        (uint32_of_uint8 c
         ≤ spec_premultiply (uint32_of_uint8 r) (uint32_of_uint8 a) + 1)%N ∧
        (spec_premultiply (uint32_of_uint8 r) (uint32_of_uint8 a)
         ≤ uint32_of_uint8 c + 1)%N.
Proof.
  intros Hs. destruct (convert_shaped w h img Hs) as (out & Hout & _ & Hp).
  exists out. split; [done|]. intros p k c a Hk Hc Hal Ha Hca.
  destruct (unpremultiply_below_alpha _ _ Ha Hca) as [Hu Hle].
  exists (straight_byte k c a). split.
  { rewrite Hp. apply straight_pixel; (done || lia). }
  assert (Hr : uint32_of_uint8 (straight_byte k c a)
               = (uint32_of_uint8 c * 255 / uint32_of_uint8 a)%N).
  { rewrite straight_byte_convert by lia.
    rewrite uint32_of_uint8_of_uint32 by apply unpremultiply_le_255. done. }
  split; [done|]. rewrite Hr.
  pose proof (round_trip_arith _ _ Ha Hca) as [H1 H2].
  repeat split; lia.
Qed.

(** ** The letterbox arithmetic *)

(** *** Rounding to nearest in binary64 *)

Lemma iter_pos_nat {T} (f : T → T) (p : positive) (x : T) :
  SpecFloat.iter_pos f p x = Nat.iter (Pos.to_nat p) f x.
Proof.
  revert x. induction p as [p IH | p IH |]; intros x; cbn [SpecFloat.iter_pos].
  - rewrite !IH, Pos2Nat.inj_xI.
    replace (S (2 * Pos.to_nat p)) with (Pos.to_nat p + S (Pos.to_nat p))%nat
      by lia.
    by rewrite Nat.iter_add, Nat.iter_succ_r.
  - rewrite !IH, Pos2Nat.inj_xO.
    replace (2 * Pos.to_nat p)%nat with (Pos.to_nat p + Pos.to_nat p)%nat
      by lia.
    by rewrite Nat.iter_add.
  - done.
Qed.

Lemma located_bounds (y : Q) (mrs : shr_record) :
  located y mrs →
  (inject_Z (shr_m mrs) <= y ∧ y < inject_Z (shr_m mrs) + 1)%Q.
Proof.
  unfold located. destruct (shr_r mrs), (shr_s mrs); cbv zeta; lra.
Qed.

Lemma shr_1_spec (y : Q) (mrs : shr_record) :
  0 ≤ shr_m mrs → located y mrs →
  shr_m (shr_1 mrs) = shr_m mrs / 2 ∧ located (y * (1 # 2)) (shr_1 mrs).
Proof.
  destruct mrs as [m r s]. cbn [shr_m]. intros Hm.
  destruct m as [|p|p]; [| |lia].
  - unfold located. cbn. change (inject_Z 0) with 0%Q.
    destruct r, s; cbn; intros H; split; try done; lra.
  - assert (HI : ∀ q, (inject_Z (Z.pos q~1) == 2 * inject_Z (Z.pos q) + 1)%Q).
    { intros q. rewrite Pos2Z.inj_xI, inject_Z_plus, inject_Z_mult. done. }
    assert (HO : ∀ q, (inject_Z (Z.pos q~0) == 2 * inject_Z (Z.pos q))%Q).
    { intros q. rewrite Pos2Z.inj_xO, inject_Z_mult. done. }
    unfold located.
    destruct p as [q|q|]; cbn [shr_1 shr_m shr_r shr_s orb]; cbv zeta;
      intros Hloc; (split; [|]).
    + apply (Z.div_unique _ 2 _ 1); lia.
    + pose proof (HI q). destruct r, s; cbn [orb] in *; lra.
    + apply (Z.div_unique _ 2 _ 0); lia.
    + pose proof (HO q). destruct r, s; cbn [orb] in *; lra.
    + done.
    + change (inject_Z 1) with 1%Q in *. change (inject_Z 0) with 0%Q.
      destruct r, s; cbn [orb] in *; lra.
Qed.

Lemma located_proper (y y' : Q) (mrs : shr_record) :
  (y == y')%Q → located y mrs → located y' mrs.
Proof.
  unfold located. intros Hy. destruct (shr_r mrs), (shr_s mrs); cbv zeta; lra.
Qed.

Lemma pow2_pos (e : Z) : (0 < 2 ^ e)%Q.
Proof. by apply Qpower_0_lt. Qed.

Lemma pow2_add (a b : Z) : (2 ^ (a + b) == 2 ^ a * 2 ^ b)%Q.
Proof. apply Qpower_plus. lra. Qed.

Lemma pow2_inject (n : Z) : 0 ≤ n → (2 ^ n == inject_Z (2 ^ n))%Q.
Proof. intros Hn. by rewrite Zpower_Qpower. Qed.

Lemma shr_iter_spec (n : nat) (y : Q) (mrs : shr_record) :
  0 ≤ shr_m mrs → located y mrs →
  shr_m (Nat.iter n shr_1 mrs) = shr_m mrs / 2 ^ Z.of_nat n ∧
  located (y * 2 ^ (- Z.of_nat n)) (Nat.iter n shr_1 mrs).
Proof.
  intros Hm Hy. induction n as [|n [IHm IHy]].
  - change (Nat.iter 0 shr_1 mrs) with mrs. split; [by rewrite Z.div_1_r|].
    apply (located_proper y); [|done].
    change (2 ^ (- Z.of_nat 0))%Q with 1%Q. lra.
  - change (Nat.iter (S n) shr_1 mrs) with (shr_1 (Nat.iter n shr_1 mrs)).
    assert (Hpos : 0 ≤ shr_m (Nat.iter n shr_1 mrs)).
    { rewrite IHm. apply Z.div_pos; lia. }
    destruct (shr_1_spec _ _ Hpos IHy) as [Hm' Hy']. split.
    + rewrite Hm', IHm, Z.div_div by lia. f_equal.
      rewrite Nat2Z.inj_succ, Z.pow_succ_r by lia. lia.
    + apply (located_proper (y * 2 ^ (- Z.of_nat n) * (1 # 2))); [|done].
      replace (- Z.of_nat (S n)) with (- Z.of_nat n + -1) by lia.
      rewrite pow2_add. change (2 ^ (-1))%Q with (1 # 2)%Q. lra.
Qed.

Lemma round_nearest_even_spec (y : Q) (mrs : shr_record) :
  located y mrs →
  let m := round_nearest_even (shr_m mrs) (loc_of_shr_record mrs) in
  shr_m mrs ≤ m ≤ shr_m mrs + 1 ∧
  (inject_Z m - y <= 1 # 2 ∧ y - inject_Z m <= 1 # 2)%Q.
Proof.
  destruct mrs as [m r s]. unfold located.
  cbn [shr_m shr_r shr_s loc_of_shr_record]. cbv zeta.
  assert (H1 : (inject_Z (m + 1) == inject_Z m + 1)%Q)
    by (by rewrite inject_Z_plus).
  destruct r, s; cbn [round_nearest_even]; intros Hy;
    try (split; [lia | lra]).
  destruct (Z.even m); split; (lia || lra).
Qed.

Lemma fexp_64 (x : Z) : fexp f64.prec f64.emax x = Z.max (x - 53) (-1074).
Proof. reflexivity. Qed.

Lemma digits2_pos_bounds (p : positive) :
  2 ^ (Z.pos (digits2_pos p) - 1) ≤ Z.pos p < 2 ^ Z.pos (digits2_pos p).
Proof.
  induction p as [p IH | p IH |]; cbn [digits2_pos]; [| |done].
  - rewrite Pos2Z.inj_succ.
    replace (Z.succ (Z.pos (digits2_pos p)) - 1)
      with (Z.succ (Z.pos (digits2_pos p) - 1)) by lia.
    rewrite !Z.pow_succ_r by lia. lia.
  - rewrite Pos2Z.inj_succ.
    replace (Z.succ (Z.pos (digits2_pos p)) - 1)
      with (Z.succ (Z.pos (digits2_pos p) - 1)) by lia.
    rewrite !Z.pow_succ_r by lia. lia.
Qed.

Lemma digits2_unique (p : positive) (k : Z) :
  2 ^ (k - 1) ≤ Z.pos p < 2 ^ k → Z.pos (digits2_pos p) = k.
Proof.
  intros [Hlo Hhi]. pose proof (digits2_pos_bounds p) as [Dlo Dhi].
  set (d := Z.pos (digits2_pos p)) in *.
  destruct (Z.lt_trichotomy d k) as [Hlt | [Heq | Hgt]]; [|done|].
  - assert (2 ^ d ≤ 2 ^ (k - 1)) by (apply Z.pow_le_mono_r; lia). lia.
  - assert (0 ≤ k).
    { destruct (Z.le_gt_cases 0 k); [done|].
      rewrite Z.pow_neg_r in Hhi by lia. lia. }
    assert (2 ^ k ≤ 2 ^ (d - 1)) by (apply Z.pow_le_mono_r; lia). lia.
Qed.

(** The shift that brings a mantissa of at least 53 bits down to 53. *)
Lemma shr_fexp_spec (mx : positive) (ex : Z) (lx : location) (y : Q) :
  let d := Z.pos (digits2_pos mx) in
  53 ≤ d → -1074 ≤ ex + d - 53 →
  located y (shr_record_of_loc (Z.pos mx) lx) →
  ∃ mrs,
    shr_fexp f64.prec f64.emax (Z.pos mx) ex lx = (mrs, ex + (d - 53)) ∧
    shr_m mrs = Z.pos mx / 2 ^ (d - 53) ∧
    located (y * 2 ^ (- (d - 53))) mrs.
Proof.
  intros d Hd Hmin Hy. unfold shr_fexp. cbn [Zdigits2]. fold d.
  rewrite fexp_64.
  replace (Z.max (d + ex - 53) (-1074) - ex) with (d - 53) by lia.
  assert (Hm : shr_m (shr_record_of_loc (Z.pos mx) lx) = Z.pos mx)
    by (by destruct lx as [|[| |]]).
  destruct (d - 53) as [|p|p] eqn:Hn; [| |lia].
  - cbn [shr]. eexists. split; [by rewrite Z.add_0_r|].
    split; [by rewrite Hm, Z.div_1_r|].
    apply (located_proper y); [|done].
    change (2 ^ (- 0))%Q with 1%Q. lra.
  - cbn [shr]. rewrite iter_pos_nat.
    destruct (shr_iter_spec (Pos.to_nat p) y _ ltac:(rewrite Hm; lia) Hy)
      as [Hm' Hy'].
    rewrite positive_nat_Z in Hm', Hy'.
    eexists. split; [done|]. split; [by rewrite Hm', Hm|done].
Qed.

Lemma rounding_error (a y P v : Q) :
  (4503599627370496 <= y)%Q →
  (a - y <= 1 # 2)%Q → (y - a <= 1 # 2)%Q →
  (0 < P)%Q → (v == y * P)%Q →
  (v * (1 - u64) <= a * P ∧ a * P <= v * (1 + u64))%Q.
Proof.
  unfold u64. intros Hy H1 H2 HP Hv.
  assert (Ha1 : (0 <= (a - y * (1 - (1 # 9007199254740992))) * P)%Q).
  { apply Qmult_le_0_compat; lra. }
  assert (Ha2 : (0 <= (y * (1 + (1 # 9007199254740992)) - a) * P)%Q).
  { apply Qmult_le_0_compat; lra. }
  split; lra.
Qed.

(** Rounding to nearest of a mantissa of at least 53 bits, in the range
    where binary64 neither underflows nor overflows: the result is a
    normal number within the relative error [2^-53] of the exact value. *)
Lemma binary_round_aux_normal (s : bool) (mx : positive) (ex : Z)
    (lx : location) (y v : Q) :
  let d := Z.pos (digits2_pos mx) in
  53 ≤ d → -1074 ≤ ex + d - 53 → ex + d ≤ 1023 →
  located y (shr_record_of_loc (Z.pos mx) lx) →
  (v == y * 2 ^ ex)%Q →
  ∃ m e,
    binary_round_aux f64.prec f64.emax s (Z.pos mx) ex lx = S754_finite s m e ∧
    2 ^ 52 ≤ Z.pos m < 2 ^ 53 ∧
    ex + d - 53 ≤ e ≤ ex + d - 52 ∧
    (v * (1 - u64) <= mag m e ∧ mag m e <= v * (1 + u64))%Q.
Proof.
  intros d Hd Hmin Hmax Hy Hv. unfold mag.
  destruct (shr_fexp_spec mx ex lx y Hd Hmin Hy) as (mrs & Hshr & Hm & Hy').
  fold d in Hshr, Hm, Hy'.
  set (n := d - 53) in *. set (e' := ex + n) in *.
  pose proof (digits2_pos_bounds mx) as [Dlo Dhi]. fold d in Dlo, Dhi.
  assert (Hm52 : 2 ^ 52 ≤ shr_m mrs < 2 ^ 53).
  { rewrite Hm. split.
    - apply Z.div_le_lower_bound; [lia|].
      rewrite <- Z.pow_add_r by lia. by replace (n + 52) with (d - 1) by lia.
    - apply Z.div_lt_upper_bound; [lia|].
      rewrite <- Z.pow_add_r by lia. by replace (n + 53) with d by lia. }
  destruct (round_nearest_even_spec _ _ Hy') as (Hr & Hr1 & Hr2).
  pose proof (located_bounds _ _ Hy') as [Hb1 Hb2].
  set (y' := (y * 2 ^ (- n))%Q) in *.
  assert (Hy52 : (4503599627370496 <= y')%Q).
  { apply (Qle_trans _ (inject_Z (shr_m mrs))); [|done].
    change 4503599627370496%Q with (inject_Z (2 ^ 52)).
    rewrite <- Zle_Qle. lia. }
  assert (Hv' : (v == y' * 2 ^ e')%Q).
  { rewrite Hv. unfold y', e'. rewrite pow2_add.
    assert (Hinv : (2 ^ (- n) * 2 ^ n == 1)%Q).
    { rewrite <- pow2_add. by replace (- n + n) with 0 by lia. }
    rewrite <- Qmult_assoc, (Qmult_assoc (2 ^ (- n))), (Qmult_comm (2 ^ (- n))).
    rewrite <- (Qmult_assoc (2 ^ ex)), Hinv. lra. }
  unfold binary_round_aux. rewrite Hshr.
  set (mr := round_nearest_even (shr_m mrs) (loc_of_shr_record mrs)) in *.
  destruct (Z.eq_dec mr (2 ^ 53)) as [Hcarry | Hnc].
  - exists 4503599627370496%positive, (e' + 1).
    rewrite Hcarry. change (2 ^ 53) with 9007199254740992.
    unfold shr_fexp. change (Zdigits2 9007199254740992) with 54.
    rewrite fexp_64.
    replace (Z.max (54 + e' - 53) (-1074) - e') with 1 by lia.
    cbn [shr shr_record_of_loc SpecFloat.iter_pos shr_1 shr_m orb].
    change (f64.emax - f64.prec) with 971.
    destruct (Z.leb_spec (e' + 1) 971); [|lia].
    split; [done|]. split; [done|]. split; [lia|].
    assert (Hval : (inject_Z (Z.pos 4503599627370496) * 2 ^ (e' + 1)
                    == inject_Z mr * 2 ^ e')%Q).
    { rewrite Hcarry, pow2_add. change (2 ^ 1)%Q with 2%Q.
      change (inject_Z (2 ^ 53)) with (2 * inject_Z (Z.pos 4503599627370496))%Q.
      lra. }
    rewrite Hval. apply (rounding_error _ y'); (done || apply pow2_pos).
  - assert (Hmr : 2 ^ 52 ≤ mr < 2 ^ 53) by lia.
    destruct mr as [|p|p] eqn:Emr; [lia| |lia].
    exists p, e'.
    unfold shr_fexp. cbn [Zdigits2].
    rewrite (digits2_unique p 53) by (change (53 - 1) with 52; lia).
    rewrite fexp_64.
    replace (Z.max (53 + e' - 53) (-1074) - e') with 0 by lia.
    cbn [shr shr_record_of_loc shr_m].
    change (f64.emax - f64.prec) with 971.
    destruct (Z.leb_spec e' 971); [|lia].
    split; [done|]. split; [done|]. split; [lia|].
    apply (rounding_error _ y'); (done || apply pow2_pos).
Qed.

Lemma mag_pos (m : positive) (e : Z) : (0 < mag m e)%Q.
Proof.
  unfold mag. apply Qmult_lt_0_compat; [|apply pow2_pos].
  change 0%Q with (inject_Z 0). rewrite <- Zlt_Qlt. lia.
Qed.

Lemma shr_fexp_canonical (m : positive) (e : Z) :
  canonical_mantissa f64.prec f64.emax m e = true →
  shr_fexp f64.prec f64.emax (Z.pos m) e loc_Exact
  = ({| shr_m := Z.pos m; shr_r := false; shr_s := false |}, e).
Proof.
  unfold canonical_mantissa, shr_fexp. intros H. apply Z.eqb_eq in H.
  cbn [Zdigits2 shr_record_of_loc]. rewrite H, Z.sub_diag. reflexivity.
Qed.

Lemma binary_round_aux_canonical (s : bool) (m : positive) (e : Z) :
  bounded f64.prec f64.emax m e = true →
  binary_round_aux f64.prec f64.emax s (Z.pos m) e loc_Exact
  = S754_finite s m e.
Proof.
  unfold bounded. intros H. apply andb_prop in H as [Hc Hb].
  unfold binary_round_aux. rewrite (shr_fexp_canonical m e Hc).
  cbn [shr_m loc_of_shr_record round_nearest_even shr_r shr_s].
  rewrite (shr_fexp_canonical m e Hc). cbn [shr_m]. by rewrite Hb.
Qed.

Lemma digits2_pos_shift (p k : positive) :
  Z.pos (digits2_pos (Pos.iter xO p k)) = Z.pos (digits2_pos p) + Z.pos k.
Proof.
  induction k as [|k IH] using Pos.peano_ind.
  - cbn. lia.
  - rewrite Pos.iter_succ. cbn [digits2_pos]. lia.
Qed.

Lemma Pos_iter_xO (p k : positive) :
  Z.pos (Pos.iter xO p k) = Z.pos p * 2 ^ Z.pos k.
Proof.
  induction k as [|k IH] using Pos.peano_ind.
  - cbn. lia.
  - rewrite Pos.iter_succ, Pos2Z.inj_xO, IH, Pos2Z.inj_succ, Z.pow_succ_r by lia.
    lia.
Qed.

(** A 53-bit mantissa with its exponent in range is a binary64 number. *)
Lemma normal_bounded (m : positive) (e : Z) :
  2 ^ 52 ≤ Z.pos m < 2 ^ 53 → -1074 ≤ e ≤ 971 →
  bounded f64.prec f64.emax m e = true.
Proof.
  intros Hm He. unfold bounded, canonical_mantissa.
  rewrite (digits2_unique m 53) by (change (53 - 1) with 52; lia).
  rewrite fexp_64. apply andb_true_intro. split.
  - apply Z.eqb_eq. lia.
  - apply Z.leb_le. change (f64.emax - f64.prec) with 971. lia.
Qed.

(** [binary_round] in the range where binary64 neither underflows nor
    overflows: a normal number within the relative error [2^-53] of
    [m * 2^e], and equal to it when [m] has at most 53 bits. *)
Lemma binary_round_normal (s : bool) (m : positive) (e : Z) :
  let d := Z.pos (digits2_pos m) in
  -1074 ≤ e + d - 53 → e + d ≤ 1023 →
  ∃ m' e',
    binary_round f64.prec f64.emax s m e = S754_finite s m' e' ∧
    2 ^ 52 ≤ Z.pos m' < 2 ^ 53 ∧
    e + d - 53 ≤ e' ≤ e + d - 52 ∧
    (mag m e * (1 - u64) <= mag m' e' ∧ mag m' e' <= mag m e * (1 + u64))%Q ∧
    (d ≤ 53 → (mag m' e' == mag m e)%Q).
Proof.
  intros d Hmin Hmax. unfold binary_round. rewrite fexp_64. fold d.
  replace (Z.max (d + e - 53) (-1074)) with (d + e - 53) by lia.
  unfold shl_align. replace (d + e - 53 - e) with (d - 53) by lia.
  pose proof (digits2_pos_bounds m) as [Dlo Dhi]. fold d in Dlo, Dhi.
  pose proof (mag_pos m e) as Hpos.
  destruct (d - 53) as [|k|k] eqn:Hk.
  - assert (Hd : d = 53) by lia. rewrite Hd in Dlo, Dhi.
    change (53 - 1) with 52 in Dlo.
    rewrite binary_round_aux_canonical by (apply normal_bounded; lia).
    exists m, e. split; [done|]. split; [done|]. split; [lia|].
    unfold u64. split; [lra|done].
  - destruct (binary_round_aux_normal s m e loc_Exact
                (inject_Z (Z.pos m)) (mag m e))
      as (m' & e' & Hr & Hm' & He' & Hb); fold d; try lia.
    { by cbn. }
    { done. }
    exists m', e'. split; [done|]. split; [done|]. split; [lia|].
    split; [done|]. lia.
  - set (m' := Pos.iter xO m k).
    assert (Hm' : Z.pos m' = Z.pos m * 2 ^ Z.pos k) by apply Pos_iter_xO.
    assert (Hd' : Z.pos (digits2_pos m') = 53).
    { unfold m'. rewrite digits2_pos_shift. fold d. lia. }
    pose proof (digits2_pos_bounds m') as [Dlo' Dhi']. rewrite Hd' in Dlo', Dhi'.
    change (53 - 1) with 52 in Dlo'.
    rewrite binary_round_aux_canonical by (apply normal_bounded; lia).
    exists m', (d + e - 53). split; [done|]. split; [done|]. split; [lia|].
    assert (Heq : (mag m' (d + e - 53) == mag m e)%Q).
    { unfold mag. rewrite Hm', inject_Z_mult.
      replace (d + e - 53) with (e + Z.neg k) by lia.
      rewrite pow2_add, <- pow2_inject by lia.
      assert (Hinv : (2 ^ Z.pos k * 2 ^ Z.neg k == 1)%Q).
      { rewrite <- pow2_add. by replace (Z.pos k + Z.neg k) with 0 by lia. }
      rewrite <- Qmult_assoc, (Qmult_comm (2 ^ e)), (Qmult_assoc (2 ^ Z.pos k)).
      rewrite Hinv. lra. }
    unfold u64. split; [rewrite Heq; lra | done].
Qed.

Lemma digits2_range (p : positive) (a b : Z) :
  0 ≤ a → 2 ^ a ≤ Z.pos p < 2 ^ b → a < Z.pos (digits2_pos p) ≤ b.
Proof.
  intros Ha [Hlo Hhi]. pose proof (digits2_pos_bounds p) as [Dlo Dhi].
  set (d := Z.pos (digits2_pos p)) in *. split.
  - destruct (Z.lt_ge_cases a d) as [|Hge]; [done|].
    assert (2 ^ d ≤ 2 ^ a) by (apply Z.pow_le_mono_r; lia). lia.
  - destruct (Z.le_gt_cases d b) as [|Hgt]; [done|].
    assert (0 ≤ b).
    { destruct (Z.le_gt_cases 0 b); [done|].
      rewrite Z.pow_neg_r in Hhi by lia. lia. }
    assert (2 ^ b ≤ 2 ^ (d - 1)) by (apply Z.pow_le_mono_r; lia). lia.
Qed.

Lemma mag_mul (m1 m2 : positive) (e1 e2 : Z) :
  (mag m1 e1 * mag m2 e2 == inject_Z (Z.pos (m1 * m2)) * 2 ^ (e1 + e2))%Q.
Proof.
  unfold mag. rewrite Pos2Z.inj_mul, inject_Z_mult, pow2_add. ring.
Qed.

(** The product of two normal numbers, away from underflow and overflow. *)
Lemma f64_mul_normal (s1 s2 : bool) (m1 m2 : positive) (e1 e2 : Z) :
  2 ^ 52 ≤ Z.pos m1 < 2 ^ 53 → 2 ^ 52 ≤ Z.pos m2 < 2 ^ 53 →
  -1126 ≤ e1 + e2 ≤ 917 →
  ∃ m e,
    f64.mul (S754_finite s1 m1 e1) (S754_finite s2 m2 e2)
      = S754_finite (xorb s1 s2) m e ∧
    2 ^ 52 ≤ Z.pos m < 2 ^ 53 ∧
    e1 + e2 + 52 ≤ e ≤ e1 + e2 + 54 ∧
    (mag m1 e1 * mag m2 e2 * (1 - u64) <= mag m e ∧
     mag m e <= mag m1 e1 * mag m2 e2 * (1 + u64))%Q.
Proof.
  intros H1 H2 He. unfold f64.mul, SFmul.
  assert (Hprod : 2 ^ 104 ≤ Z.pos (m1 * m2) < 2 ^ 106).
  { rewrite Pos2Z.inj_mul.
    change (2 ^ 104) with (2 ^ 52 * 2 ^ 52).
    change (2 ^ 106) with (2 ^ 53 * 2 ^ 53). nia. }
  pose proof (digits2_range _ 104 106 ltac:(lia) Hprod) as Hd.
  destruct (binary_round_aux_normal (xorb s1 s2) (m1 * m2) (e1 + e2) loc_Exact
              (inject_Z (Z.pos (m1 * m2))) (mag m1 e1 * mag m2 e2))
    as (m & e & Hr & Hm & Hex & Hb); try lia.
  { by cbn. }
  { apply mag_mul. }
  exists m, e. split; [done|]. split; [done|]. split; [lia|done].
Qed.

Lemma new_location_located (q r k : Z) :
  0 ≤ r < k →
  located (inject_Z q + inject_Z r / inject_Z k)
    (shr_record_of_loc q (new_location k r)).
Proof.
  intros Hr.
  assert (Hk : (0 < inject_Z k)%Q).
  { change 0%Q with (inject_Z 0). rewrite <- Zlt_Qlt. lia. }
  set (t := (inject_Z r / inject_Z k)%Q).
  assert (Ht : (t * inject_Z k == inject_Z r)%Q).
  { unfold t. field. lra. }
  assert (H2 : (inject_Z (2 * r) == 2 * inject_Z r)%Q)
    by (by rewrite inject_Z_mult).
  assert (Hcmp : ∀ c : comparison, (2 * r ?= k) = c →
            match c with
            | Lt => (2 * t < 1)%Q
            | Eq => (2 * t == 1)%Q
            | Gt => (1 < 2 * t)%Q
            end).
  { intros c Hc.
    destruct (Z.compare_spec (2 * r) k) as [Heq | Hlt | Hgt]; subst c.
    - assert (Hq : (inject_Z (2 * r) == inject_Z k)%Q) by (by rewrite Heq).
      rewrite H2 in Hq. nra.
    - rewrite Zlt_Qlt, H2 in Hlt. nra.
    - rewrite Zlt_Qlt, H2 in Hgt. nra. }
  assert (Ht1 : (t < 1)%Q).
  { assert (Hq : (inject_Z r < inject_Z k)%Q) by (rewrite <- Zlt_Qlt; lia).
    nra. }
  assert (Ht0 : r = 0 → (t == 0)%Q).
  { intros ->. unfold t. change (inject_Z 0) with 0%Q. field. lra. }
  assert (Htpos : r ≠ 0 → (0 < t)%Q).
  { intros Hne. assert (Hq : (0 < inject_Z r)%Q).
    { change 0%Q with (inject_Z 0). rewrite <- Zlt_Qlt. lia. }
    nra. }
  unfold new_location, new_location_even, new_location_odd.
  destruct (Z.even k) eqn:Heven.
  - destruct (Z.eqb_spec r 0) as [-> | Hne].
    + unfold located. cbn. specialize (Ht0 eq_refl). lra.
    + specialize (Htpos Hne). unfold located.
      destruct (Z.compare_spec (2 * r) k) as [Heq | Hlt | Hgt];
        cbn [shr_record_of_loc shr_m shr_r shr_s]; cbv zeta.
      * pose proof (Hcmp _ eq_refl). cbn in *. lra.
      * pose proof (Hcmp _ eq_refl). cbn in *. lra.
      * pose proof (Hcmp _ eq_refl). cbn in *. lra.
  - destruct (Z.eqb_spec r 0) as [-> | Hne].
    + unfold located. cbn. specialize (Ht0 eq_refl). lra.
    + specialize (Htpos Hne).
      assert (Hodd : 2 * r ≠ k).
      { intros <-. rewrite Z.even_mul in Heven. done. }
      unfold located.
      destruct (Z.compare_spec (2 * r + 1) k) as [Heq | Hlt | Hgt];
        cbn [shr_record_of_loc shr_m shr_r shr_s]; cbv zeta.
      * pose proof (Hcmp Lt ltac:(apply Z.compare_lt_iff; lia)). cbn in *. lra.
      * pose proof (Hcmp Lt ltac:(apply Z.compare_lt_iff; lia)). cbn in *. lra.
      * pose proof (Hcmp Gt ltac:(apply Z.compare_gt_iff; lia)). cbn in *. lra.
Qed.

(** The quotient of two normal numbers, away from underflow and overflow:
    multiplied back by the divisor it is within [2^-53] of the dividend. *)
Lemma f64_div_normal (s1 s2 : bool) (m1 m2 : positive) (e1 e2 : Z) :
  2 ^ 52 ≤ Z.pos m1 < 2 ^ 53 → 2 ^ 52 ≤ Z.pos m2 < 2 ^ 53 →
  -1021 ≤ e1 - e2 ≤ 1020 →
  ∃ m e,
    f64.div (S754_finite s1 m1 e1) (S754_finite s2 m2 e2)
      = S754_finite (xorb s1 s2) m e ∧
    2 ^ 52 ≤ Z.pos m < 2 ^ 53 ∧
    e1 - e2 - 53 ≤ e ≤ e1 - e2 - 51 ∧
    (mag m1 e1 * (1 - u64) <= mag m e * mag m2 e2 ∧
     mag m e * mag m2 e2 <= mag m1 e1 * (1 + u64))%Q.
Proof.
  intros H1 H2 He. unfold f64.div, SFdiv, SFdiv_core_binary. cbn [Zdigits2].
  rewrite (digits2_unique m1 53), (digits2_unique m2 53)
    by (change (53 - 1) with 52; lia).
  replace (53 + e1 - (53 + e2)) with (e1 - e2) by lia.
  rewrite fexp_64.
  replace (Z.min (Z.max (e1 - e2 - 53) (-1074)) (e1 - e2))
    with (e1 - e2 - 53) by lia.
  replace (e1 - e2 - (e1 - e2 - 53)) with 53 by lia.
  cbv iota. rewrite Z.shiftl_mul_pow2 by lia.
  set (M := Z.pos m1 * 2 ^ 53).
  pose proof (Z.div_eucl_eq M (Z.pos m2) ltac:(lia)) as Heq.
  pose proof (Z.mod_pos_bound M (Z.pos m2) ltac:(lia)) as Hb.
  unfold Z.modulo in Hb.
  destruct (Z.div_eucl M (Z.pos m2)) as [q r].
  assert (HM : 2 ^ 105 ≤ M < 2 ^ 106).
  { unfold M. change (2 ^ 105) with (2 ^ 52 * 2 ^ 53).
    change (2 ^ 106) with (2 ^ 53 * 2 ^ 53). nia. }
  assert (Hq : 2 ^ 52 ≤ q < 2 ^ 54).
  { change (2 ^ 105) with (2 ^ 53 * 2 ^ 52) in HM.
    change (2 ^ 106) with (2 ^ 52 * 2 ^ 54) in HM. nia. }
  destruct q as [|qp|qp]; [lia| |lia].
  pose proof (digits2_range qp 52 54 ltac:(lia) Hq) as Hd.
  set (y := (inject_Z (Z.pos qp) + inject_Z r / inject_Z (Z.pos m2))%Q).
  destruct (binary_round_aux_normal (xorb s1 s2) qp (e1 - e2 - 53)
              (new_location (Z.pos m2) r) y (y * 2 ^ (e1 - e2 - 53)))
    as (m & e & Hr & Hm & Hex & Hlo & Hhi); try lia.
  { by apply new_location_located. }
  { done. }
  exists m, e. split; [done|]. split; [done|]. split; [lia|].
  assert (Hy : (y * inject_Z (Z.pos m2) == inject_Z M)%Q).
  { rewrite Heq, inject_Z_plus, inject_Z_mult. unfold y. field.
    change 0%Q with (inject_Z 0). rewrite inject_Z_injective. lia. }
  assert (Hv : (y * 2 ^ (e1 - e2 - 53) * mag m2 e2 == mag m1 e1)%Q).
  { unfold mag.
    transitivity ((y * inject_Z (Z.pos m2)) * (2 ^ (e1 - e2 - 53) * 2 ^ e2))%Q;
      [ring|].
    rewrite Hy, <- pow2_add. unfold M.
    rewrite inject_Z_mult, <- pow2_inject by lia.
    rewrite <- Qmult_assoc, <- pow2_add.
    by replace (53 + (e1 - e2 - 53 + e2)) with e1 by lia. }
  pose proof (mag_pos m2 e2) as Hpos.
  set (V := (y * 2 ^ (e1 - e2 - 53))%Q) in *.
  assert (Ha : (0 <= (mag m e - V * (1 - u64)) * mag m2 e2)%Q)
    by (apply Qmult_le_0_compat; lra).
  assert (Hb' : (0 <= (V * (1 + u64) - mag m e) * mag m2 e2)%Q)
    by (apply Qmult_le_0_compat; lra).
  split; nra.
Qed.

(** ** Order *)

Lemma mag_lt_exp (m1 m2 : positive) (e1 e2 : Z) :
  2 ^ 52 ≤ Z.pos m1 < 2 ^ 53 → 2 ^ 52 ≤ Z.pos m2 < 2 ^ 53 →
  e1 < e2 → (mag m1 e1 < mag m2 e2)%Q.
Proof.
  intros H1 H2 He. unfold mag.
  assert (Hp : (2 * 2 ^ e1 <= 2 ^ e2)%Q).
  { change 2%Q with (2 ^ 1)%Q at 1. rewrite <- pow2_add.
    apply Qpower_le_compat_l; [lia|lra]. }
  pose proof (pow2_pos e1) as P1.
  assert (Q1 : (inject_Z (Z.pos m1) < 9007199254740992)%Q).
  { change 9007199254740992%Q with (inject_Z (2 ^ 53)). rewrite <- Zlt_Qlt. lia. }
  assert (Q2 : (4503599627370496 <= inject_Z (Z.pos m2))%Q).
  { change 4503599627370496%Q with (inject_Z (2 ^ 52)). rewrite <- Zle_Qle. lia. }
  nra.
Qed.

(** On normal numbers the order of binary64 is the order of the values. *)
Lemma SFcompare_normal (m1 m2 : positive) (e1 e2 : Z) :
  2 ^ 52 ≤ Z.pos m1 < 2 ^ 53 → 2 ^ 52 ≤ Z.pos m2 < 2 ^ 53 →
  SFcompare (S754_finite false m1 e1) (S754_finite false m2 e2)
  = Some (mag m1 e1 ?= mag m2 e2)%Q.
Proof.
  intros H1 H2. cbn [SFcompare]. f_equal.
  destruct (Z.compare_spec e1 e2) as [-> | Hlt | Hgt].
  - pose proof (pow2_pos e2) as P. unfold mag.
    change (Pos.compare_cont Eq m1 m2) with (m1 ?= m2)%positive.
    destruct (Pos.compare_spec m1 m2) as [-> | Hlt | Hgt]; symmetry.
    + by apply Qeq_alt.
    + apply Qlt_alt. apply Qmult_lt_compat_r; [done|].
      rewrite <- Zlt_Qlt. lia.
    + apply Qgt_alt. apply Qmult_lt_compat_r; [done|].
      rewrite <- Zlt_Qlt. lia.
  - symmetry. apply Qlt_alt. by apply mag_lt_exp.
  - symmetry. apply Qgt_alt. by apply mag_lt_exp.
Qed.

Lemma f64_leb_normal (m1 m2 : positive) (e1 e2 : Z) :
  2 ^ 52 ≤ Z.pos m1 < 2 ^ 53 → 2 ^ 52 ≤ Z.pos m2 < 2 ^ 53 →
  f64.leb (S754_finite false m1 e1) (S754_finite false m2 e2) = true →
  (mag m1 e1 <= mag m2 e2)%Q.
Proof.
  intros H1 H2. unfold f64.leb, SFleb. rewrite SFcompare_normal by done.
  intros H. apply Qle_alt. by destruct (_ ?= _)%Q.
Qed.

Lemma f64_ltb_normal (m1 m2 : positive) (e1 e2 : Z) :
  2 ^ 52 ≤ Z.pos m1 < 2 ^ 53 → 2 ^ 52 ≤ Z.pos m2 < 2 ^ 53 →
  f64.ltb (S754_finite false m1 e1) (S754_finite false m2 e2) = true →
  (mag m1 e1 < mag m2 e2)%Q.
Proof.
  intros H1 H2. unfold f64.ltb, SFltb. rewrite SFcompare_normal by done.
  intros H. apply Qlt_alt. by destruct (_ ?= _)%Q.
Qed.

(** On non-negative values the order is total, and [math.Min] picks the
    smaller argument. *)
Lemma SFcompare_nonneg (x y : spec_float) :
  nonneg x = true → nonneg y = true →
  ∃ c, SFcompare x y = Some c ∧ SFcompare y x = Some (CompOpp c) ∧
       (c = Eq → x = y).
Proof.
  destruct x as [[|] | [|] | | [|] m1 e1], y as [[|] | [|] | | [|] m2 e2];
    try done; intros _ _; cbn [SFcompare]; try (by eexists).
  exists (match e1 ?= e2 with
          | Eq => Pos.compare_cont Eq m1 m2
          | Lt => Lt
          | Gt => Gt
          end).
  split; [done|]. rewrite (Z.compare_antisym e1 e2). split.
  - destruct (e1 ?= e2); cbn [CompOpp]; try done.
    by rewrite Pos.compare_cont_antisym.
  - destruct (Z.compare_spec e1 e2) as [-> | |]; try done.
    change (Pos.compare_cont Eq m1 m2) with (m1 ?= m2)%positive.
    by intros ->%Pos.compare_eq.
Qed.

Lemma math_Min_nonneg (x y : float64) :
  nonneg x = true → nonneg y = true →
  (math_Min x y = x ∨ math_Min x y = y) ∧
  f64.leb (math_Min x y) x = true ∧ f64.leb (math_Min x y) y = true ∧
  (f64.ltb x y = true → math_Min x y = x) ∧
  (f64.ltb y x = true → math_Min x y = y).
Proof.
  intros Hx Hy.
  destruct (SFcompare_nonneg x y Hx Hy) as (c & Hxy & Hyx & Heq).
  destruct (SFcompare_nonneg x x Hx Hx) as (cx & Hxx & Hxx' & _).
  destruct (SFcompare_nonneg y y Hy Hy) as (cy & Hyy & Hyy' & _).
  assert (cx = Eq) as -> by (destruct cx; cbn in *; congruence).
  assert (cy = Eq) as -> by (destruct cy; cbn in *; congruence).
  assert (Hmin : math_Min x y = if f64.ltb x y then x else y).
  { destruct x as [[|] | [|] | | [|] m1 e1], y as [[|] | [|] | | [|] m2 e2];
      try done. }
  rewrite Hmin. unfold f64.ltb, f64.leb, SFltb, SFleb. rewrite Hxy, Hyx.
  destruct c; cbn [CompOpp]; rewrite ?Hxx, ?Hyy, ?Hxy, ?Hyx; cbn [CompOpp];
    repeat split; auto; try done.
Qed.

(** ** Values that are never NaN *)

Lemma shr_1_nonneg (mrs : shr_record) :
  0 ≤ shr_m mrs → 0 ≤ shr_m (shr_1 mrs).
Proof. destruct mrs as [[|[p|p|]|p] r s]; cbn; lia. Qed.

Lemma shr_fexp_nonneg (m e : Z) (l : location) :
  0 ≤ m → 0 ≤ shr_m (shr_fexp f64.prec f64.emax m e l).1.
Proof.
  intros Hm. unfold shr_fexp, shr.
  assert (H0 : 0 ≤ shr_m (shr_record_of_loc m l)) by (by destruct l as [|[| |]]).
  destruct (_ - e) as [|p|p]; cbn [fst]; try done.
  rewrite iter_pos_nat. induction (Pos.to_nat p) as [|n IH]; [done|].
  change (Nat.iter (S n) shr_1 ?x) with (shr_1 (Nat.iter n shr_1 x)).
  by apply shr_1_nonneg.
Qed.

Lemma binary_round_aux_nonneg (mx ex : Z) (lx : location) :
  0 ≤ mx → nonneg (binary_round_aux f64.prec f64.emax false mx ex lx) = true.
Proof.
  intros Hm. unfold binary_round_aux.
  pose proof (shr_fexp_nonneg mx ex lx Hm) as H1.
  destruct (shr_fexp f64.prec f64.emax mx ex lx) as [mrs' e']. cbn [fst] in H1.
  set (mr := round_nearest_even (shr_m mrs') (loc_of_shr_record mrs')).
  assert (Hr : 0 ≤ mr).
  { unfold mr, round_nearest_even.
    destruct (loc_of_shr_record mrs') as [|[| |]]; try lia.
    destruct (Z.even _); lia. }
  pose proof (shr_fexp_nonneg mr e' loc_Exact Hr) as H2.
  destruct (shr_fexp f64.prec f64.emax mr e' loc_Exact) as [mrs'' e''].
  cbn [fst] in H2.
  destruct (shr_m mrs'') as [|p|p]; [done| |lia].
  by destruct (e'' <=? _).
Qed.

(** A non-negative finite number divided by a positive one is a
    non-negative number, never NaN. *)
Lemma f64_div_nonneg (x y : float64) :
  finite_nonneg x = true → f64.ltb f64.zero y = true →
  nonneg (f64.div x y) = true.
Proof.
  destruct x as [[|] | [|] | | [|] m1 e1], y as [[|] | [|] | | [|] m2 e2];
    try done.
  intros _ _. unfold f64.div, SFdiv, SFdiv_core_binary.
  set (m' := match _ - _ - _ with
             | 0 => Z.pos m1
             | Z.pos _ => Z.shiftl (Z.pos m1) _
             | Z.neg _ => 0
             end).
  assert (Hm' : 0 ≤ m').
  { unfold m'. destruct (_ - _ - _) as [|p|p]; try lia.
    apply Z.shiftl_nonneg. lia. }
  pose proof (Z.div_pos m' (Z.pos m2) Hm' ltac:(lia)) as Hq.
  unfold Z.div in Hq.
  destruct (Z.div_eucl m' (Z.pos m2)) as [q r]. cbn [fst] in Hq.
  by apply binary_round_aux_nonneg.
Qed.

(** ** The inputs of the letterbox *)

Lemma float64_of_uint32_normal (n : uint32) :
  (0 < n < 2 ^ 32)%N →
  ∃ m e,
    float64_of_uint32 n = S754_finite false m e ∧
    2 ^ 52 ≤ Z.pos m < 2 ^ 53 ∧ -52 ≤ e ≤ -20 ∧
    (mag m e == inject_Z (Z.of_N n))%Q.
Proof.
  intros Hn. unfold float64_of_uint32, f64.of_Z.
  destruct n as [|p]; [lia|]. cbn [Z.of_N binary_normalize].
  change (2 ^ 32)%N with 4294967296%N in Hn.
  pose proof (digits2_range p 0 32 ltac:(lia) ltac:(change (2 ^ 32) with 4294967296; lia)) as Hd.
  destruct (binary_round_normal false p 0) as (m & e & Hr & Hm & He & _ & Hv);
    try lia.
  exists m, e. split; [done|]. split; [done|]. split; [lia|].
  rewrite Hv by lia. unfold mag. change (2 ^ 0)%Q with 1%Q. ring.
Qed.

Lemma float64_of_uint32_finite_nonneg (n : uint32) :
  (n < 2 ^ 32)%N → finite_nonneg (float64_of_uint32 n) = true.
Proof.
  intros Hn. destruct (N.eq_dec n 0%N) as [-> | Hne]; [done|].
  destruct (float64_of_uint32_normal n) as (m & e & -> & _); [lia|done].
Qed.

Lemma float64_of_float32_normal (x : float32) :
  positive_binary32 x = true →
  ∃ m e,
    float64_of_float32 x = S754_finite false m e ∧
    2 ^ 52 ≤ Z.pos m < 2 ^ 53 ∧ -201 ≤ e ≤ 76 ∧
    (mag m e == float_value x)%Q.
Proof.
  destruct x as [| | |[|] mx ex]; try done.
  unfold positive_binary32, bounded, canonical_mantissa. intros H.
  apply andb_prop in H as [Hc Hb]. apply Z.eqb_eq in Hc. apply Z.leb_le in Hb.
  change (fexp f32.prec f32.emax ?z) with (Z.max (z - 24) (-149)) in Hc.
  change (f32.emax - f32.prec) with 104 in Hb.
  pose proof (digits2_pos_bounds mx) as [Dlo _].
  assert (0 < Z.pos (digits2_pos mx)) by lia.
  cbn [float64_of_float32 float_value].
  destruct (binary_round_normal false mx ex) as (m & e & Hr & Hm & He & _ & Hv);
    try lia.
  exists m, e. split; [done|]. split; [done|]. split; [lia|].
  apply Hv. lia.
Qed.

(** ** Differences *)

Lemma shl_align_fst (m : positive) (e ez : Z) :
  ez ≤ e → Z.pos (shl_align m e ez).1 = Z.pos m * 2 ^ (e - ez).
Proof.
  intros He. unfold shl_align.
  destruct (ez - e) as [|p|p] eqn:Hd; cbn [fst]; [|lia|].
  - replace (e - ez) with 0 by lia. lia.
  - rewrite Pos_iter_xO. f_equal. f_equal. lia.
Qed.

Lemma mag_align (m : positive) (e ez : Z) :
  ez ≤ e → (mag m e == inject_Z (Z.pos m * 2 ^ (e - ez)) * 2 ^ ez)%Q.
Proof.
  intros He. unfold mag. rewrite inject_Z_mult, <- pow2_inject by lia.
  rewrite <- Qmult_assoc, <- pow2_add. by replace (e - ez + ez) with e by lia.
Qed.

(** The difference of two positive normal numbers: zero when they are
    equal, and otherwise a normal number of the sign of the exact
    difference, within [2^-53] of it. *)
Lemma f64_sub_normal (m1 m2 : positive) (e1 e2 lo hi : Z) :
  2 ^ 52 ≤ Z.pos m1 < 2 ^ 53 → 2 ^ 52 ≤ Z.pos m2 < 2 ^ 53 →
  -1021 ≤ lo → hi ≤ 970 → lo ≤ e1 ≤ hi → lo ≤ e2 ≤ hi →
  let D := (mag m1 e1 - mag m2 e2)%Q in
  let r := f64.sub (S754_finite false m1 e1) (S754_finite false m2 e2) in
  ((D == 0)%Q ∧ r = S754_zero false) ∨
  (∃ s m e,
     r = S754_finite s m e ∧ 2 ^ 52 ≤ Z.pos m < 2 ^ 53 ∧
     lo - 52 ≤ e ≤ hi + 1 ∧
     (if s then D < 0 else 0 < D)%Q ∧
     ((if s then - D else D) * (1 - u64) <= mag m e ∧
      mag m e <= (if s then - D else D) * (1 + u64))%Q).
Proof.
  intros H1 H2 Hlo Hhi He1 He2 D r. unfold r, f64.sub, SFsub.
  cbn [cond_Zopp]. set (ez := Z.min e1 e2).
  rewrite !shl_align_fst by lia.
  set (M1 := Z.pos m1 * 2 ^ (e1 - ez)). set (M2 := Z.pos m2 * 2 ^ (e2 - ez)).
  assert (HD : (D == inject_Z (M1 - M2) * 2 ^ ez)%Q).
  { unfold D. rewrite (mag_align m1 e1 ez), (mag_align m2 e2 ez) by lia.
    fold M1 M2. unfold Z.sub. rewrite inject_Z_plus, inject_Z_opp. ring. }
  assert (P1 : 0 < 2 ^ (e1 - ez)) by (apply Z.pow_pos_nonneg; lia).
  assert (P2 : 0 < 2 ^ (e2 - ez)) by (apply Z.pow_pos_nonneg; lia).
  assert (B1 : M1 < 2 ^ (53 + (e1 - ez))).
  { unfold M1. rewrite Z.pow_add_r by lia. nia. }
  assert (B2 : M2 < 2 ^ (53 + (e2 - ez))).
  { unfold M2. rewrite Z.pow_add_r by lia. nia. }
  assert (HM1 : 0 < M1) by (unfold M1; nia).
  assert (HM2 : 0 < M2) by (unfold M2; nia).
  destruct (M1 - M2) as [|p|p] eqn:Hdiff.
  - left. split; [|done]. rewrite HD. change (inject_Z 0) with 0%Q. ring.
  - right.
    assert (Hp : 2 ^ 0 ≤ Z.pos p < 2 ^ (53 + (e1 - ez))) by (cbn; lia).
    pose proof (digits2_range p 0 _ ltac:(lia) Hp) as Hd.
    destruct (binary_round_normal false p ez) as (m & e & Hr & Hm & He & Hb & _);
      try lia.
    exists false, m, e. cbn [binary_normalize]. split; [done|].
    split; [done|]. split; [lia|].
    fold (mag p ez) in HD. pose proof (mag_pos p ez).
    split; [lra|]. rewrite HD. done.
  - right.
    assert (Hp : 2 ^ 0 ≤ Z.pos p < 2 ^ (53 + (e2 - ez))) by (cbn; lia).
    pose proof (digits2_range p 0 _ ltac:(lia) Hp) as Hd.
    destruct (binary_round_normal true p ez) as (m & e & Hr & Hm & He & Hb & _);
      try lia.
    exists true, m, e. cbn [binary_normalize]. split; [done|].
    split; [done|]. split; [lia|].
    assert (HD' : (- D == mag p ez)%Q).
    { rewrite HD. unfold mag. change (Z.neg p) with (- Z.pos p).
      rewrite inject_Z_opp. ring. }
    pose proof (mag_pos p ez).
    split; [lra|]. rewrite HD'. done.
Qed.

Lemma mag_two : (mag 4503599627370496 (-51) == 2)%Q.
Proof. vm_compute. reflexivity. Qed.

(** One axis of the letterbox, for a target [T], a natural side [n] and a
    scale [s], all normal numbers in the ranges that sizes of 32 bits
    give. *)
Lemma axis_spec (T n s : float64) :
  normal64 false (-52) (-20) T → normal64 false (-201) 76 n →
  normal64 false (-181) 130 s →
  let scaled := f64.mul n s in
  let t := f64.div (f64.sub T scaled) (f64.of_Z 2) in
  let P := (float_value n * float_value s)%Q in
  is_finite scaled = true ∧ is_finite t = true ∧
  axis_centred (float_value T) scaled t ∧
  ((P <= float_value T * (1 + u64))%Q →
   axis_padded (float_value T) scaled t) ∧
  ((float_value T * (1 - u64) <= P ∧ P <= float_value T * (1 + u64))%Q →
   axis_filled (float_value T) scaled t).
Proof.
  intros (mT & eT & -> & HmT & HeT) (mn & en & -> & Hmn & Hen)
    (ms & es & -> & Hms & Hes) scaled t P.
  cbn [float_value] in *. subst P.
  destruct (f64_mul_normal false false mn ms en es Hmn Hms ltac:(lia))
    as (mc & ec & Hc & Hmc & Hec & Hc1 & Hc2).
  cbn [xorb] in Hc. fold scaled in Hc.
  pose proof (mag_pos mT eT) as HT. pose proof (mag_pos mc ec) as Hcpos.
  destruct (f64_sub_normal mT mc eT ec (-330) 260 HmT Hmc
              ltac:(lia) ltac:(lia) ltac:(lia) ltac:(lia))
    as [[HD Hz] | (sd & md & ed & Hd & Hmd & Hed & Hsign & Hd1 & Hd2)].
  - assert (Ht : t = S754_zero false).
    { unfold t. rewrite Hc, Hz. reflexivity. }
    rewrite Hc, Ht.
    unfold axis_centred, axis_padded, axis_filled, tol_side, tol_offset, u64.
    cbn [float_value is_finite].
    split; [done|]. split; [done|]. split; [|split].
    + apply Qabs_Qle_condition.
      assert (H0 : (Qabs (mag mT eT - mag mc ec) == 0)%Q)
        by (rewrite (Qabs_wd _ 0); [done|lra]).
      rewrite H0. lra.
    + intros HP. split; lra.
    + intros [HP1 HP2]. split; apply Qabs_Qle_condition; lra.
  - destruct (f64_div_normal sd false md 4503599627370496 ed (-51) Hmd
                ltac:(done) ltac:(lia))
      as (mt & et & Ht & Hmt & Het & Ht1 & Ht2).
    rewrite mag_two in Ht1, Ht2. rewrite xorb_false_r in Ht.
    assert (Ht' : t = S754_finite sd mt et).
    { unfold t. rewrite Hc, Hd. exact Ht. }
    rewrite Hc, Ht'.
    pose proof (mag_pos md ed) as Hdpos. pose proof (mag_pos mt et) as Htpos.
    unfold axis_centred, axis_padded, axis_filled, tol_side, tol_offset, u64 in *.
    cbn [float_value is_finite].
    split; [done|]. split; [done|].
    destruct sd.
    + (* the exact difference is negative *)
      split; [|split].
      * rewrite (Qabs_neg (mag mT eT - mag mc ec)) by lra.
        apply Qabs_Qle_condition. lra.
      * intros HP. split; lra.
      * intros [HP1 HP2]. split; apply Qabs_Qle_condition; lra.
    + split; [|split].
      * rewrite (Qabs_pos (mag mT eT - mag mc ec)) by lra.
        apply Qabs_Qle_condition. lra.
      * intros HP. split; lra.
      * intros [HP1 HP2]. split; apply Qabs_Qle_condition; lra.
Qed.

Lemma axis_proper (T T' : Q) (scaled t : float64) :
  (T == T')%Q →
  (axis_centred T scaled t → axis_centred T' scaled t) ∧
  (axis_padded T scaled t → axis_padded T' scaled t) ∧
  (axis_filled T scaled t → axis_filled T' scaled t).
Proof.
  intros HT. unfold axis_centred, axis_padded, axis_filled.
  by rewrite HT.
Qed.

Section Letterbox64.
Variables (size : Size) (width height : uint32).
Hypothesis Hw0 : positive_binary32 (Width size) = true.
Hypothesis Hh0 : positive_binary32 (Height size) = true.
Hypothesis Hwidth : (0 < width < 2 ^ 32)%N.
Hypothesis Hheight : (0 < height < 2 ^ 32)%N.

Let w0 := float64_of_float32 (Width size).
Let h0 := float64_of_float32 (Height size).
Let sx := f64.div (float64_of_uint32 width) w0.
Let sy := f64.div (float64_of_uint32 height) h0.
Let l := letterbox w0 h0 width height.
Let W := inject_Z (Z.of_N width).
Let H := inject_Z (Z.of_N height).

Lemma letterbox_ratios :
  normal64 false (-52) (-20) (float64_of_uint32 width) ∧
  normal64 false (-52) (-20) (float64_of_uint32 height) ∧
  normal64 false (-201) 76 w0 ∧ normal64 false (-201) 76 h0 ∧
  normal64 false (-181) 130 sx ∧ normal64 false (-181) 130 sy ∧
  (float_value (float64_of_uint32 width) == W)%Q ∧
  (float_value (float64_of_uint32 height) == H)%Q ∧
  (W * (1 - u64) <= float_value w0 * float_value sx ∧
   float_value w0 * float_value sx <= W * (1 + u64))%Q ∧
  (H * (1 - u64) <= float_value h0 * float_value sy ∧
   float_value h0 * float_value sy <= H * (1 + u64))%Q.
Proof.
  destruct (float64_of_uint32_normal width Hwidth) as (mW & eW & EW & HmW & HeW & VW).
  destruct (float64_of_uint32_normal height Hheight) as (mH & eH & EH & HmH & HeH & VH).
  destruct (float64_of_float32_normal _ Hw0) as (m0 & e0 & E0 & Hm0 & He0 & _).
  destruct (float64_of_float32_normal _ Hh0) as (n0 & f0 & F0 & Hn0 & Hf0 & _).
  destruct (f64_div_normal false false mW m0 eW e0 HmW Hm0 ltac:(lia))
    as (mx & ex & Ex & Hmx & Hex & Bx1 & Bx2).
  destruct (f64_div_normal false false mH n0 eH f0 HmH Hn0 ltac:(lia))
    as (my & ey & Ey & Hmy & Hey & By1 & By2).
  cbn [xorb] in Ex, Ey.
  unfold sx, sy, w0, h0. rewrite EW, EH, E0, F0, Ex, Ey.
  cbn [float_value]. unfold W, H. rewrite <- VW, <- VH.
  repeat split; try (eexists _, _; split; [done|]; split; [done|]; lia);
    try done; lra.
Qed.

End Letterbox64.

Lemma positive_not_le_zero (x : float64) :
  f64.ltb f64.zero x = true → f64.leb x f64.zero = false.
Proof. by destruct x as [[|] | [|] | | [|] m e]. Qed.

(** *** The fit of the content *)

(** C4, as stated, fails in the arithmetic the program runs.  A 49 by 1
    document in a 1 by 1 target: [1 / 49] is rounded, [49 * (1 / 49)] is
    [1 - 2^-53], and neither scaled side equals its target. *)
Lemma letterbox_binary64_misses :
  letterbox_inputs (f64.of_Z 49) (f64.of_Z 1) 1%N 1%N ∧
  ¬ fills_one_axis (f64.of_Z 49) (f64.of_Z 1) 1%N 1%N ∧
  scaledW (letterbox (f64.of_Z 49) (f64.of_Z 1) 1%N 1%N)
    = S754_finite false 9007199254740991 (-53) ∧
  (RenderScaledToSize toy_engine toy_heap toy_wide_document 1%N 1%N).1 !! 5%nat
    = Some (call_render toy_wide_document
              (letterbox_transform
                 (letterbox (f64.of_Z 49) (f64.of_Z 1) 1%N 1%N)) 1%N 1%N) ∧
  E (letterbox_transform (letterbox (f64.of_Z 49) (f64.of_Z 1) 1%N 1%N))
    ≠ f32.zero.
Proof.
  split; [|split; [|split; [|split]]].
  - unfold letterbox_inputs. repeat split; try (vm_compute; reflexivity).
    vm_compute. discriminate.
  - unfold fills_one_axis. intros [(H & _) | (H & _)];
      vm_compute in H; discriminate.
  - vm_compute. reflexivity.
  - vm_compute. reflexivity.
  - vm_compute. discriminate.
Qed.

(** Read over the rationals, where nothing is rounded, the same formulas
    fill exactly one axis. *)
Lemma letterbox_exact (naturalW naturalH : Q) (width height : uint32) :
  letterbox_inputs naturalW naturalH width height →
  fills_one_axis naturalW naturalH width height.
Proof.
  unfold letterbox_inputs, fills_one_axis, letterbox.
  cbn [feq flt fdiv fmul fsub fmin fconst of_uint32 exact_arith
       scale scaledW scaledH tx ty].
  set (W := inject_Z (Z.of_N width)). set (H := inject_Z (Z.of_N height)).
  intros (Hw0 & Hh0 & HW & HH & Hne).
  change (inject_Z 0) with 0%Q in *. change (inject_Z 2) with 2%Q.
  assert (Hr : (W / naturalW * naturalW == W)%Q) by (field; lra).
  assert (Hs : (H / naturalH * naturalH == H)%Q) by (field; lra).
  set (r := (W / naturalW)%Q) in *. set (s := (H / naturalH)%Q) in *.
  clearbody r s W H.
  unfold Q_min. destruct (Qlt_le_dec r s) as [Hlt | Hle].
  - left.
    assert (H1 : (naturalW * r == W)%Q) by lra.
    assert (H2 : (naturalH * r < H)%Q) by nra.
    repeat split; try done; unfold Qdiv; change (/ 2)%Q with (1 # 2)%Q; nra.
  - right.
    assert (Hlt : (s < r)%Q).
    { apply Qle_lteq in Hle as [Hlt | Heq]; [done|]. exfalso. apply Hne. lra. }
    assert (H1 : (naturalH * s == H)%Q) by lra.
    assert (H2 : (naturalW * s < W)%Q) by nra.
    repeat split; try done; unfold Qdiv; change (/ 2)%Q with (1 # 2)%Q; nra.
Qed.

(** C4 (as amended).  In the arithmetic the program runs, binary64 with
    every operation rounded to nearest, for a natural size of positive
    binary32 numbers and target sides from 1 to [2^32 - 1]: exactly one of
    "the x ratio is the smaller", "the y ratio is the smaller" and "the
    ratios are equal" holds of the two computed ratios, and the scale is
    the smaller ratio; the scaled sides and the offsets are finite; on the
    axis of the scale the scaled side differs from its target by at most
    [2^-51] of the target and the offset is at most [2^-52] of the target
    in size; on the other axis the scaled side exceeds its target by at
    most [2^-51] of it and the offset is not below minus [2^-52] of the
    target; and on both axes the margins before and after the content
    differ by at most [2^-51] of their sum.  Exact equality, a strictly
    smaller side and a positive offset do not hold in general. *)
Theorem letterbox_binary64 (size : Size) (width height : uint32) :
  positive_binary32 (Width size) = true →
  positive_binary32 (Height size) = true →
  (0 < width < 2 ^ 32)%N → (0 < height < 2 ^ 32)%N →
  let w0 := float64_of_float32 (Width size) in
  let h0 := float64_of_float32 (Height size) in
  let sx := f64.div (float64_of_uint32 width) w0 in
  let sy := f64.div (float64_of_uint32 height) h0 in
  let l := letterbox w0 h0 width height in
  let W := inject_Z (Z.of_N width) in
  let H := inject_Z (Z.of_N height) in
  (∃ c, ratio_order sx sy c) ∧
  is_finite (scaledW l) = true ∧ is_finite (scaledH l) = true ∧
  is_finite (tx l) = true ∧ is_finite (ty l) = true ∧
  axis_centred W (scaledW l) (tx l) ∧ axis_centred H (scaledH l) (ty l) ∧
  (f64.ltb sx sy = true →
   scale l = sx ∧
   axis_filled W (scaledW l) (tx l) ∧ axis_padded H (scaledH l) (ty l)) ∧
  (f64.ltb sy sx = true →
   scale l = sy ∧
   axis_filled H (scaledH l) (ty l) ∧ axis_padded W (scaledW l) (tx l)) ∧
  (f64.eqb sx sy = true →
   scale l = sx ∧ scale l = sy ∧
   axis_filled W (scaledW l) (tx l) ∧ axis_filled H (scaledH l) (ty l)).
Proof.
  intros Hw0 Hh0 Hwidth Hheight w0 h0 sx sy l W H.
  destruct (letterbox_ratios size width height Hw0 Hh0 Hwidth Hheight)
    as (NW & NH & Nw0 & Nh0 & Nsx & Nsy & VW & VH & [BW1 BW2] & [BH1 BH2]).
  fold w0 h0 in Nw0, Nh0, Nsx, Nsy, BW1, BW2, BH1, BH2.
  fold sx in Nsx, BW1, BW2. fold sy in Nsy, BH1, BH2. fold W in VW. fold H in VH.
  assert (Hscale : scale l = math_Min sx sy) by reflexivity.
  assert (HsW : scaledW l = f64.mul w0 (scale l)) by reflexivity.
  assert (HsH : scaledH l = f64.mul h0 (scale l)) by reflexivity.
  assert (Htx : tx l = f64.div (f64.sub (float64_of_uint32 width) (scaledW l))
                         (f64.of_Z 2)) by reflexivity.
  assert (Hty : ty l = f64.div (f64.sub (float64_of_uint32 height) (scaledH l))
                         (f64.of_Z 2)) by reflexivity.
  rewrite HsW in Htx. rewrite HsH in Hty. rewrite Htx, Hty, HsW, HsH.
  clearbody l.
  (* the order of the two ratios *)
  pose proof Nsx as (mx & ex & Ex & Hmx & Hex).
  pose proof Nsy as (my & ey & Ey & Hmy & Hey).
  assert (Hnnx : nonneg sx = true) by (by rewrite Ex).
  assert (Hnny : nonneg sy = true) by (by rewrite Ey).
  destruct (math_Min_nonneg sx sy Hnnx Hnny) as (Hpick & _ & _ & Hlt & Hgt).
  destruct (SFcompare_nonneg sx sy Hnnx Hnny) as (c & Hxy & Hyx & Hsame).
  assert (Hval : c = (float_value sx ?= float_value sy)%Q).
  { rewrite Ex, Ey, SFcompare_normal in Hxy by done.
    rewrite Ex, Ey. cbn [float_value]. congruence. }
  assert (Horder : ratio_order sx sy c).
  { unfold ratio_order, f64.ltb, f64.eqb, SFltb, SFeqb. rewrite Hxy, Hyx.
    by destruct c. }
  assert (Hmin : scale l = if f64.ltb sx sy then sx else sy).
  { rewrite Hscale. destruct Horder as (H1 & H2 & H3).
    destruct c; rewrite H1.
    - destruct Hpick as [Hp | Hp]; [|done]. rewrite Hp. by apply Hsame.
    - by apply Hlt.
    - by apply Hgt. }
  assert (Nscale : normal64 false (-181) 130 (scale l)).
  { rewrite Hmin. by destruct (f64.ltb sx sy). }
  destruct (axis_spec (float64_of_uint32 width) w0 (scale l) NW Nw0 Nscale)
    as (FW1 & FW2 & CW & PW & FilW).
  destruct (axis_spec (float64_of_uint32 height) h0 (scale l) NH Nh0 Nscale)
    as (FH1 & FH2 & CH & PH & FilH).
  destruct (axis_proper _ _ (f64.mul w0 (scale l))
              (f64.div (f64.sub (float64_of_uint32 width)
                          (f64.mul w0 (scale l))) (f64.of_Z 2)) VW)
    as (TW1 & TW2 & TW3).
  destruct (axis_proper _ _ (f64.mul h0 (scale l))
              (f64.div (f64.sub (float64_of_uint32 height)
                          (f64.mul h0 (scale l))) (f64.of_Z 2)) VH)
    as (TH1 & TH2 & TH3).
  assert (Pw0 : (0 < float_value w0)%Q).
  { destruct Nw0 as (m & e & -> & _). apply mag_pos. }
  assert (Ph0 : (0 < float_value h0)%Q).
  { destruct Nh0 as (m & e & -> & _). apply mag_pos. }
  split; [by exists c|]. do 4 (split; [done|]).
  split; [by apply TW1|]. split; [by apply TH1|].
  destruct Horder as (O1 & O2 & O3). unfold u64 in *. subst W H.
  split; [|split].
  - intros Hc. rewrite Hc in Hmin. rewrite Hmin in *.
    assert (c = Lt) as -> by (destruct c; congruence).
    symmetry in Hval. apply Qlt_alt in Hval.
    split; [done|]. split.
    + apply TW3, FilW. split; lra.
    + apply TH2, PH. nra.
  - intros Hc.
    assert (c = Gt) as -> by (destruct c; congruence).
    rewrite O1 in Hmin. rewrite Hmin in *.
    symmetry in Hval. apply Qgt_alt in Hval.
    split; [done|]. split.
    + apply TH3, FilH. split; lra.
    + apply TW2, PW. nra.
  - intros Hc.
    assert (c = Eq) as -> by (destruct c; congruence).
    rewrite O1 in Hmin. specialize (Hsame eq_refl).
    rewrite Hmin in *. rewrite Hsame in *.
    split; [done|]. split; [done|]. split.
    + apply TW3, FilW. split; lra.
    + apply TH3, FilH. split; lra.
Qed.

Section Scaled.
Context {c_options c_tree : Type}.
Variable engine : Engine c_options c_tree.
Variable heap_grants : Z → bool.

(** The method makes its engine call or none. *)
Lemma Render_method_log (t : c_tree) (tr : Transform) (width height : uint32) :
  (RenderTree_Render engine heap_grants (mkRenderTree (Some t)) tr
     width height).1 = [] ∨
  (RenderTree_Render engine heap_grants (mkRenderTree (Some t)) tr
     width height).1 = [call_render t tr width height].
Proof.
  rewrite Render_method_eq.
  destruct (new_canvas width height) as [canvas|]; [|by left].
  destruct (negb _); [by left|].
  destruct (index _ 0); [|by left]. by right.
Qed.

(** [RenderScaledToSize] on a parsed, non-empty document, by cases on the
    natural size. *)
Lemma RenderScaledToSize_parsed (data : list uint8) (t : c_tree)
    (width height : uint32) :
  parses engine data t →
  resvg_is_image_empty engine t = false →
  let size := resvg_get_image_size engine t in
  let w0 := float64_of_float32 (Width size) in
  let h0 := float64_of_float32 (Height size) in
  let rendered :=
    RenderTree_Render engine heap_grants (mkRenderTree (Some t))
      (letterbox_transform (letterbox w0 h0 width height)) width height in
  RenderScaledToSize engine heap_grants data width height =
  if f64.leb w0 f64.zero || f64.leb h0 f64.zero
  then (opening engine data
          ++ [call_is_image_empty t; call_get_image_size t]
          ++ closing engine t,
        Return (None, Some err_invalid_natural_dimensions))
  else
    (opening engine data
       ++ [call_is_image_empty t; call_get_image_size t]
       ++ rendered.1 ++ (if unwinds rendered.2 then closing engine t else []),
     match rendered.2 with
     | Return img => Return (Some img, None)
     | Panic => Panic
     | Fatal => Fatal
     end).
Proof.
  intros Hp He size w0 h0 rendered.
  rewrite RenderScaledToSize_with_tree, (with_tree_parsed _ _ t), He by done.
  cbv zeta. unfold GetImageSize. cbn [cTree].
  rewrite bind_handle_Some, bind_foreign. fold size w0 h0.
  destruct (f64.leb w0 f64.zero || f64.leb h0 f64.zero); [done|].
  rewrite bind_Render_method. cbv zeta. fold rendered.
  by destruct rendered as [lr [img| |]].
Qed.

(** C2 (as amended).  For a parsed, non-empty document whose natural size
    is positive in both components, [RenderScaledToSize] renders with the
    transform [{scale, 0, 0, scale, tx, ty}] whose coefficients are the
    binary64 results of [scale = min(W / w0, H / h0)],
    [tx = (W - w0 * scale) / 2] and [ty = (H - h0 * scale) / 2], each
    operation rounded to nearest, stored rounded to binary32: [scale] is
    one of the two computed ratios and not above either; no render call of
    the run carries another transform; and on a canvas the wrapper gets,
    the run makes that one render call and returns the engine's buffer for
    it, in the requested shape, with the alpha pass applied.  A natural
    size that is zero or negative in a component ends the call with the
    invalid-natural-dimensions error and no render call in the log.  For a
    50 by 50 document the transform is [{2, 0, 0, 2, 50, 0}] on a 200 by
    100 target and [{2, 0, 0, 2, 0, 50}] on a 100 by 200 target. *)
Theorem RenderScaledToSize_letterbox (data : list uint8) (t : c_tree)
    (width height : uint32) :
  parses engine data t →
  resvg_is_image_empty engine t = false →
  (width < 2 ^ 32)%N → (height < 2 ^ 32)%N →
  let size := resvg_get_image_size engine t in
  let w0 := float64_of_float32 (Width size) in
  let h0 := float64_of_float32 (Height size) in
  let W := float64_of_uint32 width in
  let H := float64_of_uint32 height in
  let scale := math_Min (f64.div W w0) (f64.div H h0) in
  let tx := f64.div (f64.sub W (f64.mul w0 scale)) (f64.of_Z 2) in
  let ty := f64.div (f64.sub H (f64.mul h0 scale)) (f64.of_Z 2) in
  let transform :=
    mkTransform (float32_of_float64 scale) f32.zero f32.zero
      (float32_of_float64 scale) (float32_of_float64 tx)
      (float32_of_float64 ty) in
  let run := RenderScaledToSize engine heap_grants data width height in
  (f64.ltb f64.zero w0 = true → f64.ltb f64.zero h0 = true →
   ((scale = f64.div W w0 ∨ scale = f64.div H h0) ∧
    f64.leb scale (f64.div W w0) = true ∧
    f64.leb scale (f64.div H h0) = true) ∧
   (List.filter is_render_call run.1 = [] ∨
    List.filter is_render_call run.1
      = [call_render t transform width height]) ∧
   (canvas_ok heap_grants width height = true →
    ∃ raw img,
      raw_buffer engine (call_render t transform width height) = Some raw ∧
      (∀ j : nat, (j < length (image.Pix raw))%nat →
         image.Pix raw !! j
         = Some (resvg_render engine t transform width height j)) ∧
      convertFromPremultiplied raw = Some img ∧
      canvas_shaped (Z.of_N width) (Z.of_N height) img ∧
      (∀ j : nat, image.Pix img !! j = straight_at (image.Pix raw) j) ∧
      run = (opening engine data
               ++ [call_is_image_empty t; call_get_image_size t;
                   call_render t transform width height]
               ++ closing engine t,
             Return (Some img, None)))) ∧
  (f64.leb w0 f64.zero || f64.leb h0 f64.zero = true →
   run = (opening engine data
            ++ [call_is_image_empty t; call_get_image_size t]
            ++ closing engine t,
          Return (None, Some err_invalid_natural_dimensions)) ∧
   List.filter is_render_call run.1 = []) ∧
  (Width size = f32.of_Z 50 → Height size = f32.of_Z 50 →
   (width = 200%N → height = 100%N →
    scale = f64.of_Z 2 ∧ tx = f64.of_Z 50 ∧ ty = f64.zero ∧
    transform = mkTransform (f32.of_Z 2) f32.zero f32.zero (f32.of_Z 2)
                  (f32.of_Z 50) f32.zero) ∧
   (width = 100%N → height = 200%N →
    scale = f64.of_Z 2 ∧ tx = f64.zero ∧ ty = f64.of_Z 50 ∧
    transform = mkTransform (f32.of_Z 2) f32.zero f32.zero (f32.of_Z 2)
                  f32.zero (f32.of_Z 50))).
Proof.
  intros Hp He Hwidth Hheight size w0 h0 W H scale tx ty transform run.
  pose proof (RenderScaledToSize_parsed data t width height Hp He) as Hrun.
  cbv zeta in Hrun. fold size w0 h0 in Hrun.
  change (letterbox_transform (letterbox w0 h0 width height))
    with transform in Hrun.
  fold run in Hrun.
  set (rendered := RenderTree_Render engine heap_grants (mkRenderTree (Some t))
                     transform width height) in *.
  assert (Hopen : List.filter is_render_call (opening engine data) = [])
    by reflexivity.
  assert (Hclose : List.filter is_render_call (closing engine t) = [])
    by reflexivity.
  split; [|split].
  - intros Hw Hh.
    rewrite (positive_not_le_zero w0), (positive_not_le_zero h0) in Hrun
      by done.
    cbn [orb] in Hrun. split; [|split].
    + assert (Hsx : nonneg (f64.div W w0) = true).
      { apply f64_div_nonneg; [|done].
        by apply float64_of_uint32_finite_nonneg. }
      assert (Hsy : nonneg (f64.div H h0) = true).
      { apply f64_div_nonneg; [|done].
        by apply float64_of_uint32_finite_nonneg. }
      destruct (math_Min_nonneg _ _ Hsx Hsy) as (Hpick & Hle1 & Hle2 & _).
      done.
    + rewrite Hrun. cbn [fst].
      rewrite !List.filter_app, Hopen. cbn [List.filter is_render_call app].
      assert (Htail : List.filter is_render_call
                        (if unwinds rendered.2 then closing engine t else [])
                      = []) by (by destruct (unwinds _)).
      rewrite Htail, app_nil_r.
      destruct (Render_method_log t transform width height) as [Hl | Hl];
        fold rendered in Hl; rewrite Hl; [by left | by right].
    + intros Hok.
      destruct (Render_method_ok engine heap_grants t transform width height Hok)
        as (raw & img & Hraw & _ & Hbytes & Hout & Hshape & Hpx & HR).
      exists raw, img. do 5 (split; [done|]).
      fold rendered in HR. rewrite Hrun, HR. cbn [fst snd unwinds]. done.
  - intros Hdeg. rewrite Hdeg in Hrun. rewrite Hrun. split; [done|].
    cbn [fst]. rewrite !List.filter_app, Hopen, Hclose. done.
  - intros HW HH. subst transform scale tx ty w0 h0 W H.
    rewrite HW, HH. split; intros -> ->; vm_compute; done.
Qed.

End Scaled.

(** ** The entry points, case by case *)

Section EntryPoints.
Context {c_options c_tree : Type}.
Variable engine : Engine c_options c_tree.
Variable uint32_overflow : float32 → uint32.
Variable heap_grants : Z → bool.

Lemma with_tree_cases {R} (data : list uint8)
    (body : RenderTree → go (option R * option error)) :
  with_tree engine data body =
  match data with
  | [] =>
      ([call_options_create;
        call_options_load_system_fonts (resvg_options_create engine);
        call_options_destroy (loaded_options engine)],
       Return (None, Some err_empty_data))
  | _ =>
      let r := resvg_parse_tree_from_data engine data (loaded_options engine) in
      match cErrorToGoError r.1 with
      | Some err =>
          (opening engine data ++ [call_options_destroy (loaded_options engine)],
           Return (None, Some err))
      | None =>
          if resvg_is_image_empty engine r.2
          then (opening engine data ++ [call_is_image_empty r.2]
                  ++ closing engine r.2,
                Return (None, Some err_no_renderable))
          else
            let b := body (mkRenderTree (Some r.2)) in
            (opening engine data ++ [call_is_image_empty r.2] ++ b.1
               ++ (if unwinds b.2 then closing engine r.2 else []), b.2)
      end
  end.
Proof.
  destruct data as [|d data]; [reflexivity|].
  cbv zeta.
  destruct (resvg_parse_tree_from_data engine (d :: data) (loaded_options engine))
    as [res t] eqn:Hparse.
  cbn [fst snd].
  destruct (cErrorToGoError res) as [e|] eqn:Hres.
  - unfold with_tree. cbn. fold (loaded_options engine). rewrite Hparse. cbn.
    rewrite Hres. cbn. done.
  - assert (res = RESVG_OK) as -> by (by destruct res).
    by rewrite (with_tree_parsed engine (d :: data) t).
Qed.

Lemma canvas_ok_cases (width height : uint32) :
  canvas_ok heap_grants width height =
  negb (canvas_panics width height)
  && heap_grants (4 * Z.of_N width * Z.of_N height).
Proof.
  unfold canvas_ok, canvas_panics.
  destruct (Z.ltb_spec 0 (Z.of_N width)), (Z.ltb_spec 0 (Z.of_N height)),
    (Z.eqb_spec (Z.of_N width) 0), (Z.eqb_spec (Z.of_N height) 0),
    (Z.leb_spec (4 * Z.of_N width * Z.of_N height) image.maxAlloc),
    (Z.ltb_spec image.maxAlloc (4 * Z.of_N width * Z.of_N height));
    cbn; (done || lia).
Qed.

(** The method [Render] on a tree, by cases on the canvas: a panic before
    the engine is reached, the process out of memory, or the one engine
    call and an image of the requested shape. *)
Lemma Render_method_cases (hd : c_tree) (tr : Transform)
    (width height : uint32) :
  let run := RenderTree_Render engine heap_grants (mkRenderTree (Some hd)) tr
               width height in
  (canvas_panics width height = true ∧ run = ([], Panic))
  ∨
  (canvas_panics width height = false ∧
   heap_grants (4 * Z.of_N width * Z.of_N height) = false ∧
   run = ([], Fatal))
  ∨
  (canvas_ok heap_grants width height = true ∧
   ∃ img,
     run = ([call_render hd tr width height], Return img) ∧
     canvas_shaped (Z.of_N width) (Z.of_N height) img).
Proof.
  cbv zeta. destruct (canvas_ok heap_grants width height) eqn:Hok.
  { right; right. split; [done|].
    destruct (Render_method_ok engine heap_grants hd tr width height Hok)
      as (raw & img & _ & _ & _ & _ & Hshape & _ & HR).
    by exists img. }
  rewrite canvas_ok_cases in Hok.
  rewrite Render_method_eq, new_canvas_eq.
  unfold canvas_panics in *.
  destruct (Z.ltb_spec image.maxAlloc (4 * Z.of_N width * Z.of_N height))
    as [Hbig | Hfit].
  { left. by rewrite orb_true_r. }
  rewrite orb_false_r in *. unfold granted. cbn [image.Pix].
  rewrite length_replicate, Z2Nat.id by lia.
  destruct (Z.eqb_spec (Z.of_N width) 0) as [Hw | Hw].
  { left. split; [done|]. rewrite Hw, Z.mul_0_r, Z.mul_0_l. done. }
  destruct (Z.eqb_spec (Z.of_N height) 0) as [Hh | Hh].
  { left. split; [done|]. rewrite Hh, Z.mul_0_r. done. }
  cbn [orb negb andb] in Hok. right; left. do 2 (split; [done|]).
  destruct (Z.eqb_spec (4 * Z.of_N width * Z.of_N height) 0); [lia|].
  cbn [orb]. by rewrite Hok.
Qed.

Lemma RenderWithSize_tail (t : c_tree) (width height : uint32) :
  (identity ← IdentityTransform;
   img ← RenderTree_Render engine heap_grants (mkRenderTree (Some t)) identity
            width height;
   go_ret (Some img, None (A:=error)))
  = let r := RenderTree_Render engine heap_grants (mkRenderTree (Some t))
               resvg_transform_identity width height in
    (call_transform_identity :: r.1, wrap_image r.2).
Proof.
  unfold IdentityTransform. rewrite bind_foreign, bind_Render_method.
  cbv zeta. by destruct (RenderTree_Render _ _ _ _ _ _) as [l [img| |]].
Qed.

Lemma Render_tail (t : c_tree) :
  (size ← GetImageSize engine (mkRenderTree (Some t));
   if f32.leb (Width size) f32.zero || f32.leb (Height size) f32.zero
   then go_ret (None, Some err_invalid_dimensions)
   else
     identity ← IdentityTransform;
     img ← RenderTree_Render engine heap_grants (mkRenderTree (Some t)) identity
              (uint32_of_float32 uint32_overflow (Width size))
              (uint32_of_float32 uint32_overflow (Height size));
     go_ret (Some img, None))
  = tail_of engine uint32_overflow heap_grants (conv_Render []) t.
Proof.
  unfold GetImageSize, tail_of. cbn [cTree].
  rewrite bind_handle_Some, bind_foreign. cbv zeta.
  destruct (f32.leb _ _ || f32.leb _ _); [done|].
  rewrite RenderWithSize_tail. done.
Qed.

Lemma RenderScaledToSize_tail (t : c_tree) (width height : uint32) :
  (naturalSize ← GetImageSize engine (mkRenderTree (Some t));
   let naturalW := float64_of_float32 (Width naturalSize) in
   let naturalH := float64_of_float32 (Height naturalSize) in
   if f64.leb naturalW f64.zero || f64.leb naturalH f64.zero
   then go_ret (None, Some err_invalid_natural_dimensions)
   else
     let transform :=
       letterbox_transform (letterbox naturalW naturalH width height) in
     img ← RenderTree_Render engine heap_grants (mkRenderTree (Some t)) transform
              width height;
     go_ret (Some img, None))
  = tail_of engine uint32_overflow heap_grants
      (conv_RenderScaledToSize [] width height) t.
Proof.
  unfold GetImageSize, tail_of. cbn [cTree].
  rewrite bind_handle_Some, bind_foreign. cbv zeta.
  destruct (f64.leb _ _ || f64.leb _ _); [done|].
  rewrite bind_Render_method. cbv zeta.
  by destruct (RenderTree_Render _ _ _ _ _ _) as [l [img| |]].
Qed.

(** Every run of an entry point, by cases on the input, the parser's
    answer and the emptiness test. *)
Lemma run_convenience_cases (c : convenience) :
  run_convenience engine uint32_overflow heap_grants c =
  let data := convenience_data c in
  match data with
  | [] =>
      ([call_options_create;
        call_options_load_system_fonts (resvg_options_create engine);
        call_options_destroy (loaded_options engine)],
       Return (None, Some err_empty_data))
  | _ =>
      let r := resvg_parse_tree_from_data engine data (loaded_options engine) in
      match cErrorToGoError r.1 with
      | Some err =>
          (opening engine data ++ [call_options_destroy (loaded_options engine)],
           Return (None, Some err))
      | None =>
          if resvg_is_image_empty engine r.2
          then (opening engine data ++ [call_is_image_empty r.2]
                  ++ closing engine r.2,
                Return (None, Some err_no_renderable))
          else
            let b := tail_of engine uint32_overflow heap_grants c r.2 in
            (opening engine data ++ [call_is_image_empty r.2] ++ b.1
               ++ (if unwinds b.2 then closing engine r.2 else []),
             b.2)
      end
  end.
Proof.
  destruct c as [data | data w h | data w h]; unfold run_convenience;
    rewrite ?Render_with_tree, ?RenderWithSize_with_tree,
      ?RenderScaledToSize_with_tree, with_tree_cases;
    cbn [convenience_data]; cbv zeta;
    destruct data as [|d data]; try reflexivity;
    destruct (cErrorToGoError _); try reflexivity;
    destruct (resvg_is_image_empty _ _); try reflexivity.
  - by rewrite Render_tail.
  - by rewrite RenderWithSize_tail.
  - by rewrite RenderScaledToSize_tail.
Qed.

Lemma tail_of_shape (c : convenience) (t : c_tree) :
  let b := tail_of engine uint32_overflow heap_grants c t in
  List.filter is_create_call b.1 = [] ∧
  List.filter is_destroy_call b.1 = [] ∧
  ∀ img err, b.2 = Return (img, err) → (is_Some img ↔ err = None).
Proof.
  assert (Hm : ∀ tr w h,
    let r := RenderTree_Render engine heap_grants (mkRenderTree (Some t)) tr
               w h in
    List.filter is_create_call r.1 = [] ∧
    List.filter is_destroy_call r.1 = [] ∧
    ∀ img err, wrap_image r.2 = Return (img, err) →
      (is_Some img ↔ err = None)).
  { intros tr w h.
    destruct (Render_method_cases t tr w h)
      as [[_ ->] | [(_ & _ & ->) | [_ (img & -> & _)]]]; cbn.
    - do 2 (split; [done|]). intros ? ? [=].
    - do 2 (split; [done|]). intros ? ? [=].
    - do 2 (split; [done|]). intros ? ? [= <- <-]. split; [done|by eexists]. }
  destruct c as [data | data w h | data w h]; unfold tail_of; cbv zeta.
  - destruct (f32.leb _ _ || f32.leb _ _).
    + do 2 (split; [done|]). intros ? ? [= <- <-].
      split; [by intros [? [=]] | done].
    + destruct (Hm resvg_transform_identity
                  (uint32_of_float32 uint32_overflow
                     (Width (resvg_get_image_size engine t)))
                  (uint32_of_float32 uint32_overflow
                     (Height (resvg_get_image_size engine t))))
        as (H1 & H2 & H3).
      cbn [fst snd List.filter is_create_call is_destroy_call]. done.
  - destruct (Hm resvg_transform_identity w h) as (H1 & H2 & H3).
    cbn [fst snd List.filter is_create_call is_destroy_call]. done.
  - destruct (f64.leb _ _ || f64.leb _ _).
    + do 2 (split; [done|]). intros ? ? [= <- <-].
      split; [by intros [? [=]] | done].
    + match goal with
      | |- context [RenderTree_Render engine heap_grants _ ?tr w h] =>
          destruct (Hm tr w h) as (H1 & H2 & H3)
      end.
      cbn [fst snd List.filter is_create_call is_destroy_call]. done.
Qed.

(** X1.  In every run of [Render], [RenderWithSize] and
    [RenderScaledToSize] the options handle is created exactly once.  When
    the run returns or panics, every handle it obtained is released
    exactly once, the tree before the options, by the deferred calls, and
    the release of the options is the last call of the run; a run the
    runtime ends with a fatal error releases nothing. *)
Theorem handles_released_once (c : convenience) :
  let run := run_convenience engine uint32_overflow heap_grants c in
  List.filter is_create_call run.1 = [call_options_create] ∧
  List.filter is_destroy_call run.1 =
    (if unwinds run.2 then
       match parsed_tree engine (convenience_data c) with
       | Some t => closing engine t
       | None => [call_options_destroy (loaded_options engine)]
       end
     else []) ∧
  (unwinds run.2 = true →
   last run.1 = Some (call_options_destroy (loaded_options engine))).
Proof.
  rewrite run_convenience_cases. unfold parsed_tree. cbv zeta.
  destruct (convenience_data c) as [|d data]; [done|].
  destruct (resvg_parse_tree_from_data engine (d :: data)
              (loaded_options engine)) as [res t].
  cbn [fst snd].
  destruct (cErrorToGoError res) as [e|] eqn:Hres.
  - assert (match res with RESVG_OK => False | _ => True end)
      by (by destruct res).
    destruct res; done.
  - assert (res = RESVG_OK) as -> by (by destruct res).
    destruct (resvg_is_image_empty engine t); [done|].
    destruct (tail_of_shape c t) as (H1 & H2 & _).
    cbv zeta in H1, H2. cbn [fst snd]. unfold opening, closing.
    split; [|split].
    + cbn [app List.filter is_create_call].
      rewrite !List.filter_app, H1. by destruct (unwinds _).
    + cbn [app List.filter is_destroy_call].
      rewrite !List.filter_app, H2. by destruct (unwinds _).
    + intros ->.
      change [call_tree_destroy t; call_options_destroy (loaded_options engine)]
        with ([call_tree_destroy t] ++ [call_options_destroy (loaded_options engine)]).
      rewrite !app_assoc. apply last_snoc.
Qed.

Lemma run_convenience_xor (c : convenience)
    (log : list (ccall c_options c_tree)) (img : option image.RGBA)
    (err : option error) :
  run_convenience engine uint32_overflow heap_grants c
    = (log, Return (img, err)) →
  (is_Some img ↔ err = None).
Proof.
  rewrite run_convenience_cases. cbv zeta.
  destruct (convenience_data c) as [|d data].
  { intros [= <- <- <-]. split; [by intros [? [=]] | done]. }
  destruct (cErrorToGoError _).
  { intros [= <- <- <-]. split; [by intros [? [=]] | done]. }
  destruct (resvg_is_image_empty _ _).
  { intros [= <- <- <-]. split; [by intros [? [=]] | done]. }
  intros [= _ H]. eapply tail_of_shape, H.
Qed.

(** X2.  Whenever one of the three entry points returns, exactly one of
    the image and the error is nil. *)
Theorem image_xor_error (c : convenience)
    (log : list (ccall c_options c_tree)) (img : option image.RGBA)
    (err : option error) :
  run_convenience engine uint32_overflow heap_grants c
    = (log, Return (img, err)) →
  (is_Some img ↔ err = None).
Proof. apply run_convenience_xor. Qed.

(** X3.  On empty input each of the three entry points returns
    (nil, "empty data") after creating the options, loading the system
    fonts and releasing the options: the parser is not called. *)
Theorem empty_input_skips_parser (c : convenience) :
  convenience_data c = [] →
  run_convenience engine uint32_overflow heap_grants c
  = ([call_options_create;
      call_options_load_system_fonts (resvg_options_create engine);
      call_options_destroy (loaded_options engine)],
     Return (None, Some err_empty_data)).
Proof. intros H. rewrite run_convenience_cases. cbv zeta. by rewrite H. Qed.

(** X4.  When the engine's parser answers with an error code, each of the
    three entry points returns a nil image and that code's error, the
    options are released, and no tree is queried, rendered or released. *)
Theorem parse_error_propagates (c : convenience) (code : resvg_error)
    (t : c_tree) :
  convenience_data c ≠ [] →
  resvg_parse_tree_from_data engine (convenience_data c)
    (loaded_options engine) = (code, t) →
  code ≠ RESVG_OK →
  run_convenience engine uint32_overflow heap_grants c
  = (opening engine (convenience_data c)
       ++ [call_options_destroy (loaded_options engine)],
     Return (None, cErrorToGoError code)).
Proof.
  intros Hne Hparse Hcode. rewrite run_convenience_cases. cbv zeta.
  destruct (convenience_data c) as [|d data]; [done|].
  rewrite Hparse. cbn [fst snd]. by destruct code.
Qed.

Lemma method_returns (t : RenderTree) (tr : Transform)
    (width height : uint32) (log : list (ccall c_options c_tree))
    (img : image.RGBA) :
  RenderTree_Render engine heap_grants t tr width height = (log, Return img) →
  canvas_ok heap_grants width height = true ∧
  canvas_shaped (Z.of_N width) (Z.of_N height) img.
Proof.
  intros H.
  destruct (Render_method_inv engine heap_grants _ _ _ _ _ _ H)
    as (hd & raw & Hhd & _ & _ & Hs & Hc).
  destruct t as [[hd'|]]; [|done]. injection Hhd as ->.
  destruct (Render_method_cases hd tr width height)
    as [[_ Hp] | [(_ & _ & Hp) | [Hok (img' & Hrun & Hs')]]];
    cbv zeta in *; [congruence..|].
  split; [done|]. congruence.
Qed.

(** X5.  On an allocated canvas [RenderNode] makes one engine call, for
    the C string of the identifier, and follows its verdict: the engine's
    buffer with the alpha pass applied and a nil error when the engine
    reports success, a nil image and the failed-to-render-node error when
    it does not. *)
Theorem RenderNode_follows_engine (hd : c_tree) (id : string) (tr : Transform)
    (width height : uint32) :
  canvas_ok heap_grants width height = true →
  let call := call_render_node hd (C_CString id) tr width height in
  ∃ raw img,
    raw_buffer engine call = Some raw ∧
    convertFromPremultiplied raw = Some img ∧
    canvas_shaped (Z.of_N width) (Z.of_N height) img ∧
    RenderTree_RenderNode engine heap_grants (mkRenderTree (Some hd)) id tr
      width height
      = ([call],
         Return (if (resvg_render_node engine hd (C_CString id) tr
                       width height).1
                 then (Some img, None)
                 else (None, Some (Errorf_failed_to_render_node id)))).
Proof.
  intros Hok call. unfold call. rewrite RenderNode_eq. unfold raw_buffer.
  destruct (new_canvas_ok _ _ _ Hok) as (canvas & Hc & Hs & Hi & Hg).
  rewrite Hc. unfold granted. rewrite Hg, orb_true_r. cbn [negb].
  rewrite Hi. cbn [cTree fmap option_fmap option_map]. cbv zeta.
  destruct (convert_shaped (Z.of_N width) (Z.of_N height)
              (store (resvg_render_node engine hd (C_CString id) tr
                        width height).2 canvas)) as (out & Hout & Hs' & _).
  { by apply store_shaped. }
  eexists _, out. do 3 (split; [done|]). rewrite Hout.
  by destruct (resvg_render_node engine hd (C_CString id) tr width height).1.
Qed.

Lemma RenderNode_returns (t : RenderTree) (id : string) (tr : Transform)
    (width height : uint32) (log : list (ccall c_options c_tree))
    (img : image.RGBA) (err : option error) :
  RenderTree_RenderNode engine heap_grants t id tr width height
    = (log, Return (Some img, err)) →
  canvas_ok heap_grants width height = true ∧
  canvas_shaped (Z.of_N width) (Z.of_N height) img.
Proof.
  intros H.
  destruct (RenderNode_inv engine heap_grants _ _ _ _ _ _ _ _ H)
    as (hd & raw & Hhd & _ & _ & Hraw & Hs & Hc).
  destruct (convert_shaped _ _ raw Hs) as (out & Hout & Hs' & _).
  assert (out = img) as -> by congruence. split; [|done].
  rewrite RenderNode_eq, new_canvas_eq in H.
  rewrite canvas_ok_cases. unfold canvas_panics.
  destruct (Z.ltb_spec image.maxAlloc (4 * Z.of_N width * Z.of_N height));
    [done|].
  unfold granted in H. cbn [image.Pix] in H.
  rewrite length_replicate, Z2Nat.id in H by lia.
  destruct (Z.eqb_spec (Z.of_N width) 0) as [Hw | Hw].
  { rewrite Hw, Z.mul_0_r, Z.mul_0_l in H. done. }
  destruct (Z.eqb_spec (Z.of_N height) 0) as [Hh | Hh].
  { rewrite Hh, Z.mul_0_r in H. done. }
  destruct (Z.eqb_spec (4 * Z.of_N width * Z.of_N height) 0); [lia|].
  cbn [orb negb andb] in *.
  by destruct (heap_grants (4 * Z.of_N width * Z.of_N height)).
Qed.

(** X6.  Every image a render call returns has bounds
    (0,0)-(width,height), stride [4 * width] and [4 * width * height]
    bytes, where width and height are the sizes the call was given, and
    for [Render] the natural size of the parsed document with each
    component cut to an integer; and that canvas was allocated. *)
Theorem returned_image_size (e : render_entry)
    (log : list (ccall c_options c_tree)) (img : image.RGBA) :
  run_entry engine uint32_overflow heap_grants e = (log, Return (Some img)) →
  ∃ width height,
    entry_canvas engine uint32_overflow e = Some (width, height) ∧
    canvas_ok heap_grants width height = true ∧
    image.Bounds img = image.Rect 0 0 (Z.of_N width) (Z.of_N height) ∧
    image.Stride img = 4 * Z.of_N width ∧
    length (image.Pix img) = Z.to_nat (4 * Z.of_N width * Z.of_N height).
Proof.
  assert (Hshape : ∀ w h, canvas_ok heap_grants w h = true ∧
            canvas_shaped (Z.of_N w) (Z.of_N h) img →
            canvas_ok heap_grants w h = true ∧
            image.Bounds img = image.Rect 0 0 (Z.of_N w) (Z.of_N h) ∧
            image.Stride img = 4 * Z.of_N w ∧
            length (image.Pix img) = Z.to_nat (4 * Z.of_N w * Z.of_N h)).
  { by intros w h (Hok & _ & _ & HS & HB & Hl). }
  assert (Hconv : ∀ c l err w h,
    run_convenience engine uint32_overflow heap_grants c
      = (l, Return (Some img, err)) →
    (∀ t, parsed_tree engine (convenience_data c) = Some t →
          ∀ l', tail_of engine uint32_overflow heap_grants c t
                = (l', Return (Some img, err)) →
          canvas_ok heap_grants w h = true ∧
          canvas_shaped (Z.of_N w) (Z.of_N h) img) →
    canvas_ok heap_grants w h = true ∧ canvas_shaped (Z.of_N w) (Z.of_N h) img).
  { intros c l err w h Hrun Htail. rewrite run_convenience_cases in Hrun.
    cbv zeta in Hrun. unfold parsed_tree in Htail.
    destruct (convenience_data c) as [|d data]; [done|].
    destruct (resvg_parse_tree_from_data engine (d :: data)
                (loaded_options engine)) as [res t].
    cbn [fst snd] in Hrun.
    destruct (cErrorToGoError res) eqn:Hres; [done|].
    assert (res = RESVG_OK) as -> by (by destruct res).
    destruct (resvg_is_image_empty engine t); [done|].
    injection Hrun as _ Hrun.
    apply (Htail t eq_refl (tail_of engine uint32_overflow heap_grants c t).1).
    by destruct (tail_of engine uint32_overflow heap_grants c t) as [l' r'];
      cbn in *; subst. }
  destruct e as [t tr w h | t id tr w h | data | data w h | data w h];
    unfold run_entry; intros H.
  - destruct (RenderTree_Render engine heap_grants t tr w h)
      as [l [v| |]] eqn:HR; cbn in H; [|discriminate H..].
    injection H as <- <-.
    exists w, h. split; [done|]. by eapply Hshape, method_returns.
  - destruct (RenderTree_RenderNode engine heap_grants t id tr w h)
      as [l [[oi oe]| |]] eqn:HR; cbn in H; [|discriminate H..].
    injection H as <- ->.
    exists w, h. split; [done|]. by eapply Hshape, RenderNode_returns.
  - destruct (Render engine uint32_overflow heap_grants data)
      as [l [[oi oe]| |]] eqn:HR; cbn in H; [|discriminate H..].
    injection H as <- ->.
    change (Render engine uint32_overflow heap_grants data)
      with (run_convenience engine uint32_overflow heap_grants
              (conv_Render data)) in HR.
    cbn [entry_canvas].
    destruct (parsed_tree engine data) as [t|] eqn:Hpt.
    + eexists _, _. split; [done|]. apply Hshape.
      eapply Hconv; [exact HR|]. cbn [convenience_data].
      intros t' Ht' l' Htail. assert (t' = t) as -> by congruence.
      unfold tail_of in Htail. cbv zeta in Htail.
      destruct (f32.leb _ _ || f32.leb _ _); [done|].
      destruct (RenderTree_Render _ _ _ _ _ _) as [l2 [v| |]] eqn:HR2;
        [|done..]. cbn in Htail. injection Htail as _ <-.
      by eapply method_returns.
    + exfalso. rewrite run_convenience_cases in HR. cbv zeta in HR.
      cbn [convenience_data] in HR. unfold parsed_tree in Hpt.
      destruct data as [|d data]; [done|].
      destruct (resvg_parse_tree_from_data engine (d :: data)
                  (loaded_options engine)) as [res t].
      cbn [fst snd] in HR. destruct res; done.
  - destruct (RenderWithSize engine heap_grants data w h)
      as [l [[oi oe]| |]] eqn:HR; cbn in H; [|discriminate H..].
    injection H as <- ->.
    change (RenderWithSize engine heap_grants data w h)
      with (run_convenience engine uint32_overflow heap_grants
              (conv_RenderWithSize data w h)) in HR.
    exists w, h. split; [done|]. apply Hshape.
    eapply Hconv; [exact HR|]. intros t _ l' Htail.
    unfold tail_of in Htail. cbv zeta in Htail.
    destruct (RenderTree_Render _ _ _ _ _ _) as [l2 [v| |]] eqn:HR2; [|done..].
    cbn in Htail. injection Htail as _ <-. by eapply method_returns.
  - destruct (RenderScaledToSize engine heap_grants data w h)
      as [l [[oi oe]| |]] eqn:HR; cbn in H; [|discriminate H..].
    injection H as <- ->.
    change (RenderScaledToSize engine heap_grants data w h)
      with (run_convenience engine uint32_overflow heap_grants
              (conv_RenderScaledToSize data w h)) in HR.
    exists w, h. split; [done|]. apply Hshape.
    eapply Hconv; [exact HR|]. intros t _ l' Htail.
    unfold tail_of in Htail. cbv zeta in Htail.
    destruct (f64.leb _ _ || f64.leb _ _); [done|].
    destruct (RenderTree_Render _ _ _ _ _ _) as [l2 [v| |]] eqn:HR2; [|done..].
    cbn in Htail. injection Htail as _ <-. by eapply method_returns.
Qed.

Lemma uint32_of_float32_zero (f : float32) :
  float_trunc f = Some 0 → uint32_of_float32 uint32_overflow f = 0%N.
Proof. intros H. unfold uint32_of_float32. by rewrite H. Qed.

Lemma canvas_panics_zero (width height : uint32) :
  width = 0%N ∨ height = 0%N → canvas_panics width height = true.
Proof.
  intros [-> | ->]; unfold canvas_panics; [done|].
  by rewrite orb_true_r.
Qed.

(** X7.  [Render], on a document with content whose natural size is
    positive and gives an allocated canvas, asks the engine for the size,
    renders once with the identity transform on a canvas of the natural
    size cut to integers, releases both handles and returns the image. *)
Theorem Render_natural_size (data : list uint8) (t : c_tree) :
  parses engine data t →
  resvg_is_image_empty engine t = false →
  let size := resvg_get_image_size engine t in
  let width := uint32_of_float32 uint32_overflow (Width size) in
  let height := uint32_of_float32 uint32_overflow (Height size) in
  f32.leb (Width size) f32.zero || f32.leb (Height size) f32.zero = false →
  canvas_ok heap_grants width height = true →
  ∃ img,
    canvas_shaped (Z.of_N width) (Z.of_N height) img ∧
    Render engine uint32_overflow heap_grants data
    = (opening engine data
         ++ [call_is_image_empty t; call_get_image_size t;
             call_transform_identity;
             call_render t resvg_transform_identity width height]
         ++ closing engine t,
       Return (Some img, None)).
Proof.
  intros Hp He size width height Hpos Hok.
  destruct (Render_method_ok engine heap_grants t resvg_transform_identity
              width height Hok)
    as (raw & img & _ & _ & _ & _ & Hs & _ & HR).
  exists img. split; [done|].
  rewrite Render_with_tree, (with_tree_parsed _ _ t), He by done.
  cbv zeta. rewrite Render_tail. unfold tail_of. cbv zeta. fold size.
  rewrite Hpos. fold width height. rewrite HR. done.
Qed.

(** X8.  [Render] panics on a document whose natural width or height is
    positive but below one: the size passes the check, [uint32] cuts it
    to zero, the pixel slice is empty and taking the address of its first
    byte panics, before the engine is asked to render.  The deferred
    calls still release both handles. *)
Theorem Render_subunit_size_panics (data : list uint8) (t : c_tree) :
  parses engine data t →
  resvg_is_image_empty engine t = false →
  let size := resvg_get_image_size engine t in
  f32.leb (Width size) f32.zero || f32.leb (Height size) f32.zero = false →
  float_trunc (Width size) = Some 0 ∨ float_trunc (Height size) = Some 0 →
  Render engine uint32_overflow heap_grants data
  = (opening engine data
       ++ [call_is_image_empty t; call_get_image_size t;
           call_transform_identity]
       ++ closing engine t,
     Panic).
Proof.
  intros Hp He size Hpos Hsmall.
  assert (Hno : canvas_panics (uint32_of_float32 uint32_overflow (Width size))
                  (uint32_of_float32 uint32_overflow (Height size)) = true).
  { apply canvas_panics_zero.
    destruct Hsmall as [H | H]; [left | right];
      by apply uint32_of_float32_zero. }
  destruct (Render_method_cases t resvg_transform_identity
              (uint32_of_float32 uint32_overflow (Width size))
              (uint32_of_float32 uint32_overflow (Height size)))
    as [[_ HR] | [(Hc & _) | [Hok _]]]; cbv zeta in *.
  - rewrite Render_with_tree, (with_tree_parsed _ _ t), He by done.
    cbv zeta. rewrite Render_tail. unfold tail_of. cbv zeta. fold size.
    rewrite Hpos, HR. done.
  - congruence.
  - rewrite canvas_ok_cases, Hno in Hok. done.
Qed.

(** X9.  A canvas the wrapper cannot get.  When a side is zero or the
    buffer would exceed [maxAlloc] bytes, the method [Render] panics
    before any engine call and [RenderWithSize] panics after the identity
    transform was fetched, with both handles released.  When the sizes
    are in range but the runtime finds no memory, the process ends there:
    no render call is made and no handle is released. *)
Theorem refused_canvas (data : list uint8) (t : c_tree)
    (width height : uint32) :
  parses engine data t →
  resvg_is_image_empty engine t = false →
  (canvas_panics width height = true →
   (∀ tr, RenderTree_Render engine heap_grants (mkRenderTree (Some t)) tr
            width height = ([], Panic)) ∧
   RenderWithSize engine heap_grants data width height
   = (opening engine data
        ++ [call_is_image_empty t; call_transform_identity]
        ++ closing engine t,
      Panic)) ∧
  (canvas_panics width height = false →
   heap_grants (4 * Z.of_N width * Z.of_N height) = false →
   (∀ tr, RenderTree_Render engine heap_grants (mkRenderTree (Some t)) tr
            width height = ([], Fatal)) ∧
   RenderWithSize engine heap_grants data width height
   = (opening engine data
        ++ [call_is_image_empty t; call_transform_identity],
      Fatal)).
Proof.
  intros Hp He. split.
  - intros Hno.
    assert (HR : ∀ tr, RenderTree_Render engine heap_grants
                         (mkRenderTree (Some t)) tr width height = ([], Panic)).
    { intros tr. destruct (Render_method_cases t tr width height)
        as [[_ HR] | [(Hc & _) | [Hok _]]]; cbv zeta in *;
        [done|congruence|].
      rewrite canvas_ok_cases, Hno in Hok. done. }
    split; [done|].
    rewrite RenderWithSize_with_tree, (with_tree_parsed _ _ t), He by done.
    cbv zeta. rewrite RenderWithSize_tail. cbv zeta. rewrite HR. done.
  - intros Hfits Hheap.
    assert (HR : ∀ tr, RenderTree_Render engine heap_grants
                         (mkRenderTree (Some t)) tr width height = ([], Fatal)).
    { intros tr. destruct (Render_method_cases t tr width height)
        as [[Hc _] | [(_ & _ & HR) | [Hok _]]]; cbv zeta in *;
        [congruence|done|].
      rewrite canvas_ok_cases, Hheap, andb_false_r in Hok. done. }
    split; [done|].
    rewrite RenderWithSize_with_tree, (with_tree_parsed _ _ t), He by done.
    cbv zeta. rewrite RenderWithSize_tail. cbv zeta. rewrite HR.
    cbn [fst snd wrap_image unwinds]. by rewrite app_nil_r.
Qed.

(** X10.  [ParseFromData] on non-empty data: with nil options it panics
    before any engine call; with options it makes one parser call and
    returns the tree when the engine answers OK, and otherwise a nil tree
    with the error of the code. *)
Theorem ParseFromData_outcomes (data : list uint8) :
  data ≠ [] →
  ParseFromData engine data None = ([], Panic) ∧
  ∀ o : c_options,
    let r := resvg_parse_tree_from_data engine data o in
    ParseFromData engine data (Some (mkOptions (Some o))) =
    ([call_parse_tree_from_data data o],
     Return match r.1 with
            | RESVG_OK => (Some (mkRenderTree (Some r.2)), None)
            | code => (None, cErrorToGoError code)
            end).
Proof.
  intros Hne. split; [by destruct data|].
  intros o r.
  rewrite ParseFromData_eq. destruct data; [done|]. cbv zeta.
  cbn [length Nat.eqb]. subst r.
  by destruct (resvg_parse_tree_from_data _ _ _).1.
Qed.

End EntryPoints.

(** ** More on the alpha pass *)

Lemma unpremultiply_ge (c a : uint32) :
  (c ≤ 255)%N → (0 < a ≤ 255)%N → (c ≤ unpremultiply c a)%N.
Proof.
  intros Hc Ha. rewrite unpremultiply_floor by done.
  apply N.min_glb; [done|].
  apply N.div_le_lower_bound; [lia|nia].
Qed.

Lemma unpremultiply_full (c a : uint32) :
  (c ≤ 255)%N → (0 < a < 255)%N →
  (unpremultiply c a = 255%N ↔ (a ≤ c)%N).
Proof.
  intros Hc Ha. rewrite unpremultiply_floor by done.
  split.
  - intros H.
    assert (H255 : (255 ≤ c * 255 / a)%N) by lia.
    destruct (N.le_gt_cases a c) as [|Hlt]; [done|].
    assert (c * 255 / a < 255)%N; [|lia].
    apply N.Div0.div_lt_upper_bound. nia.
  - intros H.
    assert (255 ≤ c * 255 / a)%N; [|lia].
    apply N.div_le_lower_bound; [lia|nia].
Qed.

Lemma unpremultiply_zero (c a : uint32) :
  (c ≤ 255)%N → (0 < a < 255)%N →
  (unpremultiply c a = 0%N ↔ c = 0%N).
Proof.
  intros Hc Ha. rewrite unpremultiply_floor by done.
  split.
  - intros H. assert (H0 : (c * 255 / a = 0)%N) by lia.
    apply N.div_small_iff in H0; [|lia]. nia.
  - intros ->. done.
Qed.

Lemma unpremultiply_mono (c1 c2 a : uint32) :
  (c2 ≤ 255)%N → (c1 ≤ c2)%N →
  (unpremultiply c1 a ≤ unpremultiply c2 a)%N.
Proof.
  intros Hc H. rewrite !unpremultiply_floor by lia.
  apply N.min_le_compat_l, N.Div0.div_le_mono. nia.
Qed.

Lemma straight_byte_value (k : nat) (c a : uint8) :
  (k < 3)%nat → (0 < uint32_of_uint8 a < 255)%N →
  uint32_of_uint8 (straight_byte k c a)
  = unpremultiply (uint32_of_uint8 c) (uint32_of_uint8 a).
Proof.
  intros Hk Ha. rewrite straight_byte_convert by lia.
  apply uint32_of_uint8_of_uint32, unpremultiply_le_255.
Qed.

Lemma straight_byte_ge (k : nat) (c a : uint8) :
  (uint32_of_uint8 c ≤ uint32_of_uint8 (straight_byte k c a))%N.
Proof.
  pose proof (Byte.to_N_bounded c) as Hc.
  pose proof (Byte.to_N_bounded a) as Ha.
  unfold straight_byte.
  destruct (Nat.eqb_spec k 3); [done|].
  destruct (N.eqb_spec (uint32_of_uint8 a) 0); [done|].
  destruct (N.eqb_spec (uint32_of_uint8 a) 255); [done|].
  cbn [orb]. rewrite uint32_of_uint8_of_uint32 by apply unpremultiply_le_255.
  apply unpremultiply_ge; unfold uint32_of_uint8 in *; lia.
Qed.

(** Every offset of a shaped buffer lies in a whole pixel. *)
Lemma shaped_alpha_slot (w h : Z) (img : image.RGBA) (j : nat) (c : uint8) :
  canvas_shaped w h img →
  image.Pix img !! j = Some c →
  ∃ a, image.Pix img !! (4 * (j / 4) + 3)%nat = Some a.
Proof.
  intros (Hw & Hh & _ & _ & Hl) Hc. apply lookup_lt_Some in Hc.
  apply lookup_lt_is_Some_2. rewrite Hl in *.
  pose proof (Nat.div_mod_eq j 4). pose proof (Nat.mod_upper_bound j 4).
  assert (Z.to_nat (4 * w * h) = 4 * Z.to_nat (w * h))%nat by lia.
  lia.
Qed.

(** X11.  An image whose pixels are all fully opaque or fully
    transparent is left unchanged by [convertFromPremultiplied]. *)
Theorem convert_fixes_opaque_image (w h : Z) (img : image.RGBA) :
  canvas_shaped w h img →
  (∀ (p : nat) (a : uint8),
     image.Pix img !! (4 * p + 3)%nat = Some a →
     uint32_of_uint8 a = 0%N ∨ uint32_of_uint8 a = 255%N) →
  convertFromPremultiplied img = Some img.
Proof.
  intros Hs Halpha.
  destruct (convert_shaped w h img Hs) as (out & -> & Hs' & Hp).
  f_equal. pose proof Hs as Hs0.
  destruct Hs as (_ & _ & HS & HB & Hl), Hs' as (_ & _ & HS' & HB' & Hl').
  destruct img as [pix stride bounds], out as [pix' stride' bounds'].
  cbn in *. f_equal; [|congruence..].
  apply list_eq. intros j. rewrite Hp.
  destruct (pix !! j) as [c|] eqn:Hc.
  - destruct (shaped_alpha_slot w h _ j c Hs0 Hc) as [a Ha].
    cbn in Ha. rewrite (straight_at_Some pix j c a) by done.
    by rewrite straight_byte_keep by eauto.
  - unfold straight_at. by rewrite Hc.
Qed.

(** X12.  [convertFromPremultiplied] never lowers a byte. *)
Theorem convert_never_darkens (w h : Z) (img : image.RGBA) :
  canvas_shaped w h img →
  ∃ out,
    convertFromPremultiplied img = Some out ∧
    ∀ (j : nat) (c : uint8),
      image.Pix img !! j = Some c →
      ∃ c', image.Pix out !! j = Some c' ∧
            (uint32_of_uint8 c ≤ uint32_of_uint8 c')%N.
Proof.
  intros Hs. destruct (convert_shaped w h img Hs) as (out & Hout & _ & Hp).
  exists out. split; [done|]. intros j c Hc.
  destruct (shaped_alpha_slot w h img j c Hs Hc) as [a Ha].
  rewrite Hp, (straight_at_Some _ j c a) by done.
  eexists. split; [done|]. apply straight_byte_ge.
Qed.

(** X13.  For a pixel with 0 < a < 255, [convertFromPremultiplied]
    leaves 255 in a colour channel exactly when the channel was at least
    the alpha, and 0 exactly when it was 0. *)
Theorem convert_full_and_zero (w h : Z) (img : image.RGBA) :
  canvas_shaped w h img →
  ∃ out,
    convertFromPremultiplied img = Some out ∧
    ∀ (p k : nat) (c a : uint8),
      (k < 3)%nat →
      image.Pix img !! (4 * p + k)%nat = Some c →
      image.Pix img !! (4 * p + 3)%nat = Some a →
      (0 < uint32_of_uint8 a < 255)%N →
      ∃ c', image.Pix out !! (4 * p + k)%nat = Some c' ∧
        (uint32_of_uint8 c' = 255%N ↔ (uint32_of_uint8 a ≤ uint32_of_uint8 c)%N) ∧
        (uint32_of_uint8 c' = 0%N ↔ uint32_of_uint8 c = 0%N).
Proof.
  intros Hs. destruct (convert_shaped w h img Hs) as (out & Hout & _ & Hp).
  exists out. split; [done|]. intros p k c a Hk Hc Ha Hrange.
  rewrite Hp, (straight_pixel _ p k c a) by (done || lia).
  eexists. split; [done|]. rewrite straight_byte_value by done.
  pose proof (Byte.to_N_bounded c).
  split; [apply unpremultiply_full | apply unpremultiply_zero]; done.
Qed.

(** X14.  [convertFromPremultiplied] keeps the order of the colour
    channels within a pixel. *)
Theorem convert_keeps_channel_order (w h : Z) (img : image.RGBA) :
  canvas_shaped w h img →
  ∃ out,
    convertFromPremultiplied img = Some out ∧
    ∀ (p k1 k2 : nat) (c1 c2 : uint8),
      (k1 < 3)%nat → (k2 < 3)%nat →
      image.Pix img !! (4 * p + k1)%nat = Some c1 →
      image.Pix img !! (4 * p + k2)%nat = Some c2 →
      (uint32_of_uint8 c1 ≤ uint32_of_uint8 c2)%N →
      ∃ c1' c2',
        image.Pix out !! (4 * p + k1)%nat = Some c1' ∧
        image.Pix out !! (4 * p + k2)%nat = Some c2' ∧
        (uint32_of_uint8 c1' ≤ uint32_of_uint8 c2')%N.
Proof.
  intros Hs. destruct (convert_shaped w h img Hs) as (out & Hout & _ & Hp).
  exists out. split; [done|]. intros p k1 k2 c1 c2 Hk1 Hk2 Hc1 Hc2 Hle.
  destruct (shaped_alpha_slot w h img _ c1 Hs Hc1) as [a Ha].
  rewrite offset_div in Ha by lia.
  rewrite !Hp, (straight_pixel _ p k1 c1 a), (straight_pixel _ p k2 c2 a)
    by (done || lia).
  eexists _, _. do 2 (split; [done|]).
  pose proof (Byte.to_N_bounded c2).
  unfold straight_byte.
  destruct (Nat.eqb_spec k1 3); [lia|]. destruct (Nat.eqb_spec k2 3); [lia|].
  destruct (N.eqb_spec (uint32_of_uint8 a) 0); [done|].
  destruct (N.eqb_spec (uint32_of_uint8 a) 255); [done|].
  cbn [orb]. rewrite !uint32_of_uint8_of_uint32 by apply unpremultiply_le_255.
  by apply unpremultiply_mono.
Qed.

(** X15.  What [convertFromPremultiplied] leaves in a pixel depends on
    the four bytes of that pixel only, not on its position nor on the
    rest of the image. *)
Theorem convert_is_pixelwise (w h w' h' : Z) (img img' : image.RGBA)
    (p p' : nat) :
  canvas_shaped w h img → canvas_shaped w' h' img' →
  (∀ k : nat, (k < 4)%nat →
     is_Some (image.Pix img !! (4 * p + k)%nat) ∧
     image.Pix img !! (4 * p + k)%nat = image.Pix img' !! (4 * p' + k)%nat) →
  ∃ out out',
    convertFromPremultiplied img = Some out ∧
    convertFromPremultiplied img' = Some out' ∧
    ∀ k : nat, (k < 4)%nat →
      image.Pix out !! (4 * p + k)%nat = image.Pix out' !! (4 * p' + k)%nat.
Proof.
  intros Hs Hs' Hsame.
  destruct (convert_shaped w h img Hs) as (out & Hout & _ & Hp).
  destruct (convert_shaped w' h' img' Hs') as (out' & Hout' & _ & Hp').
  exists out, out'. do 2 (split; [done|]). intros k Hk.
  destruct (Hsame k Hk) as [[c Hc] Hck].
  destruct (Hsame 3%nat) as [[a Ha] Hak]; [lia|].
  rewrite Hp, Hp'.
  rewrite (straight_pixel _ p k c a), (straight_pixel _ p' k c a);
    (done || congruence).
Qed.

(** ** Exact steps of binary64 arithmetic *)

Lemma f64_div_self (s : bool) (m : positive) (e : Z) :
  f64.div (S754_finite s m e) (S754_finite s m e) = f64_one.
Proof.
  unfold f64.div, SFdiv, SFdiv_core_binary.
  cbn [Zdigits2].
  replace (Z.pos (digits2_pos m) + e - (Z.pos (digits2_pos m) + e)) with 0
    by lia.
  rewrite Z.sub_diag.
  change (Z.min (fexp f64.prec f64.emax 0) 0) with (-53).
  change (0 - -53) with 53.
  rewrite Z.shiftl_mul_pow2 by lia.
  assert (Hdiv : Z.div_eucl (Z.pos m * 2 ^ 53) (Z.pos m) = (2 ^ 53, 0)).
  { pose proof (Z.div_eucl_eq (Z.pos m * 2 ^ 53) (Z.pos m)) as Heq.
    pose proof (Z.mod_pos_bound (Z.pos m * 2 ^ 53) (Z.pos m)) as Hb.
    unfold Z.modulo in Hb.
    destruct (Z.div_eucl (Z.pos m * 2 ^ 53) (Z.pos m)) as [q r].
    specialize (Heq ltac:(lia)). specialize (Hb ltac:(lia)).
    assert (r = 0 ∧ q = 2 ^ 53) as [-> ->]; [|done].
    assert (Z.pos m * (2 ^ 53 - q) = r) by lia.
    assert (2 ^ 53 - q = 0) by nia. split; nia. }
  rewrite Hdiv.
  assert (Hloc : new_location (Z.pos m) 0 = loc_Exact).
  { unfold new_location. by destruct (Z.even (Z.pos m)). }
  rewrite Hloc. destruct s; reflexivity.
Qed.

Lemma f64_sub_self (s : bool) (m : positive) (e : Z) :
  f64.sub (S754_finite s m e) (S754_finite s m e) = f64.zero.
Proof.
  unfold f64.sub, SFsub. rewrite Z.sub_diag. reflexivity.
Qed.

Lemma f64_mul_one (s : bool) (m : positive) (e : Z) :
  bounded f64.prec f64.emax m e = true →
  f64.mul (S754_finite s m e) f64_one = S754_finite s m e.
Proof.
  intros Hb. pose proof Hb as Hb'. unfold bounded in Hb'.
  apply andb_prop in Hb' as [Hc Hmax].
  unfold canonical_mantissa in Hc. apply Z.eqb_eq in Hc.
  unfold f64.mul, f64_one, SFmul. rewrite xorb_false_r.
  rewrite Pos.mul_comm. cbv beta iota fix delta [Pos.mul].
  unfold binary_round_aux at 1.
  unfold shr_fexp at 1. cbn [Zdigits2 digits2_pos shr_record_of_loc].
  match goal with
  | |- context [fexp f64.prec f64.emax ?x] =>
      replace x with (Z.pos (digits2_pos m) + e) by lia
  end.
  rewrite Hc. replace (e - (e + -52)) with 52 by lia.
  cbn [shr iter_pos shr_1 orb].
  cbn [loc_of_shr_record round_nearest_even shr_m shr_r shr_s].
  replace (e + -52 + 52) with e by lia.
  assert (Hcan : canonical_mantissa f64.prec f64.emax m e = true).
  { unfold canonical_mantissa. by apply Z.eqb_eq. }
  match goal with
  | |- context [SpecFloat.iter_pos shr_1 52 ?r] =>
      change (SpecFloat.iter_pos shr_1 52 r)
        with {| shr_m := Z.pos m; shr_r := false; shr_s := false |}
  end.
  cbn [loc_of_shr_record round_nearest_even shr_m shr_r shr_s].
  rewrite (shr_fexp_canonical m e Hcan). cbn [shr_m]. by rewrite Hmax.
Qed.

(** An integer below [2^53] converts to binary64 without rounding, as a
    well-formed positive finite value. *)
Lemma of_Z_finite (p : positive) :
  Z.pos p < 2 ^ 53 →
  ∃ m e, f64.of_Z (Z.pos p) = S754_finite false m e ∧
         bounded f64.prec f64.emax m e = true.
Proof.
  intros Hp. pose proof (digits2_pos_bounds p) as [Hlo _].
  assert (Hd : Z.pos (digits2_pos p) ≤ 53).
  { destruct (Z.le_gt_cases (Z.pos (digits2_pos p)) 53) as [|Hgt]; [done|].
    assert (2 ^ 53 ≤ 2 ^ (Z.pos (digits2_pos p) - 1))
      by (apply Z.pow_le_mono_r; lia).
    lia. }
  unfold f64.of_Z, binary_normalize, binary_round.
  rewrite fexp_64, Z.add_0_r.
  replace (Z.max (Z.pos (digits2_pos p) - 53) (-1074))
    with (Z.pos (digits2_pos p) - 53) by lia.
  unfold shl_align. rewrite Z.sub_0_r.
  destruct (Z.pos (digits2_pos p) - 53) as [|q|k] eqn:Hk; [|lia|].
  - exists p, 0. assert (Hb : bounded f64.prec f64.emax p 0 = true).
    { unfold bounded, canonical_mantissa. rewrite fexp_64.
      apply andb_true_intro. split; [apply Z.eqb_eq; lia | done]. }
    split; [|done]. by apply binary_round_aux_canonical.
  - exists (Pos.iter xO p k), (Z.neg k).
    assert (Hb : bounded f64.prec f64.emax (Pos.iter xO p k) (Z.neg k) = true).
    { unfold bounded, canonical_mantissa.
      rewrite fexp_64, digits2_pos_shift.
      apply andb_true_intro. split; [apply Z.eqb_eq; lia|].
      apply Z.leb_le. change (f64.emax - f64.prec) with 971. lia. }
    split; [|done]. by apply binary_round_aux_canonical.
Qed.

Lemma float64_of_uint32_finite (n : uint32) :
  (0 < n < 2 ^ 32)%N →
  ∃ m e, float64_of_uint32 n = S754_finite false m e ∧
         bounded f64.prec f64.emax m e = true.
Proof.
  intros Hn. unfold float64_of_uint32.
  destruct n as [|p]; [lia|]. cbn [Z.of_N]. apply of_Z_finite.
  change (2 ^ 32)%N with 4294967296%N in Hn. lia.
Qed.

Lemma letterbox_natural_target (width height : uint32) :
  (0 < width < 2 ^ 32)%N → (0 < height < 2 ^ 32)%N →
  letterbox_transform
    (letterbox (float64_of_uint32 width) (float64_of_uint32 height)
       width height)
  = resvg_transform_identity.
Proof.
  intros Hw Hh.
  destruct (float64_of_uint32_finite width Hw) as (mw & ew & HW & Hbw).
  destruct (float64_of_uint32_finite height Hh) as (mh & eh & HH & Hbh).
  unfold letterbox. cbn [fdiv fmul fsub fmin fconst of_uint32 binary64_arith].
  rewrite HW, HH, !f64_div_self.
  change (math_Min f64_one f64_one) with f64_one.
  rewrite !f64_mul_one, !f64_sub_self by done.
  reflexivity.
Qed.

(** X16.  When the natural size equals the target size, the letterbox
    computation of [RenderScaledToSize], carried out in binary64, gives
    exactly the identity transform: scale 1 and offsets 0. *)
Theorem letterbox_on_target (width height : uint32) :
  (0 < width < 2 ^ 32)%N → (0 < height < 2 ^ 32)%N →
  letterbox_transform
    (letterbox (float64_of_uint32 width) (float64_of_uint32 height)
       width height)
  = resvg_transform_identity.
Proof. apply letterbox_natural_target. Qed.

(** ** Release of the handles, and the natural size as target *)

Section NaturalSize.
Context {c_options c_tree : Type}.
Variable engine : Engine c_options c_tree.
Variable heap_grants : Z → bool.

(** X17.  [destroy] on options and on a tree releases the handle once and
    sets it to nil, so that a second [destroy], such as the finalizer's,
    calls nothing. *)
Theorem destroy_twice_releases_once (o : @Options c_options)
    (t : @RenderTree c_tree) :
  (∃ o' : @Options c_options,
     Options_destroy_in_place (c_tree:=c_tree) o
       = ((Options_destroy (c_tree:=c_tree) o).1, Return o') ∧
     cOpts o' = None ∧
     Options_destroy_in_place (c_tree:=c_tree) o' = ([], Return o')) ∧
  (∃ t' : @RenderTree c_tree,
     RenderTree_destroy_in_place (c_options:=c_options) t
       = ((RenderTree_destroy (c_options:=c_options) t).1, Return t') ∧
     cTree t' = None ∧
     RenderTree_destroy_in_place (c_options:=c_options) t' = ([], Return t')).
Proof.
  split.
  - destruct o as [[h|]]; [by exists (mkOptions None) | by eexists].
  - destruct t as [[h|]]; [by exists (mkRenderTree None) | by eexists].
Qed.

(** X18.  For a document with content whose natural size is the target
    size, [RenderScaledToSize] renders with the identity transform and
    has the outcome and the render call of [RenderWithSize]. *)
Theorem RenderScaledToSize_at_natural_size (data : list uint8) (t : c_tree)
    (width height : uint32) :
  parses engine data t →
  resvg_is_image_empty engine t = false →
  (0 < width < 2 ^ 32)%N → (0 < height < 2 ^ 32)%N →
  let size := resvg_get_image_size engine t in
  float64_of_float32 (Width size) = float64_of_uint32 width →
  float64_of_float32 (Height size) = float64_of_uint32 height →
  letterbox_transform
    (letterbox (float64_of_float32 (Width size))
       (float64_of_float32 (Height size)) width height)
    = resvg_transform_identity ∧
  (RenderScaledToSize engine heap_grants data width height).2
    = (RenderWithSize engine heap_grants data width height).2 ∧
  List.filter is_render_call (RenderScaledToSize engine heap_grants data width height).1
    = List.filter is_render_call (RenderWithSize engine heap_grants data width height).1.
Proof.
  intros Hp He Hw Hh size HW HH.
  assert (Hid : letterbox_transform
                  (letterbox (float64_of_float32 (Width size))
                     (float64_of_float32 (Height size)) width height)
                = resvg_transform_identity).
  { rewrite HW, HH. by apply letterbox_natural_target. }
  split; [done|].
  rewrite RenderScaledToSize_with_tree, RenderWithSize_with_tree.
  rewrite !(with_tree_parsed _ _ t), He by done. cbv zeta.
  rewrite (RenderScaledToSize_tail engine (fun _ => 0%N)),
    (RenderWithSize_tail engine). unfold tail_of. cbv zeta.
  fold size. rewrite Hid, HW, HH.
  destruct (float64_of_uint32_finite width Hw) as (mw & ew & -> & _).
  destruct (float64_of_uint32_finite height Hh) as (mh & eh & -> & _).
  cbn [f64.leb SFleb SFcompare f64.zero orb fst snd].
  split; [done|].
  unfold opening, closing. cbn [app List.filter is_render_call].
  by rewrite !List.filter_app.
Qed.

End NaturalSize.

(** ** The example program [svg2png] *)

Section Svg2pngFacts.
Context {c_options c_tree : Type}.
Variable engine : Engine c_options c_tree.
Variable uint32_overflow : float32 → uint32.
Variable heap_grants : Z → bool.
Variable platform : Platform.

(** X19.  [svg2png] called without an input file, with a width but no
    height, or with a width or height that is not a 32-bit unsigned
    number exits with status 1 having only written to its own output
    streams: no file is read, the engine is not called, nothing is
    created. *)
Theorem svg2png_rejects_bad_arguments (args : list string) :
  length args = 1%nat ∨ length args = 4%nat ∨
  (∃ w, args !! 3%nat = Some w ∧ ParseUint platform w = None) ∨
  (∃ h, args !! 4%nat = Some h ∧ ParseUint platform h = None) →
  (svg2png_main engine uint32_overflow heap_grants platform args).2
    = Exited 1 ∧
  List.filter touches_world
    (svg2png_main engine uint32_overflow heap_grants platform args).1 = [].
Proof.
  intros H.
  destruct args as [|a0 [|a1 [|a2 [|a3 [|a4 rest]]]]]; cbn in H;
    try (exfalso; destruct H as [H | [H | [(? & H & _) | (? & H & _)]]];
         discriminate H).
  - done.
  - unfold svg2png_main. by destruct (ParseUint platform a3).
  - unfold svg2png_main.
    destruct H as [H | [H | [(w & [= <-] & Hw) | (h & [= <-] & Hh)]]];
      try discriminate H.
    + by rewrite Hw.
    + destruct (ParseUint platform a3); [|done]. by rewrite Hh.
Qed.

Lemma save_cases (outputFile : string) (img : image.RGBA) :
  save (c_options:=c_options) (c_tree:=c_tree) platform outputFile (Some img)
  = if os_Create platform outputFile then
      if png_Encode platform img
      then ([ev_create outputFile; ev_encode outputFile img;
             ev_stdout (msg_success outputFile); ev_close outputFile],
            Returned)
      else ([ev_create outputFile; ev_encode outputFile img;
             ev_stderr msg_error_encoding], Exited 1)
    else ([ev_create outputFile; ev_stderr msg_error_creating_file],
          Exited 1).
Proof. reflexivity. Qed.

(** What a run of [convert_file] that returns or crashes went through. *)
Lemma convert_file_inv (inputFile outputFile : string)
    (size : option (uint32 * uint32)) (events : list event) (st : status) :
  convert_file engine uint32_overflow heap_grants platform inputFile outputFile size
    = (events, st) →
  st ≠ Exited 1 →
  ∃ data calls r,
    os_ReadFile platform inputFile = Some data ∧
    match size with
    | Some (w, h) => RenderWithSize engine heap_grants data w h
    | None => Render engine uint32_overflow heap_grants data
    end = (calls, r) ∧
    ((st = Crashed ∧ r = Panic) ∨
     (st = Killed ∧ r = Fatal) ∨
     (st = Returned ∧ ∃ img,
        r = Return (Some img, None) ∧
        os_Create platform outputFile = true ∧
        png_Encode platform img = true ∧
        In (ev_encode outputFile img) events ∧
        last events = Some (ev_close outputFile))).
Proof.
  unfold convert_file. intros H Hst.
  destruct (os_ReadFile platform inputFile) as [data|];
    [|by injection H as _ <-].
  exists data.
  assert (Hend : ∀ (pre : list event)
                   (report : option image.RGBA → list event)
                   (calls : list (ccall c_options c_tree)) r,
    (match r with
     | Panic => (pre, Crashed)
     | Fatal => (pre, Killed)
     | Return (img, err) =>
         match err with
         | Some err =>
             (pre ++ report img ++ [ev_stderr (msg_error_rendering err)],
              Exited 1)
         | None =>
             let '(saving, st) := save platform outputFile img in
             (pre ++ report img ++ saving, st)
         end
     end) = (events, st) →
    (∀ img err, r = Return (img, err) → (is_Some img ↔ err = None)) →
    ∃ calls' r', (calls, r) = (calls', r') ∧
      ((st = Crashed ∧ r' = Panic) ∨
       (st = Killed ∧ r' = Fatal) ∨
       (st = Returned ∧ ∃ img,
          r' = Return (Some img, None) ∧
          os_Create platform outputFile = true ∧
          png_Encode platform img = true ∧
          In (ev_encode outputFile img) events ∧
          last events = Some (ev_close outputFile)))).
  { intros pre report calls r Hrun Hxor. exists calls, r. split; [done|].
    destruct r as [[img err]| |];
      [|left; by injection Hrun as _ <-
       |right; left; by injection Hrun as _ <-].
    destruct err as [err|]; [by injection Hrun as _ <-|].
    destruct (proj2 (Hxor img None eq_refl) eq_refl) as [im ->].
    rewrite save_cases in Hrun.
    destruct (os_Create platform outputFile) eqn:Hcreate;
      [|by injection Hrun as _ <-].
    destruct (png_Encode platform im) eqn:Hencode;
      [|by injection Hrun as _ <-].
    injection Hrun as <- <-. right. right. split; [done|]. exists im.
    do 3 (split; [done|]). split.
    - rewrite !in_app_iff. right. right. cbn. tauto.
    - by rewrite !last_app. }
  destruct size as [[w h]|].
  - destruct (RenderWithSize engine heap_grants data w h) as [calls r] eqn:Hrun.
    cbv zeta in H.
    destruct (Hend _ (fun _ => []) calls r H) as (calls' & r' & [= <- <-] & Hr).
    { intros img err ->.
      by apply (run_convenience_xor engine uint32_overflow heap_grants
                  (conv_RenderWithSize data w h) calls). }
    by exists calls, r.
  - destruct (Render engine uint32_overflow heap_grants data) as [calls r] eqn:Hrun.
    cbv zeta in H.
    destruct (Hend _ (fun img : option image.RGBA =>
                match img with
                | Some img =>
                    [ev_stdout (msg_output_size (image.Dx (image.Bounds img))
                                  (image.Dy (image.Bounds img)) true)]
                | None => []
                end) calls r H) as (calls' & r' & [= <- <-] & Hr).
    { intros img err ->.
      by apply (run_convenience_xor engine uint32_overflow heap_grants
                  (conv_Render data) calls). }
    by exists calls, r.
Qed.

Lemma main_inv (args : list string) (events : list event) (st : status) :
  svg2png_main engine uint32_overflow heap_grants platform args
    = (events, st) →
  st ≠ Exited 1 →
  args = [] ∨
  ∃ inputFile size,
    args !! 1%nat = Some inputFile ∧
    size_of_args platform args size ∧
    convert_file engine uint32_overflow heap_grants platform inputFile
      (output_of_args platform inputFile args) size = (events, st).
Proof.
  intros H Hst.
  destruct args as [|a0 [|a1 [|a2 [|a3 [|a4 rest]]]]]; unfold svg2png_main in H.
  - by left.
  - by injection H as _ <-.
  - right. exists a1, None. split; [done|]. split; [|done].
    left. cbn. split; [lia|done].
  - right. exists a1, None. split; [done|]. split; [|done].
    left. cbn. split; [lia|done].
  - destruct (ParseUint platform a3); by injection H as _ <-.
  - destruct (ParseUint platform a3) as [w|] eqn:Hw;
      [|by injection H as _ <-].
    destruct (ParseUint platform a4) as [h|] eqn:Hh;
      [|by injection H as _ <-].
    right. exists a1, (Some (u32_wrap w, u32_wrap h)).
    split; [done|]. split; [|done].
    right. by exists a3, a4, w, h.
Qed.

(** X20.  When [svg2png] ends with status 0, the input file was read,
    the render call for the arguments returned an image and a nil error,
    the output file was created, that image was encoded into it, and the
    file was closed last. *)
Theorem svg2png_success (args : list string) (events : list event) :
  svg2png_main engine uint32_overflow heap_grants platform args
    = (events, Returned) →
  ∃ inputFile size data calls img,
    args !! 1%nat = Some inputFile ∧
    size_of_args platform args size ∧
    os_ReadFile platform inputFile = Some data ∧
    match size with
    | Some (w, h) => RenderWithSize engine heap_grants data w h
    | None => Render engine uint32_overflow heap_grants data
    end = (calls, Return (Some img, None)) ∧
    os_Create platform (output_of_args platform inputFile args) = true ∧
    png_Encode platform img = true ∧
    In (ev_encode (output_of_args platform inputFile args) img) events ∧
    last events = Some (ev_close (output_of_args platform inputFile args)).
Proof.
  intros H.
  destruct (main_inv args events Returned H) as [-> | (inp & size & Hin & Hsz & Hc)];
    [done|done|].
  destruct (convert_file_inv _ _ _ _ _ Hc)
    as (data & calls & r & Hread & Hrun
        & [[? _] | [[? _] | [_ (img & -> & Hrest)]]]);
    [done|done|done|].
  by exists inp, size, data, calls, img.
Qed.

(** X21.  [svg2png] ends in a panic only with an empty argument vector
    or by a panic of the wrapper's render call. *)
Theorem svg2png_crash_is_render_panic (args : list string)
    (events : list event) :
  svg2png_main engine uint32_overflow heap_grants platform args
    = (events, Crashed) →
  args = [] ∨
  ∃ inputFile size data calls,
    args !! 1%nat = Some inputFile ∧
    size_of_args platform args size ∧
    os_ReadFile platform inputFile = Some data ∧
    match size with
    | Some (w, h) => RenderWithSize engine heap_grants data w h
    | None => Render engine uint32_overflow heap_grants data
    end = (calls, Panic).
Proof.
  intros H.
  destruct (main_inv args events Crashed H) as [-> | (inp & size & Hin & Hsz & Hc)];
    [done|by left|]. right.
  destruct (convert_file_inv _ _ _ _ _ Hc)
    as (data & calls & r & Hread & Hrun & [[_ ->] | [[? _] | [? _]]]);
    [done| |done|done].
  by exists inp, size, data, calls.
Qed.

(** X22.  [svg2png] is ended by a fatal error only inside the wrapper's
    render call, and then no output file has been created. *)
Theorem svg2png_killed_is_render_fatal (args : list string)
    (events : list event) :
  svg2png_main engine uint32_overflow heap_grants platform args
    = (events, Killed) →
  ∃ inputFile size data calls,
    args !! 1%nat = Some inputFile ∧
    size_of_args platform args size ∧
    os_ReadFile platform inputFile = Some data ∧
    match size with
    | Some (w, h) => RenderWithSize engine heap_grants data w h
    | None => Render engine uint32_overflow heap_grants data
    end = (calls, Fatal) ∧
    List.filter (fun e => match e with
                          | ev_create _ | ev_encode _ _ | ev_close _ => true
                          | _ => false
                          end) events = [].
Proof.
  intros H.
  destruct (main_inv args events Killed H)
    as [-> | (inp & size & Hin & Hsz & Hc)]; [done|done|].
  destruct (convert_file_inv _ _ _ _ _ Hc)
    as (data & calls & r & Hread & Hrun & [[? _] | [[_ ->] | [? _]]]);
    [done|done| |done].
  exists inp, size, data, calls. do 4 (split; [done|]).
  assert (Hmap : ∀ l : list (ccall c_options c_tree),
            List.filter (fun e => match e with
                                  | ev_create _ | ev_encode _ _ | ev_close _ => true
                                  | _ => false
                                  end) (map ev_engine l) = []).
  { induction l as [|c l IH]; done. }
  unfold convert_file in Hc. rewrite Hread in Hc.
  destruct size as [[w h]|]; rewrite Hrun in Hc; injection Hc as <-;
    cbn [app List.filter]; rewrite ?List.filter_app, ?Hmap; done.
Qed.

End Svg2pngFacts.

(** ** The statements at concrete inputs *)

Example convert_toy_buffer :
  image.Pix <$> convertFromPremultiplied toy_buffer
  = Some (px [72; 145; 218; 7; 9; 9; 9; 255]).
Proof. vm_compute. reflexivity. Qed.

Example pass_is_not_idempotent :
  (convertFromPremultiplied toy_buffer ≫= convertFromPremultiplied)
  ≠ convertFromPremultiplied toy_buffer.
Proof. vm_compute. discriminate. Qed.

Example Render_zero_width_panics :
  (RenderWithSize toy_engine toy_heap toy_document 0%N 1%N).2 = Panic.
Proof. vm_compute. reflexivity. Qed.

Example Render_empty_input :
  (Render toy_engine toy_overflow toy_heap []).2
  = Return (None, Some err_empty_data).
Proof. vm_compute. reflexivity. Qed.

(** A natural size 9854641 by 14762568 in a target 453723048 by
    679691665: the x ratio is the smaller and is the scale, yet the scaled
    width exceeds the target width and the x offset is negative, while the
    scaled height is the target height and the y offset is zero. *)
Example letterbox_overshoots :
  let w0 := float64_of_float32 (f32.of_Z 9854641) in
  let h0 := float64_of_float32 (f32.of_Z 14762568) in
  let W := float64_of_uint32 453723048%N in
  let H := float64_of_uint32 679691665%N in
  let l := letterbox w0 h0 453723048%N 679691665%N in
  f64.ltb (f64.div W w0) (f64.div H h0) = true ∧
  scale l = f64.div W w0 ∧
  f64.ltb W (scaledW l) = true ∧
  tx l = S754_finite true 4503599627370496 (-77) ∧
  scaledH l = H ∧ ty l = f64.zero.
Proof. vm_compute. done. Qed.

Lemma toy_parses : parses toy_engine toy_document toy_document.
Proof. split; [discriminate | reflexivity]. Defined.

Lemma render_converts_once_witness :
  ∃ c raw,
    List.filter is_render_call toy_log = [c] ∧
    raw_buffer toy_engine c = Some raw ∧
    convertFromPremultiplied raw = Some toy_pixel ∧
    length (image.Pix toy_pixel) = length (image.Pix raw) ∧
    ∀ (p k : nat) (ch a : uint8),
      (k < 3)%nat →
      image.Pix raw !! (4 * p + k)%nat = Some ch →
      image.Pix raw !! (4 * p + 3)%nat = Some a →
      (0 < uint32_of_uint8 a < 255)%N →
      image.Pix toy_pixel !! (4 * p + k)%nat =
      Some (uint8_of_uint32
              (N.min 255 (uint32_of_uint8 ch * 255 / uint32_of_uint8 a))).
Proof.
  apply (render_converts_once toy_engine toy_overflow toy_heap
           (entry_RenderWithSize toy_document 1%N 1%N)).
  vm_compute. reflexivity.
Defined.

(** C1, as stated, fails.  The engine leaves the pixel [(2, 4, 6, 7)];
    the wrapper returns [(72, 145, 218, 7)], the truncated quotients,
    where rounding to nearest gives [(73, 146, 219, 7)]. *)
Lemma round_claim_fails :
  run_entry toy_engine toy_overflow toy_heap
    (entry_RenderWithSize toy_document 1%N 1%N)
    = (toy_log, Return (Some toy_pixel)) ∧
  raw_buffer toy_engine (call_render toy_document toy_identity 1%N 1%N)
    = Some (image.mkRGBA (px [2; 4; 6; 7]) 4 (image.Rect 0 0 1 1)) ∧
  (0 < 7 < 255)%N ∧
  image.Pix toy_pixel !! 0%nat
    ≠ Some (uint8_of_uint32 (spec_unpremultiply 2 7)) ∧
  image.Pix toy_pixel !! 1%nat
    ≠ Some (uint8_of_uint32 (spec_unpremultiply 4 7)) ∧
  image.Pix toy_pixel !! 2%nat
    ≠ Some (uint8_of_uint32 (spec_unpremultiply 6 7)).
Proof.
  split; [vm_compute; reflexivity|].
  split; [vm_compute; reflexivity|].
  split; [lia|].
  repeat split; vm_compute; discriminate.
Qed.

(** C2, as stated, fails.  For a 49 by 1 document in a 1 by 1 target the
    formulas of the claim give [tx = (1 - 49 * (1 / 49)) / 2 = 0]; the
    render call of [RenderScaledToSize] carries [2^-54] in that slot, what
    binary64 leaves of the same formulas. *)
Lemma letterbox_formula_not_stored :
  let l := letterbox (float64_of_float32 (f32.of_Z 49))
             (float64_of_float32 (f32.of_Z 1)) 1%N 1%N in
  (RenderScaledToSize toy_engine toy_heap toy_wide_document 1%N 1%N).1 !! 5%nat
    = Some (call_render toy_wide_document (letterbox_transform l) 1%N 1%N) ∧
  (tx (letterbox (49 : Q) (1 : Q) 1%N 1%N) == 0)%Q ∧
  E (letterbox_transform l) = S754_finite false 8388608 (-77) ∧
  (float_value (E (letterbox_transform l)) == 1 # 18014398509481984)%Q ∧
  ¬ (float_value (E (letterbox_transform l))
     == tx (letterbox (49 : Q) (1 : Q) 1%N 1%N))%Q.
Proof.
  cbv zeta. split; [vm_compute; reflexivity|].
  split; [vm_compute; reflexivity|].
  split; [vm_compute; reflexivity|].
  split; [vm_compute; reflexivity|].
  intros H. vm_compute in H. discriminate H.
Qed.

Lemma RenderScaledToSize_letterbox_witness :
  (∃ img,
     canvas_shaped 200 100 img ∧
     RenderScaledToSize toy_engine toy_heap toy_document 200%N 100%N
     = (opening toy_engine toy_document
          ++ [call_is_image_empty toy_document;
              call_get_image_size toy_document;
              call_render toy_document
                (mkTransform (f32.of_Z 2) f32.zero f32.zero (f32.of_Z 2)
                   (f32.of_Z 50) f32.zero) 200%N 100%N]
          ++ closing toy_engine toy_document,
        Return (Some img, None))) ∧
  (∃ img,
     canvas_shaped 100 200 img ∧
     RenderScaledToSize toy_engine toy_heap toy_document 100%N 200%N
     = (opening toy_engine toy_document
          ++ [call_is_image_empty toy_document;
              call_get_image_size toy_document;
              call_render toy_document
                (mkTransform (f32.of_Z 2) f32.zero f32.zero (f32.of_Z 2)
                   f32.zero (f32.of_Z 50)) 100%N 200%N]
          ++ closing toy_engine toy_document,
        Return (Some img, None))).
Proof.
  split.
  - destruct (RenderScaledToSize_letterbox toy_engine toy_heap toy_document
                toy_document 200%N 100%N toy_parses eq_refl eq_refl eq_refl)
      as (Hfit & _ & Hex).
    destruct Hfit as (_ & _ & Hrun); try reflexivity.
    destruct Hrun as (raw & img & _ & _ & _ & Hshape & _ & Hrun);
      [reflexivity|].
    destruct Hex as [Hex _]; try reflexivity.
    destruct Hex as (_ & _ & _ & Htr); try reflexivity.
    exists img. split; [exact Hshape|]. rewrite Hrun, Htr. reflexivity.
  - destruct (RenderScaledToSize_letterbox toy_engine toy_heap toy_document
                toy_document 100%N 200%N toy_parses eq_refl eq_refl eq_refl)
      as (Hfit & _ & Hex).
    destruct Hfit as (_ & _ & Hrun); try reflexivity.
    destruct Hrun as (raw & img & _ & _ & _ & Hshape & _ & Hrun);
      [reflexivity|].
    destruct Hex as [_ Hex]; try reflexivity.
    destruct Hex as (_ & _ & _ & Htr); try reflexivity.
    exists img. split; [exact Hshape|]. rewrite Hrun, Htr. reflexivity.
Defined.

Lemma letterbox_binary64_witness :
  let l := letterbox (float64_of_float32 (f32.of_Z 49))
             (float64_of_float32 (f32.of_Z 1)) 1%N 1%N in
  scale l = f64.div (float64_of_uint32 1%N) (float64_of_float32 (f32.of_Z 49)) ∧
  axis_filled 1 (scaledW l) (tx l) ∧ axis_padded 1 (scaledH l) (ty l).
Proof.
  destruct (letterbox_binary64 (mkSize (f32.of_Z 49) (f32.of_Z 1)) 1%N 1%N
              eq_refl eq_refl (conj eq_refl eq_refl) (conj eq_refl eq_refl))
    as (_ & _ & _ & _ & _ & _ & _ & Hx & _).
  apply Hx. vm_compute. reflexivity.
Defined.

Lemma toy_buffer_shaped : canvas_shaped 2 1 toy_buffer.
Proof. unfold canvas_shaped. repeat split; (lia || reflexivity). Defined.

Lemma unpremultiply_round_trip_witness :
  ∃ out r,
    convertFromPremultiplied toy_buffer = Some out ∧
    image.Pix out !! 0%nat = Some r ∧
    uint32_of_uint8 r = (2 * 255 / 7)%N ∧
    (0 ≤ uint32_of_uint8 r ≤ 255)%N ∧
    (2 ≤ spec_premultiply (uint32_of_uint8 r) 7 + 1)%N ∧
    (spec_premultiply (uint32_of_uint8 r) 7 ≤ 2 + 1)%N.
Proof.
  destruct (unpremultiply_round_trip 2 1 toy_buffer toy_buffer_shaped)
    as (out & Hout & Hpx).
  destruct (Hpx 0%nat 0%nat x02 x07) as (r & Hr & Hval & Hrange & Hlo & Hhi);
    try reflexivity; try lia.
  { split; reflexivity. }
  { vm_compute. discriminate. }
  exists out, r. repeat split; assumption || apply Hrange.
Defined.

Lemma empty_document_not_rendered_witness :
  Render toy_engine toy_overflow toy_heap toy_empty_document
    = (opening toy_engine toy_empty_document
         ++ [call_is_image_empty toy_empty_document]
         ++ closing toy_engine toy_empty_document,
       Return (None, Some err_no_renderable)).
Proof.
  apply (empty_document_not_rendered toy_engine toy_overflow toy_heap
           toy_empty_document toy_empty_document 1%N 1%N).
  - split; [discriminate | reflexivity].
  - reflexivity.
Defined.

Lemma toy_node_contract (t : list uint8) (i : string) (tr : Transform)
    (w h : uint32) :
  ¬ toy_has_id t i → (resvg_render_node toy_engine t i tr w h).1 = false.
Proof.
  intros Hno. cbn. destruct i as [|c [|c' i]]; try reflexivity.
  destruct (Z.eqb_spec (Z.of_N (Ascii.N_of_ascii c)) (toy_byte t 3));
    [|reflexivity].
  exfalso. apply Hno. by exists c.
Defined.

Lemma toy_no_node_b : ¬ toy_has_id toy_document "b".
Proof. intros (c & [= <-] & Hc). vm_compute in Hc. discriminate Hc. Defined.

(** C7, as stated, fails.  No element of the toy document carries the
    identifier ["a\x00b"], and the toy engine keeps the contract of the
    node renderer; the engine is handed ["a"], the part before the NUL,
    finds that element, and [RenderNode] returns its image and no error. *)
Lemma RenderNode_stops_at_NUL :
  (∀ t i tr w h, ¬ toy_has_id t i →
     (resvg_render_node toy_engine t i tr w h).1 = false) ∧
  ¬ toy_has_id toy_document toy_id_a_NUL_b ∧
  RenderTree_RenderNode toy_engine toy_heap (mkRenderTree (Some toy_document))
    toy_id_a_NUL_b toy_identity 1%N 1%N
  = ([call_render_node toy_document "a" toy_identity 1%N 1%N],
     Return (Some toy_node_pixel, None)).
Proof.
  split; [apply toy_node_contract|]. split.
  - intros (c & Hc & _). discriminate Hc.
  - vm_compute. reflexivity.
Qed.

Lemma RenderNode_not_found_witness :
  RenderTree_RenderNode toy_engine toy_heap (mkRenderTree (Some toy_document))
    toy_id_b_NUL_a toy_identity 1%N 1%N
  = ([call_render_node toy_document "b" toy_identity 1%N 1%N],
     Return (None, Some (Errorf_failed_to_render_node toy_id_b_NUL_a))).
Proof.
  apply (RenderNode_not_found toy_engine toy_heap toy_has_id toy_document
           toy_id_b_NUL_a toy_identity 1%N 1%N).
  - apply toy_node_contract.
  - apply toy_no_node_b.
  - reflexivity.
Defined.

Lemma convert_keeps_opaque_and_clear_witness :
  ∃ out,
    convertFromPremultiplied toy_buffer = Some out ∧
    ∀ (p k : nat) (a : uint8),
      image.Pix toy_buffer !! (4 * p + 3)%nat = Some a →
      uint32_of_uint8 a = 0%N ∨ uint32_of_uint8 a = 255%N →
      (k < 3)%nat →
      image.Pix out !! (4 * p + k)%nat = image.Pix toy_buffer !! (4 * p + k)%nat.
Proof. apply (convert_keeps_opaque_and_clear 2 1), toy_buffer_shaped. Defined.

Lemma convert_keeps_alpha_witness :
  ∃ out,
    convertFromPremultiplied toy_buffer = Some out ∧
    length (image.Pix out) = length (image.Pix toy_buffer) ∧
    image.Stride out = image.Stride toy_buffer ∧
    image.Bounds out = image.Bounds toy_buffer ∧
    ∀ p : nat,
      image.Pix out !! (4 * p + 3)%nat = image.Pix toy_buffer !! (4 * p + 3)%nat.
Proof. apply (convert_keeps_alpha 2 1), toy_buffer_shaped. Defined.

Lemma RenderWithSize_identity_witness :
  ∃ raw img,
    raw_buffer toy_engine (call_render toy_flat_document toy_identity 3%N 2%N)
      = Some raw ∧
    convertFromPremultiplied raw = Some img ∧
    canvas_shaped 3 2 img ∧
    RenderWithSize toy_engine toy_heap toy_flat_document 3%N 2%N
    = (opening toy_engine toy_flat_document
         ++ [call_is_image_empty toy_flat_document; call_transform_identity;
             call_render toy_flat_document toy_identity 3%N 2%N]
         ++ closing toy_engine toy_flat_document,
       Return (Some img, None)).
Proof.
  destruct (RenderWithSize_identity toy_engine toy_overflow toy_heap
              toy_flat_document toy_flat_document 3%N 2%N)
    as [(raw & img & Hraw & _ & Hout & Hshape & _ & Hrun) _].
  - split; [discriminate | reflexivity].
  - reflexivity.
  - reflexivity.
  - exists raw, img. repeat split; assumption || apply Hshape.
Defined.

(** ** The further statements at concrete inputs *)

Lemma toy_small_parses : parses toy_engine toy_small_document toy_small_document.
Proof. split; [discriminate | reflexivity]. Defined.

Lemma handles_released_once_witness :
  List.filter is_destroy_call
    (run_convenience toy_engine toy_overflow toy_heap
       (conv_RenderWithSize toy_document 1%N 1%N)).1
  = closing toy_engine toy_document ∧
  last (run_convenience toy_engine toy_overflow toy_heap
          (conv_RenderWithSize toy_document 1%N 1%N)).1
  = Some (call_options_destroy ()).
Proof.
  pose proof (handles_released_once toy_engine toy_overflow toy_heap
                (conv_RenderWithSize toy_document 1%N 1%N)) as H.
  cbv zeta in H. destruct H as (_ & H2 & H3).
  split; [exact H2 | apply H3; reflexivity].
Defined.

Lemma image_xor_error_witness :
  is_Some (Some toy_pixel) ↔ None (A:=error) = None.
Proof.
  apply (image_xor_error toy_engine toy_overflow toy_heap
           (conv_RenderWithSize toy_document 1%N 1%N) toy_log).
  vm_compute. reflexivity.
Defined.

Lemma empty_input_skips_parser_witness :
  run_convenience toy_engine toy_overflow toy_heap
    (conv_RenderWithSize [] 3%N 2%N)
  = ([call_options_create; call_options_load_system_fonts ();
      call_options_destroy ()],
     Return (None, Some err_empty_data)).
Proof.
  apply (empty_input_skips_parser toy_engine toy_overflow toy_heap
           (conv_RenderWithSize [] 3%N 2%N)).
  reflexivity.
Defined.

Lemma parse_error_propagates_witness :
  run_convenience toy_engine toy_overflow toy_heap
    (conv_Render toy_rejected_input)
  = (opening toy_engine toy_rejected_input ++ [call_options_destroy ()],
     Return (None, Some ErrParsingFailed)).
Proof.
  apply (parse_error_propagates toy_engine toy_overflow toy_heap
           (conv_Render toy_rejected_input) RESVG_ERROR_PARSING_FAILED []).
  - discriminate.
  - reflexivity.
  - discriminate.
Defined.

Lemma returned_image_size_witness :
  ∃ width height,
    entry_canvas toy_engine toy_overflow
      (entry_RenderWithSize toy_document 1%N 1%N) = Some (width, height) ∧
    canvas_ok toy_heap width height = true ∧
    image.Bounds toy_pixel = image.Rect 0 0 (Z.of_N width) (Z.of_N height) ∧
    image.Stride toy_pixel = 4 * Z.of_N width ∧
    length (image.Pix toy_pixel) = Z.to_nat (4 * Z.of_N width * Z.of_N height).
Proof.
  apply (returned_image_size toy_engine toy_overflow toy_heap
           (entry_RenderWithSize toy_document 1%N 1%N) toy_log).
  vm_compute. reflexivity.
Defined.

Lemma RenderNode_follows_engine_witness :
  ∃ raw img,
    raw_buffer toy_engine (call_render_node toy_document "a" toy_identity 2%N 1%N)
      = Some raw ∧
    convertFromPremultiplied raw = Some img ∧
    canvas_shaped 2 1 img ∧
    RenderTree_RenderNode toy_engine toy_heap
      (mkRenderTree (Some toy_document)) toy_id_a_NUL_b toy_identity 2%N 1%N
    = ([call_render_node toy_document "a" toy_identity 2%N 1%N],
       Return (Some img, None)).
Proof.
  apply (RenderNode_follows_engine toy_engine toy_heap toy_document
           toy_id_a_NUL_b toy_identity 2%N 1%N).
  reflexivity.
Defined.

Lemma Render_natural_size_witness :
  ∃ img,
    canvas_shaped 2 1 img ∧
    Render toy_engine toy_overflow toy_heap toy_small_document
    = (opening toy_engine toy_small_document
         ++ [call_is_image_empty toy_small_document;
             call_get_image_size toy_small_document;
             call_transform_identity;
             call_render toy_small_document resvg_transform_identity 2%N 1%N]
         ++ closing toy_engine toy_small_document,
       Return (Some img, None)).
Proof.
  apply (Render_natural_size toy_engine toy_overflow toy_heap toy_small_document
           toy_small_document toy_small_parses); reflexivity.
Defined.

Lemma toy_half_parses :
  parses toy_half_engine toy_small_document toy_small_document.
Proof. split; [discriminate | reflexivity]. Defined.

Lemma Render_subunit_size_panics_witness :
  Render toy_half_engine toy_overflow toy_heap toy_small_document
  = (opening toy_half_engine toy_small_document
       ++ [call_is_image_empty toy_small_document;
           call_get_image_size toy_small_document;
           call_transform_identity]
       ++ closing toy_half_engine toy_small_document,
     Panic).
Proof.
  apply (Render_subunit_size_panics toy_half_engine toy_overflow toy_heap
           toy_small_document toy_small_document toy_half_parses).
  - reflexivity.
  - reflexivity.
  - left. reflexivity.
Defined.

Lemma refused_canvas_witness :
  RenderWithSize toy_engine toy_heap toy_small_document 0%N 7%N
  = (opening toy_engine toy_small_document
       ++ [call_is_image_empty toy_small_document; call_transform_identity]
       ++ closing toy_engine toy_small_document,
     Panic) ∧
  RenderWithSize toy_engine toy_full_heap toy_small_document 2%N 1%N
  = (opening toy_engine toy_small_document
       ++ [call_is_image_empty toy_small_document; call_transform_identity],
     Fatal).
Proof.
  split.
  - apply (refused_canvas toy_engine toy_heap toy_small_document
             toy_small_document 0%N 7%N toy_small_parses); reflexivity.
  - apply (refused_canvas toy_engine toy_full_heap toy_small_document
             toy_small_document 2%N 1%N toy_small_parses); reflexivity.
Defined.

Lemma ParseFromData_outcomes_witness :
  ParseFromData toy_engine toy_rejected_input None = ([], Panic).
Proof.
  apply (ParseFromData_outcomes toy_engine toy_rejected_input). discriminate.
Defined.

Lemma toy_opaque_buffer_shaped : canvas_shaped 2 1 toy_opaque_buffer.
Proof. unfold canvas_shaped. repeat split; (lia || reflexivity). Defined.

Lemma convert_fixes_opaque_image_witness :
  convertFromPremultiplied toy_opaque_buffer = Some toy_opaque_buffer.
Proof.
  apply (convert_fixes_opaque_image 2 1); [apply toy_opaque_buffer_shaped|].
  intros [|[|p]] a H.
  - vm_compute in H. injection H as <-. right. reflexivity.
  - vm_compute in H. injection H as <-. left. reflexivity.
  - apply lookup_lt_Some in H. cbn [toy_opaque_buffer image.Pix px map length] in H.
    lia.
Defined.

Lemma convert_never_darkens_witness :
  ∃ out,
    convertFromPremultiplied toy_buffer = Some out ∧
    ∀ (j : nat) (c : uint8),
      image.Pix toy_buffer !! j = Some c →
      ∃ c', image.Pix out !! j = Some c' ∧
            (uint32_of_uint8 c ≤ uint32_of_uint8 c')%N.
Proof. apply (convert_never_darkens 2 1), toy_buffer_shaped. Defined.

Lemma convert_full_and_zero_witness :
  ∃ out,
    convertFromPremultiplied toy_buffer = Some out ∧
    ∀ (p k : nat) (c a : uint8),
      (k < 3)%nat →
      image.Pix toy_buffer !! (4 * p + k)%nat = Some c →
      image.Pix toy_buffer !! (4 * p + 3)%nat = Some a →
      (0 < uint32_of_uint8 a < 255)%N →
      ∃ c', image.Pix out !! (4 * p + k)%nat = Some c' ∧
        (uint32_of_uint8 c' = 255%N
         ↔ (uint32_of_uint8 a ≤ uint32_of_uint8 c)%N) ∧
        (uint32_of_uint8 c' = 0%N ↔ uint32_of_uint8 c = 0%N).
Proof. apply (convert_full_and_zero 2 1), toy_buffer_shaped. Defined.

Lemma convert_keeps_channel_order_witness :
  ∃ out,
    convertFromPremultiplied toy_buffer = Some out ∧
    ∀ (p k1 k2 : nat) (c1 c2 : uint8),
      (k1 < 3)%nat → (k2 < 3)%nat →
      image.Pix toy_buffer !! (4 * p + k1)%nat = Some c1 →
      image.Pix toy_buffer !! (4 * p + k2)%nat = Some c2 →
      (uint32_of_uint8 c1 ≤ uint32_of_uint8 c2)%N →
      ∃ c1' c2',
        image.Pix out !! (4 * p + k1)%nat = Some c1' ∧
        image.Pix out !! (4 * p + k2)%nat = Some c2' ∧
        (uint32_of_uint8 c1' ≤ uint32_of_uint8 c2')%N.
Proof. apply (convert_keeps_channel_order 2 1), toy_buffer_shaped. Defined.

Lemma toy_pixel_shaped : canvas_shaped 1 1 toy_pixel.
Proof. unfold canvas_shaped. repeat split; (lia || reflexivity). Defined.

Lemma toy_raw_pixel_shaped : canvas_shaped 1 1 toy_raw_pixel.
Proof. unfold canvas_shaped. repeat split; (lia || reflexivity). Defined.

Lemma convert_is_pixelwise_witness :
  ∃ out out',
    convertFromPremultiplied toy_buffer = Some out ∧
    convertFromPremultiplied toy_raw_pixel = Some out' ∧
    ∀ k : nat, (k < 4)%nat →
      image.Pix out !! (4 * 0 + k)%nat = image.Pix out' !! (4 * 0 + k)%nat.
Proof.
  apply (convert_is_pixelwise 2 1 1 1 toy_buffer toy_raw_pixel 0 0).
  - apply toy_buffer_shaped.
  - apply toy_raw_pixel_shaped.
  - intros [|[|[|[|k]]]] Hk; try lia; split; (by eexists) || reflexivity.
Defined.

Lemma letterbox_on_target_witness :
  letterbox_transform
    (letterbox (float64_of_uint32 2%N) (float64_of_uint32 1%N) 2%N 1%N)
  = resvg_transform_identity.
Proof. apply (letterbox_on_target 2%N 1%N); split; reflexivity. Defined.

Lemma RenderScaledToSize_at_natural_size_witness :
  (RenderScaledToSize toy_engine toy_heap toy_small_document 2%N 1%N).2
  = (RenderWithSize toy_engine toy_heap toy_small_document 2%N 1%N).2.
Proof.
  destruct (RenderScaledToSize_at_natural_size toy_engine toy_heap
              toy_small_document toy_small_document 2%N 1%N toy_small_parses)
    as (_ & Hsame & _);
    try reflexivity; try (split; reflexivity); exact Hsame.
Defined.

Lemma svg2png_rejects_bad_arguments_witness :
  (svg2png_main toy_engine toy_overflow toy_heap toy_platform
     ["svg2png"; "in.svg"; "out.png"; "640"]%string).2 = Exited 1.
Proof.
  apply (svg2png_rejects_bad_arguments toy_engine toy_overflow toy_heap toy_platform
           ["svg2png"; "in.svg"; "out.png"; "640"]%string).
  right. left. reflexivity.
Defined.

Lemma toy_run_returns :
  (svg2png_main toy_engine toy_overflow toy_heap toy_platform toy_args).2 = Returned.
Proof. vm_compute. reflexivity. Defined.

Lemma svg2png_success_witness :
  ∃ inputFile size data calls img,
    toy_args !! 1%nat = Some inputFile ∧
    size_of_args toy_platform toy_args size ∧
    os_ReadFile toy_platform inputFile = Some data ∧
    match size with
    | Some (w, h) => RenderWithSize toy_engine toy_heap data w h
    | None => Render toy_engine toy_overflow toy_heap data
    end = (calls, Return (Some img, None)) ∧
    os_Create toy_platform (output_of_args toy_platform inputFile toy_args)
      = true ∧
    png_Encode toy_platform img = true ∧
    In (ev_encode (output_of_args toy_platform inputFile toy_args) img)
      (svg2png_main toy_engine toy_overflow toy_heap toy_platform toy_args).1 ∧
    last (svg2png_main toy_engine toy_overflow toy_heap toy_platform toy_args).1
      = Some (ev_close (output_of_args toy_platform inputFile toy_args)).
Proof.
  apply (svg2png_success toy_engine toy_overflow toy_heap toy_platform toy_args).
  rewrite (surjective_pairing (svg2png_main _ _ _ _ _)).
  by rewrite toy_run_returns.
Defined.

Lemma svg2png_crash_is_render_panic_witness :
  ["svg2png"; "in.svg"; "out.png"; "0"; "1"]%string = [] ∨
  ∃ inputFile size data calls,
    ["svg2png"; "in.svg"; "out.png"; "0"; "1"]%string !! 1%nat
      = Some inputFile ∧
    size_of_args toy_platform
      ["svg2png"; "in.svg"; "out.png"; "0"; "1"]%string size ∧
    os_ReadFile toy_platform inputFile = Some data ∧
    match size with
    | Some (w, h) => RenderWithSize toy_engine toy_heap data w h
    | None => Render toy_engine toy_overflow toy_heap data
    end = (calls, Panic).
Proof.
  apply (svg2png_crash_is_render_panic toy_engine toy_overflow toy_heap toy_platform
           ["svg2png"; "in.svg"; "out.png"; "0"; "1"]%string
           (svg2png_main toy_engine toy_overflow toy_heap toy_platform
              ["svg2png"; "in.svg"; "out.png"; "0"; "1"]%string).1).
  vm_compute. reflexivity.
Defined.

Lemma svg2png_killed_is_render_fatal_witness :
  ∃ inputFile size data calls,
    toy_args !! 1%nat = Some inputFile ∧
    size_of_args toy_platform toy_args size ∧
    os_ReadFile toy_platform inputFile = Some data ∧
    match size with
    | Some (w, h) => RenderWithSize toy_engine toy_full_heap data w h
    | None => Render toy_engine toy_overflow toy_full_heap data
    end = (calls, Fatal) ∧
    List.filter (fun e => match e with
                          | ev_create _ | ev_encode _ _ | ev_close _ => true
                          | _ => false
                          end)
      (svg2png_main toy_engine toy_overflow toy_full_heap toy_platform
         toy_args).1 = [].
Proof.
  apply (svg2png_killed_is_render_fatal toy_engine toy_overflow toy_full_heap
           toy_platform toy_args).
  vm_compute. reflexivity.
Defined.
